(** * dxlmispservice: the MISP DXL service, embedded and verified

    A shallow embedding of [dxlmispservice/app.py] (class [MispService]) and
    [dxlmispservice/_requesthandlers.py] (class [MispServiceRequestCallback]).

    Python values are an inductive type, text is a [string] whose characters
    are read as the code points below 256, a dict with text keys is a
    [gmap string], an exception is the left side of a sum, and every call
    that leaves the class (logger, DXL client, ZeroMQ socket, thread) is an
    [effect] appended to a trace. *)

From Stdlib Require Import ZArith String Ascii List Bool Lia.
From Stdlib Require Import Floats.SpecFloat.
From stdpp Require Import gmap strings list fin_maps pretty.

Set Warnings "-register-all".
Local Open Scope string_scope.
Local Open Scope list_scope.

(** ** Python values, exceptions and the text built-ins the code calls *)

Module Py.

Inductive pyval :=
  | PNone
  | PBool (b : bool)
  | PInt (z : Z)
  | PFloat (f : spec_float)
  | PStr (s : string)
  | PList (l : list pyval)
  | PDict (d : gmap string pyval)
  | PObj (cls : string).

(** The exception classes that occur; [Raised] stands for any other class. *)
Inductive exn :=
  | ValueError (msg : string)
  | TypeError (msg : string)
  | ZMQError
  | Raised (cls msg : string).

Definition result (A : Type) : Type := exn + A.

Definition ret {A} (a : A) : result A := inr a.
Definition raise {A} (e : exn) : result A := inl e.
Definition bind {A B} (m : result A) (k : A -> result B) : result B :=
  match m with
  | inl e => inl e
  | inr a => k a
  end.

(** [bool(v)]: truth value testing. *)
Definition truthy (v : pyval) : bool :=
  match v with
  | PNone => false
  | PBool b => b
  | PInt z => negb (z =? 0)%Z
  | PFloat f => match f with S754_zero _ => false | _ => true end
  | PStr s => negb (String.length s =? 0)%nat
  | PList l => negb (List.length l =? 0)%nat
  | PDict d => negb (size d =? 0)%nat
  | PObj _ => true
  end.

(** [type(v).__name__] (text is [str]; Python 2 names decoded text [unicode],
    and the code accepts both names). *)
Definition type_name (v : pyval) : string :=
  match v with
  | PNone => "NoneType"
  | PBool _ => "bool"
  | PInt _ => "int"
  | PFloat _ => "float"
  | PStr _ => "str"
  | PList _ => "list"
  | PDict _ => "dict"
  | PObj cls => cls
  end.

Definition code (c : ascii) : nat := nat_of_ascii c.

(** [c.isspace()] on the code points below 256 (Python 3 text). *)
Definition isspace (c : ascii) : bool :=
  let n := code c in
  (((9 <=? n) && (n <=? 13)) || ((28 <=? n) && (n <=? 32))
   || (n =? 133) || (n =? 160))%nat.

(** Decimal digits, the characters [int()] reads. *)
Definition isdecimal_char (c : ascii) : bool :=
  let n := code c in ((48 <=? n) && (n <=? 57))%nat.

(** [c.isdigit()] on the code points below 256: the decimal digits and the
    superscripts U+00B2, U+00B3 and U+00B9. *)
Definition isdigit_char (c : ascii) : bool :=
  let n := code c in
  isdecimal_char c || ((n =? 178) || (n =? 179) || (n =? 185))%nat.

Fixpoint forall_chars (p : ascii -> bool) (s : string) : bool :=
  match s with
  | EmptyString => true
  | String c s' => p c && forall_chars p s'
  end.

(** [s.isdigit()]: at least one character, and all of them digits. *)
Definition isdigit (s : string) : bool :=
  negb (String.length s =? 0)%nat && forall_chars isdigit_char s.

Fixpoint decimal_value (acc : Z) (s : string) : Z :=
  match s with
  | EmptyString => acc
  | String c s' => decimal_value (10 * acc + (Z.of_nat (code c) - 48)) s'
  end.

(** [sys.int_info.default_max_str_digits]: the longest text of digits
    [int()] converts, in CPython from 3.11 on (and in the later releases of
    3.7 to 3.10) unless the limit is changed. *)
Definition int_max_str_digits : nat := 4300.

(** [int(s)] on the texts the request handler passes to it, those for which
    [s.isdigit()] holds: the decimal value when every character is a decimal
    digit and the text is within the limit on the number of digits,
    [ValueError] otherwise. (Signs, blanks and underscores, which [int()]
    also reads, never reach that call. An interpreter without the limit
    reads the longer texts as well.) *)
Definition int (s : string) : result Z :=
  if negb (String.length s =? 0)%nat && forall_chars isdecimal_char s
  then if (String.length s <=? int_max_str_digits)%nat
       then ret (decimal_value 0 s)
       else raise (ValueError "Exceeds the limit (4300 digits) for integer string conversion")
  else raise (ValueError ("invalid literal for int() with base 10: '" +:+ s +:+ "'")).

Fixpoint lstrip (s : string) : string :=
  match s with
  | EmptyString => EmptyString
  | String c s' => if isspace c then lstrip s' else s
  end.

Fixpoint rstrip (s : string) : string :=
  match s with
  | EmptyString => EmptyString
  | String c s' =>
      match rstrip s' with
      | EmptyString => if isspace c then EmptyString else String c EmptyString
      | r => String c r
      end
  end.

(** [s.strip()] *)
Definition strip (s : string) : string := rstrip (lstrip s).

(** [s.split(sep)] for a one-character separator; never the empty list. *)
Fixpoint split (sep : ascii) (s : string) : list string :=
  match s with
  | EmptyString => [EmptyString]
  | String c s' =>
      if Ascii.eqb c sep then EmptyString :: split sep s'
      else match split sep s' with
           | x :: xs => String c x :: xs
           | [] => [String c EmptyString]
           end
  end.

(** [s.partition(sep)] for a one-character separator: the text before the
    first [sep], the separator met (empty when there is none), the rest. *)
Fixpoint partition (sep : ascii) (s : string) : string * string * string :=
  match s with
  | EmptyString => (EmptyString, EmptyString, EmptyString)
  | String c s' =>
      if Ascii.eqb c sep then (EmptyString, String sep EmptyString, s')
      else let '(h, m, t) := partition sep s' in (String c h, m, t)
  end.

End Py.

Import Py.

Notation "'let!' x ':=' m 'in' k" := (Py.bind m (fun x => k))
  (at level 10, x name, m at level 100, k at level 200).

(** ** Effects: the calls that leave the two classes *)

Inductive level := DEBUG | INFO | WARNING.

(** A callable attribute of the API client: its [__name__] and what calling it
    with keyword arguments does. Functions, bound methods and classes are all
    truthy. *)
Record callable := {
  __name__ : string;
  call : gmap string pyval -> result pyval
}.

Inductive effect :=
  (** [logger.<level>(fmt, args...)] *)
  | Log (lvl : level) (fmt : string) (args : list string)
  (** [ServiceRegistrationInfo(self._dxl_client, service_type)] *)
  | NewService (service_type : string)
  (** [self.add_request_callback(service, topic, MispServiceRequestCallback(self, m), False)] *)
  | AddRequestCallback (topic : string) (api_method : callable)
  (** [self.register_service(service)] *)
  | RegisterService
  (** [self._api_method] called with [kwargs] expanded as keyword arguments *)
  | CallApi (kwargs : gmap string pyval)
  (** [self._app.client.send_response(res)] with the payload of [res] *)
  | SendResponse (payload : string)
  (** [self.client.send_event(event)] *)
  | SendEvent (topic payload : string)
  (** [super(MispService, self).destroy()] *)
  | SuperDestroy
  (** [self._zeromq_socket.close()] *)
  | SocketClose
  (** [self._zeromq_thread.join()] *)
  | ThreadJoin
  (** [self._zeromq_poller.poll(timeout=None)] *)
  | Poll
  (** [self._zeromq_socket.recv_string()] returning [message] *)
  | RecvString (message : string).

(** ** Class constants *)

Definition _SERVICE_BASE_NAME : string := "/opendxl-misp/service".
Definition _SERVICE_TYPE : string := _SERVICE_BASE_NAME +:+ "/misp-api".
Definition _GENERAL_CONFIG_SECTION : string := "General".
Definition _GENERAL_SERVICE_UNIQUE_ID_PROP : string := "serviceUniqueId".
Definition _ZEROMQ_NOTIFICATIONS_EVENT_TOPIC : string :=
  _SERVICE_BASE_NAME +:+ "/zeromq-notifications".

(** ** Setting resolver: [MispService._get_setting_from_config] *)

(** The five keys of [getter_methods]. *)
Inductive return_type := Rstr | Rlist | Rbool | Rint | Rfloat.

(** The configuration snapshot: the text stored for every option
    [config.has_option] finds, which is the text [config.get(section,
    setting)] yields where the parser hands it on as it is. *)
Abbreviation config_parser := (gmap (string * string) string).

Section SettingResolver.

(** The conversions behind [config.getboolean], [config.getint] and
    [config.getfloat]: the text of the [ValueError] they raise, or the
    value. *)
Variable getboolean : string -> string + bool.
Variable getint : string -> string + Z.
Variable getfloat : string -> string + spec_float.

(** The file system: [Application._get_path] (a path relative to the
    configuration directory is resolved against it) and [os.path.isfile]. *)
Variable _get_path : string -> string.
Variable isfile : string -> bool.

Definition unexpected_value (setting section ex : string) : exn :=
  ValueError ("Unexpected value for setting " +:+ setting +:+
              " in section " +:+ section +:+ ": " +:+ ex).

Definition required_empty (setting section : string) : exn :=
  ValueError ("Required setting " +:+ setting +:+
              " in section " +:+ section +:+ " is empty").

Definition required_missing (setting section : string) : exn :=
  ValueError ("Required setting " +:+ setting +:+
              " not found in " +:+ section +:+ " section").

Definition cannot_find_file (setting section path : string) : exn :=
  ValueError ("Cannot find file for setting " +:+ setting +:+
              " in section " +:+ section +:+ ": " +:+ path).

(** The branch taken when [config.has_option(section, setting)] holds and
    [raw] is the stored text, over a parser that hands the stored text on
    as it is (one that does not interpolate, or a text free of
    interpolation syntax). [Resolver.read_option] below is the branch over
    any parser. *)
Definition read_option (section setting raw : string)
    (rt : return_type) (raise_exception_if_missing : bool) : result pyval :=
  match rt with
  | Rstr =>
      let return_value := strip raw in
      if (String.length return_value =? 0)%nat && raise_exception_if_missing
      then raise (required_empty setting section)
      else ret (PStr return_value)
  | Rlist =>
      let return_value := map strip (split "," raw) in
      if (List.length return_value =? 1)%nat
         && (String.length (hd EmptyString return_value) =? 0)%nat
         && raise_exception_if_missing
      then raise (required_empty setting section)
      else ret (PList (map PStr return_value))
  | Rbool =>
      match getboolean raw with
      | inl ex => raise (unexpected_value setting section ex)
      | inr b => ret (PBool b)
      end
  | Rint =>
      match getint raw with
      | inl ex => raise (unexpected_value setting section ex)
      | inr z => ret (PInt z)
      end
  | Rfloat =>
      match getfloat raw with
      | inl ex => raise (unexpected_value setting section ex)
      | inr f => ret (PFloat f)
      end
  end.

(** The closing [if is_file_path and return_value:] block, on the values
    the calls of this program pass to it with the flag set: text and
    [None]. A truthy value that is not text has its outcome from the
    [os.path] functions, which may raise [TypeError] or read an integer as
    a file descriptor; it is given the first here, and
    [Resolver.check_file_path] below leaves it open. *)
Definition check_file_path (section setting : string)
    (is_file_path : bool) (return_value : pyval) : result pyval :=
  if is_file_path && truthy return_value then
    match return_value with
    | PStr p =>
        let return_value := _get_path p in
        if negb (isfile return_value)
        then raise (cannot_find_file setting section return_value)
        else ret (PStr return_value)
    | v => raise (TypeError ("expected str, bytes or os.PathLike object, not "
                             +:+ type_name v))
    end
  else ret return_value.

Definition _get_setting_from_config (config : config_parser)
    (section setting : string) (default_value : pyval)
    (rt : return_type)
    (raise_exception_if_missing is_file_path : bool) : result pyval :=
  let! return_value :=
    match config !! (section, setting) with
    | Some raw => read_option section setting raw rt raise_exception_if_missing
    | None =>
        if raise_exception_if_missing
        then raise (required_missing setting section)
        else ret default_value
    end in
  check_file_path section setting is_file_path return_value.

(** [self._service_unique_id], as [on_load_configuration] reads it: a text
    setting, not required, default [None], no file check. Such a call
    yields text or [None]; [None] is the [option]'s [None]. *)
Definition load_service_unique_id (config : config_parser)
    : result (option string) :=
  let! v := _get_setting_from_config config _GENERAL_CONFIG_SECTION
              _GENERAL_SERVICE_UNIQUE_ID_PROP PNone Rstr false false in
  ret (match v with PStr s => Some s | _ => None end).

(** A configuration error: the [ValueError] the resolver raises. *)
Definition config_error (r : result pyval) : Prop :=
  exists msg, r = inl (ValueError msg).

End SettingResolver.

(** ** The resolver over any parser

    The definitions above read the configuration through a parser that
    hands on every stored text as it is. [ConfigParser] does more: its
    getters interpolate the stored text, and for a text they cannot expand
    (a stray percent sign) they raise an interpolation error, which is not a
    [ValueError] and so passes the [except] of the resolver. Here the
    resolver is embedded over the parser's interface as the code uses it:
    [has_option] and the four getters, each of which returns or raises. *)
Module Resolver.

Record parser := {
  has_option : string -> string -> bool;
  get : string -> string -> result string;
  getboolean : string -> string -> result bool;
  getint : string -> string -> result Z;
  getfloat : string -> string -> result spec_float
}.

(** [except ValueError as ex: raise ValueError("Unexpected value ...")]:
    a [ValueError] of the getter is replaced, any other exception passes. *)
Definition rewrapped {A} (section setting : string) (r : result A) : result A :=
  match r with
  | inl (ValueError ex) => raise (unexpected_value setting section ex)
  | inl e => raise e
  | inr a => ret a
  end.

Section OverParser.

Variable config : parser.
(** The file system, on text: [Application._get_path] and
    [os.path.isfile]. *)
Variable _get_path : string -> string.
Variable isfile : string -> bool.
(** What the same two functions make of a truthy value that is not text:
    they raise, or (an integer is read as a file descriptor) they accept
    it. No call of the resolver passes such a value with the flag set. *)
Variable check_other_path : pyval -> result pyval.

(** The branch taken when [config.has_option(section, setting)] holds. *)
Definition read_option (section setting : string)
    (rt : return_type) (raise_exception_if_missing : bool) : result pyval :=
  match rt with
  | Rstr =>
      let! return_value := rewrapped section setting (get config section setting) in
      let return_value := strip return_value in
      if (String.length return_value =? 0)%nat && raise_exception_if_missing
      then raise (required_empty setting section)
      else ret (PStr return_value)
  | Rlist =>
      let! return_value := rewrapped section setting (get config section setting) in
      let return_value := map strip (split "," return_value) in
      if (List.length return_value =? 1)%nat
         && (String.length (hd EmptyString return_value) =? 0)%nat
         && raise_exception_if_missing
      then raise (required_empty setting section)
      else ret (PList (map PStr return_value))
  | Rbool =>
      let! b := rewrapped section setting (getboolean config section setting) in
      ret (PBool b)
  | Rint =>
      let! z := rewrapped section setting (getint config section setting) in
      ret (PInt z)
  | Rfloat =>
      let! f := rewrapped section setting (getfloat config section setting) in
      ret (PFloat f)
  end.

(** The closing [if is_file_path and return_value:] block. *)
Definition check_file_path (section setting : string)
    (is_file_path : bool) (return_value : pyval) : result pyval :=
  if is_file_path && truthy return_value then
    match return_value with
    | PStr p =>
        let return_value := _get_path p in
        if negb (isfile return_value)
        then raise (cannot_find_file setting section return_value)
        else ret (PStr return_value)
    | v => check_other_path v
    end
  else ret return_value.

Definition _get_setting_from_config
    (section setting : string) (default_value : pyval)
    (rt : return_type)
    (raise_exception_if_missing is_file_path : bool) : result pyval :=
  let! return_value :=
    if has_option config section setting
    then read_option section setting rt raise_exception_if_missing
    else if raise_exception_if_missing
         then raise (required_missing setting section)
         else ret default_value in
  check_file_path section setting is_file_path return_value.

(** *** The contract, in the words of the specification *)

(** The getter of the expected type raises [e]. *)
Definition getter_raises (rt : return_type) (section setting : string) (e : exn) : Prop :=
  match rt with
  | Rstr | Rlist => get config section setting = inl e
  | Rbool => getboolean config section setting = inl e
  | Rint => getint config section setting = inl e
  | Rfloat => getfloat config section setting = inl e
  end.

(** "a present value cannot be parsed as the expected type": the getter
    raises [ValueError]. *)
Definition cannot_parse (rt : return_type) (section setting : string) : Prop :=
  exists ex, getter_raises rt section setting (ValueError ex).

(** The parser itself fails on a present value: its getter raises an
    exception that is not a [ValueError]. *)
Definition parser_raises (rt : return_type) (section setting : string) (e : exn) : Prop :=
  has_option config section setting = true
  /\ getter_raises rt section setting e
  /\ forall ex, e <> ValueError ex.

(** "the parsed value (strings trimmed, lists split on commas with each
    element trimmed)" *)
Definition parsed_as (rt : return_type) (section setting : string) (v : pyval) : Prop :=
  match rt with
  | Rstr => exists text, get config section setting = inr text /\ v = PStr (strip text)
  | Rlist => exists text, get config section setting = inr text
                          /\ v = PList (PStr <$> (strip <$> split "," text))
  | Rbool => exists b, getboolean config section setting = inr b /\ v = PBool b
  | Rint => exists z, getint config section setting = inr z /\ v = PInt z
  | Rfloat => exists f, getfloat config section setting = inr f /\ v = PFloat f
  end.

(** "a required string or list value is present but empty after trimming" *)
Definition empty_after_trimming (rt : return_type) (section setting : string) : Prop :=
  (rt = Rstr \/ rt = Rlist)
  /\ exists text, get config section setting = inr text /\ strip text = EmptyString.

(** The value the resolver has in hand before the file check: the parsed
    value of a present setting, the declared default of a missing one. *)
Definition obtained (section setting : string)
    (default_value : pyval) (rt : return_type) (v : pyval) : Prop :=
  if has_option config section setting
  then parsed_as rt section setting v
  else v = default_value.

(** The first three causes of a configuration error. *)
Definition setting_rejected (section setting : string)
    (rt : return_type) (required : bool) : Prop :=
  if has_option config section setting
  then cannot_parse rt section setting
       \/ (required = true /\ empty_after_trimming rt section setting)
  else required = true.

(** The fourth cause as the claim words it: "the file-path flag is set and
    no file exists at the resolved path". *)
Definition file_missing_as_stated (section setting : string)
    (default_value : pyval) (rt : return_type) (is_file_path : bool) : Prop :=
  is_file_path = true /\
  exists p, obtained section setting default_value rt (PStr p)
            /\ isfile (_get_path p) = false.

(** The fourth cause as the code has it: only a non-empty path is checked. *)
Definition file_missing (section setting : string)
    (default_value : pyval) (rt : return_type) (is_file_path : bool) : Prop :=
  is_file_path = true /\
  exists p, obtained section setting default_value rt (PStr p)
            /\ p <> EmptyString /\ isfile (_get_path p) = false.

(** What every call of the resolver in this program obeys: under the
    file-path flag the value obtained is text, or is false. *)
Definition path_is_text (section setting : string)
    (default_value : pyval) (rt : return_type) (is_file_path : bool) : Prop :=
  is_file_path = true ->
  forall v, obtained section setting default_value rt v -> truthy v = true ->
            exists p, v = PStr p.

(** The two halves of the claim as it is stated. *)
Definition fails_exactly_as_stated (section setting : string)
    (default_value : pyval) (rt : return_type) (required is_file_path : bool) : Prop :=
  config_error (_get_setting_from_config section setting default_value rt
                  required is_file_path)
  <-> setting_rejected section setting rt required
      \/ file_missing_as_stated section setting default_value rt is_file_path.
Definition returns_otherwise_as_stated (section setting : string)
    (default_value : pyval) (rt : return_type) (required is_file_path : bool) : Prop :=
  ~ config_error (_get_setting_from_config section setting default_value rt
                    required is_file_path) ->
  exists v, _get_setting_from_config section setting default_value rt
              required is_file_path = inr v.

End OverParser.

(** The parser the definitions above stand for: every stored text is handed
    on as it is, and the typed getters convert it. *)
Definition plain (getboolean : string -> string + bool) (getint : string -> string + Z)
    (getfloat : string -> string + spec_float) (config : config_parser) : parser :=
  let converted {A} (convert : string -> string + A) (section setting : string)
      : result A :=
    match config !! (section, setting) with
    | Some raw =>
        match convert raw with
        | inl ex => raise (ValueError ex)
        | inr a => ret a
        end
    | None => raise (Raised "NoOptionError" setting)
    end in
  {| has_option := fun section setting =>
       bool_decide (is_Some (config !! (section, setting)));
     get := converted inr;
     getboolean := converted getboolean;
     getint := converted getint;
     getfloat := converted getfloat |}.

(** A stand-in for a parser that interpolates: it hands on a stored text
    without percent sign and refuses one with a percent sign, as
    [ConfigParser] refuses a stray one, with the parser's own exception. *)
Definition interpolating (getboolean : string -> string + bool)
    (getint : string -> string + Z) (getfloat : string -> string + spec_float)
    (config : config_parser) : parser :=
  let converted {A} (convert : string -> string + A) (section setting : string)
      : result A :=
    match config !! (section, setting) with
    | Some raw =>
        if forall_chars (fun c => negb (Ascii.eqb c "%")) raw then
          match convert raw with
          | inl ex => raise (ValueError ex)
          | inr a => ret a
          end
        else raise (Raised "InterpolationSyntaxError"
                      ("'%' must be followed by '%' or '(', found: " +:+ raw))
    | None => raise (Raised "NoOptionError" setting)
    end in
  {| has_option := fun section setting =>
       bool_decide (is_Some (config !! (section, setting)));
     get := converted inr;
     getboolean := converted getboolean;
     getint := converted getint;
     getfloat := converted getfloat |}.

(** The outcome given above to a truthy value that is not text. *)
Definition refuse_other_path (v : pyval) : result pyval :=
  raise (TypeError ("expected str, bytes or os.PathLike object, not " +:+ type_name v)).

End Resolver.

(** ** The service object *)

(** An attribute of the API client object: callable or plain data. *)
Inductive attr :=
  | Callable (f : callable)
  | Data (v : pyval).

Record MispService := {
  (** [None] or the trimmed text of the setting *)
  _service_unique_id : option string;
  (** the attributes of [self._api_client], by name *)
  _api_client : gmap string attr;
  _api_names : list string
}.

(** Truth value of [self._service_unique_id]: [None] and the empty text are
    false. *)
Definition unique_id_set (uid : option string) : bool :=
  match uid with
  | Some s => negb (String.length s =? 0)%nat
  | None => false
  end.

(** [sep + "{}".format(self._service_unique_id) if self._service_unique_id
    else ""] *)
Definition unique_id_segment (sep : string) (uid : option string) : string :=
  match uid with
  | Some s => if unique_id_set uid then sep +:+ s else EmptyString
  | None => EmptyString
  end.

(** The topic of a request callback, ["{}{}/{}".format(...)] in
    [on_register_services]. *)
Definition service_topic (uid : option string) (api_method_name : string) : string :=
  _SERVICE_TYPE +:+ unique_id_segment "/" uid +:+ "/" +:+ api_method_name.

(** The topic of a forwarded notification, [full_event_topic] in
    [_process_zeromq_messages]. *)
Definition full_event_topic (uid : option string) (topic : string) : string :=
  _ZEROMQ_NOTIFICATIONS_EVENT_TOPIC +:+ unique_id_segment "/" uid +:+ "/" +:+ topic.

(** ** API method registry and service registration *)

(** [MispService._get_api_method]: [hasattr], [getattr], [callable]. *)
Definition _get_api_method (self : MispService) (api_name : string)
    : option callable :=
  match _api_client self !! api_name with
  | Some api_attr =>
      match api_attr with
      | Callable f => Some f
      | Data _ => None
      end
  | None => None
  end.

(** [logger.warning("MISP API name is invalid: %s", api_name)] *)
Definition invalid_name_warning (api_name : string) : effect :=
  Log WARNING "MISP API name is invalid: %s" [api_name].

(** The first loop of [on_register_services]: the methods appended to
    [api_methods] and the warnings logged, both in loop order. *)
Fixpoint resolve_api_names (self : MispService) (api_names : list string)
    : list callable * list effect :=
  match api_names with
  | [] => ([], [])
  | api_name :: rest =>
      let '(api_methods, logged) := resolve_api_names self rest in
      match _get_api_method self api_name with
      | Some api_method => (api_method :: api_methods, logged)
      | None =>
          (api_methods, invalid_name_warning api_name :: logged)
      end
  end.

(** The body of the second loop, for one method. *)
Definition register_callback (self : MispService) (api_method : callable)
    : list effect :=
  let api_method_name := __name__ api_method in
  let topic := service_topic (_service_unique_id self) api_method_name in
  [ Log INFO "Registering request callback: %s%s_%s_%s. Topic: %s."
      [ "misp"; unique_id_segment "_" (_service_unique_id self);
        api_method_name; "requesthandler"; topic ];
    AddRequestCallback topic api_method ].

Definition on_register_services (self : MispService) : list effect :=
  let '(api_methods, logged) := resolve_api_names self (_api_names self) in
  logged ++
  if negb (List.length api_methods =? 0)%nat then
    [ Log INFO "Registering service: misp_service" [];
      NewService _SERVICE_TYPE ]
    ++ flat_map (register_callback self) api_methods
    ++ [ RegisterService ]
  else [].

(** ** Request handler: [MispServiceRequestCallback.on_request] *)

(** Effects so far, then an exception or a value. *)
Definition eff (A : Type) : Type := list effect * result A.

Definition tell (e : effect) : eff unit := ([e], inr tt).
Definition lift {A} (r : result A) : eff A := ([], r).
Definition eff_bind {A B} (m : eff A) (k : A -> eff B) : eff B :=
  match m with
  | (t, inl e) => (t, inl e)
  | (t, inr a) => let '(t', r) := k a in (t ++ t', r)
  end.

Notation "'do!' x ':=' m 'in' k" := (eff_bind m (fun x => k))
  (at level 10, x name, m at level 100, k at level 200).
Notation "m ';;!' k" := (eff_bind m (fun _ => k))
  (at level 100, k at level 200, right associativity).

Record Request := {
  destination_topic : string;
  (** the payload bytes; [None] when the request carries none *)
  payload : option string
}.

(** Truth value of [request.payload]. *)
Definition payload_set (request : Request) : bool :=
  match payload request with
  | Some b => negb (String.length b =? 0)%nat
  | None => false
  end.

(** The [event] repair on a decoded payload. Text is the only value whose
    type name is [str] or [unicode]. A decoded payload that is not a dict
    ([null], a number, text, a list) raises [TypeError] at the membership
    test, at the subscript or at the keyword expansion. *)
Definition coerce_event (request_dict : pyval) : result (gmap string pyval) :=
  match request_dict with
  | PDict d =>
      match d !! "event" with
      | Some (PStr s) =>
          if isdigit s
          then (let! i := Py.int s in ret (<["event" := PInt i]> d))
          else ret d
      | _ => ret d
      end
  | v => raise (TypeError ("not a mapping: " +:+ type_name v))
  end.

Section RequestHandler.

(** [MessageUtils.json_payload_to_dict]: decodes the payload bytes and
    parses them as JSON. *)
Variable json_payload_to_dict : string -> result pyval.
(** [MessageUtils.dict_to_json_payload]: the bytes of the JSON text of a
    value, or the exception of a value JSON cannot carry. *)
Variable dict_to_json_payload : pyval -> result string.

(** [request_dict] as it stands when the operation is called: the decoded
    payload, or the empty dict for a payload that is not set, after the
    [event] repair. *)
Definition request_dict_of (request : Request) : result (gmap string pyval) :=
  let! decoded := (if payload_set request
                   then json_payload_to_dict (default EmptyString (payload request))
                   else ret (PDict ∅)) in
  coerce_event decoded.

Definition on_request (api_method : callable) (request : Request) : eff unit :=
  tell (Log INFO "Request received on topic '%s'"
          [destination_topic request]) ;;!
  tell (Log DEBUG "Payload for topic %s: %s"
          [destination_topic request; default "None" (payload request)]) ;;!
  do! request_dict := lift (request_dict_of request) in
  tell (CallApi request_dict) ;;!
  do! response_data := lift (call api_method request_dict) in
  do! res := lift (dict_to_json_payload response_data) in
  tell (SendResponse res).

End RequestHandler.

(** ** Notification relay: [MispService._process_zeromq_messages] *)

Definition POLLIN : Z := 1.

(** What [poll] does in one iteration: it raises, or it returns the pairs
    from which [socks] is built; [flags] is [socks.get(self._zeromq_socket)]. *)
Inductive poll_outcome :=
  | PollRaises (e : exn)
  | PollReturns (flags : option Z).

(** What the world answers during one iteration of the loop: the value of
    [self.__destroyed] the loop test reads, the outcome of [poll], of
    [recv_string] and of [send_event] ([None]: it returns). The last two are
    consulted only when the iteration gets that far. *)
Record iteration := {
  destroyed_read : bool;
  polled : poll_outcome;
  received : result string;
  sent : option exn
}.

(** How the loop stands after the iterations supplied: it left the [while]
    normally, an exception escaped it, or it is at the loop test again. *)
Inductive loop_end :=
  | Exits
  | Escapes (e : exn)
  | AtLoopTest.

(** [except zmq.ZMQError] *)
Definition is_ZMQError (e : exn) : bool :=
  match e with ZMQError => true | _ => false end.

(** The part of the loop body under the [if]: receive, split, forward. *)
Definition forward_message (uid : option string) (it : iteration) : eff unit :=
  do! message := ([], received it) in
  tell (RecvString message) ;;!
  let '(topic, _, payload) := partition " " message in
  tell (Log DEBUG "Received notification for %s" [topic]) ;;!
  let topic' := full_event_topic uid topic in
  tell (Log DEBUG "Forwarding notification to %s ..." [topic']) ;;!
  tell (SendEvent topic' payload) ;;!
  lift (match sent it with Some e => raise e | None => ret tt end).

(** One pass through the loop body. *)
Definition loop_body (uid : option string) (it : iteration) : eff unit :=
  tell Poll ;;!
  do! socks := lift (match polled it with
                     | PollRaises e => if is_ZMQError e then ret None else raise e
                     | PollReturns flags => ret flags
                     end) in
  match socks with
  | Some flags => if (flags =? POLLIN)%Z then forward_message uid it
                  else lift (ret tt)
  | None => lift (ret tt)
  end.

Fixpoint _process_zeromq_messages (uid : option string) (world : list iteration)
    : list effect * loop_end :=
  match world with
  | [] => ([], AtLoopTest)
  | it :: rest =>
      if destroyed_read it then ([], Exits)
      else match loop_body uid it with
           | (t, inl e) => (t, Escapes e)
           | (t, inr _) =>
               let '(t', o) := _process_zeromq_messages uid rest in (t ++ t', o)
           end
  end.

(** ** Shutdown: [MispService.destroy] *)

(** The fields [destroy] reads and writes. The socket and the thread are set
    by [_start_zeromq_listener], both or neither, before any shutdown. *)
Record relay := {
  __destroyed : bool;
  (** [self._zeromq_socket] is not [None] *)
  _zeromq_socket : bool;
  (** [self._zeromq_thread] is not [None] *)
  _zeromq_thread : bool
}.

(** One call of [destroy] run to its end with no other caller. *)
Definition destroy (self : relay) : relay * list effect :=
  if negb (__destroyed self) then
    ({| __destroyed := true;
        _zeromq_socket := _zeromq_socket self;
        _zeromq_thread := _zeromq_thread self |},
     [SuperDestroy]
     ++ (if _zeromq_socket self
         then [Log DEBUG "Closing zeromq socket ..." []; SocketClose]
         else [])
     ++ (if _zeromq_thread self
         then [Log DEBUG "Waiting for zeromq message thread to terminate ..." [];
               ThreadJoin;
               Log DEBUG "Zeromq message thread terminated" []]
         else []))
  else (self, [SuperDestroy]).


(** Callers of [destroy] on several threads, with the listener thread, as a
    transition system. Each caller walks through the statements of [destroy];
    the lock admits one caller at a time; [join] waits for the listener,
    which walks through its loop. *)
Module Shutdown.

(** Where a caller stands in [destroy]. *)
Inductive pc :=
  | Start       (* before [super().destroy()] *)
  | WaitLock    (* before [with self.__lock:] *)
  | TestFlag    (* lock held, before [if not self.__destroyed:] *)
  | SetFlag     (* lock held, before [self.__destroyed = True] *)
  | CloseSock   (* lock held, before [if self._zeromq_socket:] *)
  | JoinThr     (* lock held, before [if self._zeromq_thread:] *)
  | Release     (* lock held, leaving the [with] block *)
  | Done.       (* returned *)

Inductive event :=
  | Calls (caller : nat) (e : effect)
  | Returns (caller : nat)
  | ListenerExits.

Record system := {
  self : relay;
  (** the listener thread is inside the body of its loop: blocked in
      [poll(timeout=None)], or receiving and forwarding a message *)
  listener_polling : bool;
  (** the listener thread has left [_process_zeromq_messages] *)
  listener_exited : bool;
  (** the thread holding [self.__lock] *)
  lock : option nat;
  pcs : list pc;
  (** what has happened, oldest first *)
  history : list event
}.

(** What the listener thread does next. At its loop test it reads
    [self.__destroyed]: set, it leaves the loop; clear, it enters the body.
    In the body it stays until the world lets it out: [poll] returns (or
    raises [ZMQError], which is caught) and the message, if any, is
    forwarded, which brings it back to the loop test; or an exception that
    is not caught ends the thread. Nothing in [destroy] decides when the
    body ends. *)
Inductive listener_move :=
  | LoopTest
  | BodyReturns
  | BodyRaises.

(** A caller makes its next step, or the listener thread does. *)
Inductive action :=
  | Caller (i : nat)
  | Listener (m : listener_move).

Definition holds_lock (p : pc) : bool :=
  match p with
  | TestFlag | SetFlag | CloseSock | JoinThr | Release => true
  | Start | WaitLock | Done => false
  end.

Definition move (i : nat) (p : pc) (evs : list event) (s : system) : system :=
  {| self := self s; listener_polling := listener_polling s;
     listener_exited := listener_exited s; lock := lock s;
     pcs := <[i := p]> (pcs s); history := history s ++ evs |}.

Definition set_lock (o : option nat) (s : system) : system :=
  {| self := self s; listener_polling := listener_polling s;
     listener_exited := listener_exited s; lock := o;
     pcs := pcs s; history := history s |}.

Definition set_destroyed (s : system) : system :=
  {| self := {| __destroyed := true;
                _zeromq_socket := _zeromq_socket (self s);
                _zeromq_thread := _zeromq_thread (self s) |};
     listener_polling := listener_polling s;
     listener_exited := listener_exited s; lock := lock s;
     pcs := pcs s; history := history s |}.

Definition set_polling (b : bool) (s : system) : system :=
  {| self := self s; listener_polling := b;
     listener_exited := listener_exited s; lock := lock s;
     pcs := pcs s; history := history s |}.

(** The listener thread ends. *)
Definition exit (s : system) : system :=
  {| self := self s; listener_polling := false;
     listener_exited := true; lock := lock s;
     pcs := pcs s; history := history s ++ [ListenerExits] |}.

(** The next step of caller [i]; [None] when it is blocked or has returned. *)
Definition caller_step (i : nat) (s : system) : option system :=
  match pcs s !! i with
  | Some Start => Some (move i WaitLock [Calls i SuperDestroy] s)
  | Some WaitLock =>
      match lock s with
      | None => Some (move i TestFlag [] (set_lock (Some i) s))
      | Some _ => None
      end
  | Some TestFlag =>
      if negb (__destroyed (self s)) then Some (move i SetFlag [] s)
      else Some (move i Release [] s)
  | Some SetFlag => Some (move i CloseSock [] (set_destroyed s))
  | Some CloseSock =>
      if _zeromq_socket (self s)
      then Some (move i JoinThr
                   [Calls i (Log DEBUG "Closing zeromq socket ..." []);
                    Calls i SocketClose] s)
      else Some (move i JoinThr [] s)
  | Some JoinThr =>
      if _zeromq_thread (self s) then
        if listener_exited s
        then Some (move i Release
                     [Calls i (Log DEBUG "Waiting for zeromq message thread to terminate ..." []);
                      Calls i ThreadJoin;
                      Calls i (Log DEBUG "Zeromq message thread terminated" [])] s)
        else None
      else Some (move i Release [] s)
  | Some Release => Some (move i Done [Returns i] (set_lock None s))
  | Some Done => None
  | None => None
  end.

(** The next step of the listener thread, when there is one and it has not
    ended; [None] when the move is not the one it stands at. *)
Definition listener_step (m : listener_move) (s : system) : option system :=
  if _zeromq_thread (self s) && negb (listener_exited s) then
    match m, listener_polling s with
    | LoopTest, false =>
        if __destroyed (self s) then Some (exit s) else Some (set_polling true s)
    | BodyReturns, true => Some (set_polling false s)
    | BodyRaises, true => Some (exit s)
    | _, _ => None
    end
  else None.

Definition step (a : action) (s : system) : option system :=
  match a with
  | Caller i => caller_step i s
  | Listener m => listener_step m s
  end.

(** A schedule is any sequence of actions; one that cannot fire is passed
    over. *)
Fixpoint run (schedule : list action) (s : system) : system :=
  match schedule with
  | [] => s
  | a :: rest => run rest (default s (step a s))
  end.

(** [n] callers about to call [destroy] on a service that has not been
    destroyed; the two flags tell whether [_start_zeromq_listener] has set
    the socket and the thread. The listener thread, if there is one, stands
    at its first loop test: a schedule that begins with its moves has it
    anywhere in its loop when the callers arrive. *)
Definition initial (n : nat) (has_socket has_thread : bool) : system :=
  {| self := {| __destroyed := false;
                _zeromq_socket := has_socket;
                _zeromq_thread := has_thread |};
     listener_polling := false; listener_exited := false; lock := None;
     pcs := replicate n Start; history := [] |}.

Definition is_close (ev : event) : bool :=
  match ev with Calls _ SocketClose => true | _ => false end.
Definition is_join (ev : event) : bool :=
  match ev with Calls _ ThreadJoin => true | _ => false end.
Definition is_exit (ev : event) : bool :=
  match ev with ListenerExits => true | _ => false end.

Definition count (p : event -> bool) (h : list event) : nat :=
  List.length (List.filter p h).

(** Between the assignment of the flag and the end of the [if] block. *)
Definition flagged (p : pc) : bool :=
  match p with CloseSock | JoinThr => true | _ => false end.

(** The listener thread, if there is one, has exited. *)
Definition thread_done (s : system) : Prop :=
  _zeromq_thread (self s) = true -> listener_exited s = true.

(** What holds in every state the callers and the listener can reach. *)
Record invariant (s : system) : Prop := {
  inv_lock : forall i p, pcs s !! i = Some p ->
             (holds_lock p = true <-> lock s = Some i);
  inv_set : forall i, pcs s !! i = Some SetFlag -> __destroyed (self s) = false;
  inv_flag : forall i p, pcs s !! i = Some p -> flagged p = true ->
             __destroyed (self s) = true;
  inv_fresh : __destroyed (self s) = false ->
              count is_close (history s) = 0%nat /\ count is_join (history s) = 0%nat;
  inv_close : forall i, pcs s !! i = Some CloseSock ->
              count is_close (history s) = 0%nat /\ count is_join (history s) = 0%nat;
  inv_join : forall i, pcs s !! i = Some JoinThr -> count is_join (history s) = 0%nat;
  inv_once : (count is_close (history s) <= 1)%nat /\ (count is_join (history s) <= 1)%nat;
  inv_joined : __destroyed (self s) = true ->
               (exists i p, pcs s !! i = Some p /\ flagged p = true) \/ thread_done s;
  inv_ret : forall i p, pcs s !! i = Some p -> p = Release \/ p = Done -> thread_done s;
  inv_exit : count is_exit (history s) = if listener_exited s then 1%nat else 0%nat
}.

End Shutdown.

(** ** Reading traces, and the words of the specification *)

(** The payloads of the responses sent. *)
Definition responses (t : list effect) : list string :=
  omap (fun e => match e with SendResponse p => Some p | _ => None end) t.

(** The keyword arguments of the calls of the bound operation. *)
Definition api_calls (t : list effect) : list (gmap string pyval) :=
  omap (fun e => match e with CallApi kw => Some kw | _ => None end) t.

(** The request callbacks added: topic and bound method. *)
Definition callbacks (t : list effect) : list (string * callable) :=
  omap (fun e => match e with AddRequestCallback tp m => Some (tp, m) | _ => None end) t.

(** The service objects created and the services registered. *)
Definition services_created (t : list effect) : list string :=
  omap (fun e => match e with NewService ty => Some ty | _ => None end) t.
Definition services_registered (t : list effect) : nat :=
  List.length (List.filter (fun e => match e with RegisterService => true | _ => false end) t).

(** The names reported as invalid. *)
Definition rejected_names (t : list effect) : list string :=
  omap (fun e => match e with
                 | Log WARNING "MISP API name is invalid: %s" [n] => Some n
                 | _ => None
                 end) t.

(** The two lines every request logs first. *)
Definition request_logs (request : Request) : list effect :=
  [ Log INFO "Request received on topic '%s'" [destination_topic request];
    Log DEBUG "Payload for topic %s: %s"
      [destination_topic request; default "None" (payload request)] ].

(** The raw notifications received and the bus events sent. *)
Definition receipts (t : list effect) : list string :=
  omap (fun e => match e with RecvString m => Some m | _ => None end) t.
Definition events_sent (t : list effect) : list (string * string) :=
  omap (fun e => match e with SendEvent tp p => Some (tp, p) | _ => None end) t.

(** "exists as an attribute on the remote-API client object and is invocable" *)
Definition invocable (self : MispService) (name : string) : bool :=
  match _api_client self !! name with
  | Some (Callable _) => true
  | _ => false
  end.

Definition no_space (s : string) : Prop :=
  forall_chars (fun c => negb (Ascii.eqb c " ")) s = true.

(** "split into topic and payload at the first space character": [topic] is
    the text before the first space and [rest] the text after it; a message
    without a space is all topic. *)
Definition split_at_first_space (message topic rest : string) : Prop :=
  no_space topic /\
  (message = topic +:+ " " +:+ rest
   \/ (message = topic /\ rest = EmptyString)).

(** The world of [n] notifications arriving one per iteration: the flag is
    not set, the socket is readable, each call returns. *)
Definition delivering (messages : list string) : list iteration :=
  map (fun m => {| destroyed_read := false;
                   polled := PollReturns (Some POLLIN);
                   received := inr m;
                   sent := None |}) messages.

(** The topic of a notification event in the words of the claim: "the
    notification base topic, followed by "/<service-unique-id>" when an
    instance identifier is configured, followed by "/<original-topic>"". *)
Definition event_topic_as_specified (uid : option string) (topic : string) : string :=
  match uid with
  | None | Some EmptyString =>
      "/opendxl-misp/service/zeromq-notifications/" +:+ topic
  | Some id =>
      "/opendxl-misp/service/zeromq-notifications/" +:+ id +:+ "/" +:+ topic
  end.

(** The topic of a request callback in the words of the claim:
    "<service-type>[/<instance-id>]/<operation-name>". *)
Definition service_topic_as_specified (uid : option string) (name : string) : string :=
  match uid with
  | None | Some EmptyString => "/opendxl-misp/service/misp-api/" +:+ name
  | Some id => "/opendxl-misp/service/misp-api/" +:+ id +:+ "/" +:+ name
  end.

(** What every forwarded notification obeys: the event's topic is the
    specified one for the text before the first space of the message; its
    payload is the text after that space. *)
Definition forwarded_as (uid : option string) (message : string)
    (event : string * string) : Prop :=
  exists topic rest,
    split_at_first_space message topic rest
    /\ event = (event_topic_as_specified uid topic, rest).

(** "each resolved operation is registered under exactly one service topic
    of the form <service-type>[/<instance-id>]/<operation-name>", the
    operation name being the configured name that resolved. *)
Definition registered_under_configured_names_as_stated (self : MispService)
    (t : list effect) : Prop :=
  map fst (callbacks t)
  = map (service_topic_as_specified (_service_unique_id self))
      (List.filter (invocable self) (_api_names self)).

(** "only explicit destruction (the destroyed flag being set) makes the
    loop exit" *)
Definition exits_only_by_destruction_as_stated (outcome : list iteration -> loop_end)
    : Prop :=
  forall world, outcome world <> AtLoopTest ->
    exists it, In it world /\ destroyed_read it = true.

(** "if the invocation returns normally, exactly one response carrying the
    serialized result is sent" *)
Definition response_on_return_as_stated (api_method : callable)
    (request_dict : gmap string pyval) (t : list effect) : Prop :=
  forall v, call api_method request_dict = inr v -> exists p, responses t = [p].

(** An iteration whose [poll] raises [ZMQError], one whose [poll] reports
    nothing to read. *)
Definition poll_fails (it : iteration) : Prop :=
  destroyed_read it = false /\ polled it = PollRaises ZMQError.
Definition nothing_to_read (it : iteration) : iteration :=
  {| destroyed_read := false; polled := PollReturns None;
     received := received it; sent := sent it |}.

(** Stand-ins for the converters and the file system, for the examples: the
    booleans [true] and [false], plain decimal integers, no floats, and a
    disk without files. *)
Module Sample.
Definition getboolean (s : string) : string + bool :=
  if String.eqb s "true" then inr true
  else if String.eqb s "false" then inr false
  else inl ("Not a boolean: " +:+ s).
Definition getint (s : string) : string + Z :=
  match Py.int s with
  | inr z => inr z
  | inl _ => inl ("invalid literal for int() with base 10: '" +:+ s +:+ "'")
  end.
Definition getfloat (s : string) : string + spec_float :=
  inl ("could not convert string to float: '" +:+ s +:+ "'").
Definition _get_path (p : string) : string := p.
Definition isfile (p : string) : bool := false.
(** A decoder that knows no JSON, a serializer that knows [null]. *)
Definition json_payload_to_dict (bytes : string) : result pyval :=
  raise (ValueError "No JSON object could be decoded").
Definition dict_to_json_payload (v : pyval) : result string :=
  match v with
  | PNone => ret "null"
  | v => raise (TypeError (type_name v +:+ " is not JSON serializable"))
  end.
(** U+00B2, SUPERSCRIPT TWO *)
Definition superscript_two : string := String (ascii_of_nat 178) EmptyString.
(** The bytes of the JSON object whose one field, [event], is that text
    (UTF-8: C2 B2 between the quotes). *)
Definition quote : string := String (ascii_of_nat 34) EmptyString.
Definition superscript_event_payload : string :=
  "{" +:+ quote +:+ "event" +:+ quote +:+ ": " +:+ quote
  +:+ String (ascii_of_nat 194) (String (ascii_of_nat 178) EmptyString)
  +:+ quote +:+ "}".
End Sample.

(** ** Configuration load: [MispService.on_load_configuration] *)

Definition _GENERAL_HOST_CONFIG_PROP : string := "host".
Definition _GENERAL_API_PORT_CONFIG_PROP : string := "apiPort".
Definition _GENERAL_API_KEY_CONFIG_PROP : string := "apiKey".
Definition _GENERAL_API_NAMES_CONFIG_PROP : string := "apiNames".
Definition _GENERAL_CLIENT_CERTIFICATE_CONFIG_PROP : string := "clientCertificate".
Definition _GENERAL_CLIENT_KEY_CONFIG_PROP : string := "clientKey".
Definition _GENERAL_VERIFY_CERTIFICATE_CONFIG_PROP : string := "verifyCertificate".
Definition _GENERAL_VERIFY_CERT_BUNDLE_CONFIG_PROP : string := "verifyCertBundle".
Definition _GENERAL_ZEROMQ_PORT_CONFIG_PROP : string := "zeroMqPort".
Definition _GENERAL_ZEROMQ_NOTIFICATION_TOPICS_CONFIG_PROP : string :=
  "zeroMqNotificationTopics".
Definition _DEFAULT_API_PORT : Z := 443.
Definition _DEFAULT_ZEROMQ_PORT : Z := 50000.

(** The [cert] argument of the client constructor: [None], the certificate
    path, or the pair of certificate and key paths. *)
Inductive cert_arg :=
  | CertNone
  | CertFile (client_certificate : pyval)
  | CertPair (client_certificate client_key : pyval).

(** The calls that leave the class while the configuration is loaded. *)
Inductive setup_effect :=
  (** [logger.<level>(fmt, args...)] *)
  | SetupLog (lvl : level) (fmt : string) (args : list string)
  (** [PyMISP(api_url, api_key, ssl=verify_certificate, cert=cert)] *)
  | NewPyMISP (api_url : string) (api_key : pyval) (ssl : pyval) (cert : cert_arg)
  (** [zmq.Context().socket(zmq.SUB)] *)
  | ZmqSocket
  (** [self._zeromq_socket.connect(socket_url)] *)
  | ZmqConnect (socket_url : string)
  (** [self._zeromq_socket.subscribe(topic)] *)
  | ZmqSubscribe (topic : string)
  (** [self._zeromq_poller.register(self._zeromq_socket, zmq.POLLIN)] *)
  | PollerRegister
  (** [self._zeromq_thread.start()] *)
  | ThreadStart.

(** What ["{}".format(v)] and ["%s" % v] write for the values this program
    formats, text and integers ([None] and the booleans are as easy); no
    float, list, dict or object is ever formatted, and they are given the
    empty text. *)
Definition format_arg (v : pyval) : string :=
  match v with
  | PNone => "None"
  | PBool true => "True"
  | PBool false => "False"
  | PInt z => pretty z
  | PStr s => s
  | _ => EmptyString
  end.

(** The texts of a list value. *)
Definition texts_of (v : pyval) : list string :=
  match v with
  | PList l => omap (fun x => match x with PStr s => Some s | _ => None end) l
  | _ => []
  end.

(** The fields [on_load_configuration] leaves on the object. *)
Record loaded := {
  service : MispService;
  (** whether [self._api_client] was built *)
  api_client_built : bool;
  _zeromq_notification_topics : list string;
  listener : relay
}.

(** Effects so far, then an exception or a value. *)
Definition setup (A : Type) : Type := list setup_effect * result A.

Definition setup_tell (e : setup_effect) : setup unit := ([e], inr tt).
Definition setup_tells (es : list setup_effect) : setup unit := (es, inr tt).
Definition setup_lift {A} (r : result A) : setup A := ([], r).
Definition setup_bind {A B} (m : setup A) (k : A -> setup B) : setup B :=
  match m with
  | (t, inl e) => (t, inl e)
  | (t, inr a) => let '(t', r) := k a in (t ++ t', r)
  end.

Notation "'set!' x ':=' m 'in' k" := (setup_bind m (fun x => k))
  (at level 10, x name, m at level 100, k at level 200).

(** [MispService._start_zeromq_listener]; the ZeroMQ and thread calls are
    taken to return. *)
Definition _start_zeromq_listener (topics : list string) (host port : pyval)
    : list setup_effect :=
  let socket_url := "tcp://" +:+ format_arg host +:+ ":" +:+ format_arg port in
  [ ZmqSocket;
    SetupLog INFO "Connecting to zeromq URL: %s" [socket_url];
    ZmqConnect socket_url ]
  ++ flat_map (fun topic =>
                 [ SetupLog DEBUG "Subscribing to zeromq topic: %s" [topic];
                   ZmqSubscribe topic ]) topics
  ++ [ SetupLog INFO "Waiting for zeromq notifications: %s" topics;
       PollerRegister;
       ThreadStart ].

(** The states of a setting of the [General] section read as text: absent or
    blank, or holding a text that is not blank. *)
Definition blank (config : config_parser) (setting : string) : Prop :=
  match config !! (_GENERAL_CONFIG_SECTION, setting) with
  | None => True
  | Some raw => strip raw = EmptyString
  end.
Definition holds_text (config : config_parser) (setting text : string) : Prop :=
  exists raw, config !! (_GENERAL_CONFIG_SECTION, setting) = Some raw
              /\ text = strip raw /\ text <> EmptyString.

(** The items of a list setting of the [General] section; none when it is
    absent. *)
Definition items_of (config : config_parser) (setting : string) : list string :=
  match config !! (_GENERAL_CONFIG_SECTION, setting) with
  | Some raw => map strip (split "," raw)
  | None => []
  end.

(** The value of an integer setting of the [General] section with default
    [d]: the default when absent, else what the conversion yields. *)
Definition int_setting (getint : string -> string + Z) (config : config_parser)
    (setting : string) (d z : Z) : Prop :=
  match config !! (_GENERAL_CONFIG_SECTION, setting) with
  | None => z = d
  | Some raw => getint raw = inr z
  end.

Section LoadConfiguration.

Variable getboolean : string -> string + bool.
Variable getint : string -> string + Z.
Variable getfloat : string -> string + spec_float.
Variable _get_path : string -> string.
Variable isfile : string -> bool.
(** The client constructor: the attributes of the object built, or the
    exception it raises. *)
Variable PyMISP : string -> pyval -> pyval -> cert_arg -> result (gmap string attr).

(** [self._get_setting_from_config(self._GENERAL_CONFIG_SECTION, ...)] *)
Definition general (config : config_parser) (setting : string)
    (default_value : pyval) (rt : return_type)
    (raise_exception_if_missing is_file_path : bool) : result pyval :=
  _get_setting_from_config getboolean getint getfloat _get_path isfile
    config _GENERAL_CONFIG_SECTION setting default_value rt
    raise_exception_if_missing is_file_path.

(** [verify_certificate] as passed to the constructor: the boolean, or the
    bundle path that replaces a true one. *)
Definition verify_argument (config : config_parser) : result pyval :=
  let! verify_certificate :=
    general config _GENERAL_VERIFY_CERTIFICATE_CONFIG_PROP (PBool true) Rbool false false in
  if truthy verify_certificate then
    let! verify_cert_bundle :=
      general config _GENERAL_VERIFY_CERT_BUNDLE_CONFIG_PROP PNone Rstr false true in
    if truthy verify_cert_bundle then ret verify_cert_bundle
    else ret verify_certificate
  else ret verify_certificate.

(** [cert] as passed to the constructor. *)
Definition cert_argument (config : config_parser) : result cert_arg :=
  let! client_certificate :=
    general config _GENERAL_CLIENT_CERTIFICATE_CONFIG_PROP PNone Rstr false true in
  let! client_key :=
    general config _GENERAL_CLIENT_KEY_CONFIG_PROP PNone Rstr false true in
  ret (if truthy client_certificate then
         if truthy client_key then CertPair client_certificate client_key
         else CertFile client_certificate
       else CertNone).

(** The block under [if self._api_names:]. *)
Definition build_api_client (config : config_parser) (host api_port : pyval)
    : setup (gmap string attr) :=
  set! api_key :=
    setup_lift (general config _GENERAL_API_KEY_CONFIG_PROP PNone Rstr true false) in
  let api_url := "https://" +:+ format_arg host +:+ ":" +:+ format_arg api_port in
  set! verify_certificate := setup_lift (verify_argument config) in
  set! cert := setup_lift (cert_argument config) in
  set! _ := setup_tell (SetupLog INFO "Connecting to API URL: %s" [api_url]) in
  set! _ := setup_tell (NewPyMISP api_url api_key verify_certificate cert) in
  setup_lift (PyMISP api_url api_key verify_certificate cert).

Definition on_load_configuration (config : config_parser) : setup loaded :=
  set! _ := setup_tell (SetupLog INFO "On 'load configuration' callback." []) in
  set! service_unique_id :=
    setup_lift (load_service_unique_id getboolean getint getfloat _get_path isfile config) in
  set! host :=
    setup_lift (general config _GENERAL_HOST_CONFIG_PROP PNone Rstr true false) in
  set! api_port :=
    setup_lift (general config _GENERAL_API_PORT_CONFIG_PROP
                  (PInt _DEFAULT_API_PORT) Rint false false) in
  set! api_names :=
    setup_lift (general config _GENERAL_API_NAMES_CONFIG_PROP (PList []) Rlist false false) in
  set! api_client :=
    (if truthy api_names
     then (set! c := build_api_client config host api_port in setup_lift (ret (Some c)))
     else setup_lift (ret None)) in
  set! zeromq_notification_topics :=
    setup_lift (general config _GENERAL_ZEROMQ_NOTIFICATION_TOPICS_CONFIG_PROP
                  (PList []) Rlist false false) in
  set! started :=
    (if truthy zeromq_notification_topics then
       set! zeromq_port :=
         setup_lift (general config _GENERAL_ZEROMQ_PORT_CONFIG_PROP
                       (PInt _DEFAULT_ZEROMQ_PORT) Rint false false) in
       set! _ := setup_tells (_start_zeromq_listener
                                (texts_of zeromq_notification_topics) host zeromq_port) in
       setup_lift (ret true)
     else setup_lift (ret false)) in
  setup_lift (ret
    {| service := {| _service_unique_id := service_unique_id;
                     _api_client := default ∅ api_client;
                     _api_names := texts_of api_names |};
       api_client_built := bool_decide (is_Some api_client);
       _zeromq_notification_topics := texts_of zeromq_notification_topics;
       listener := {| __destroyed := false;
                      _zeromq_socket := started;
                      _zeromq_thread := started |} |}).

(** The block under [if self._api_names:], by the items of the setting. *)
Definition client_block (config : config_parser) (host api_port : pyval)
    : setup (option (gmap string attr)) :=
  match items_of config _GENERAL_API_NAMES_CONFIG_PROP with
  | [] => ([], inr None)
  | _ =>
      match build_api_client config host api_port with
      | (t, inl e) => (t, inl e)
      | (t, inr c) => (t, inr (Some c))
      end
  end.

(** The block under [if self._zeromq_notification_topics:], likewise. *)
Definition start_block (config : config_parser) (host : pyval) : setup bool :=
  match items_of config _GENERAL_ZEROMQ_NOTIFICATION_TOPICS_CONFIG_PROP with
  | [] => ([], inr false)
  | topics =>
      match general config _GENERAL_ZEROMQ_PORT_CONFIG_PROP (PInt _DEFAULT_ZEROMQ_PORT)
              Rint false false with
      | inl e => ([], inl e)
      | inr zeromq_port => (_start_zeromq_listener topics host zeromq_port, inr true)
      end
  end.

End LoadConfiguration.

(** The effects of loading, read back. *)
Definition clients_built (t : list setup_effect)
    : list (string * pyval * pyval * cert_arg) :=
  omap (fun e => match e with
                 | NewPyMISP u k s c => Some (u, k, s, c)
                 | _ => None
                 end) t.
Definition connections (t : list setup_effect) : list string :=
  omap (fun e => match e with ZmqConnect u => Some u | _ => None end) t.
Definition subscriptions (t : list setup_effect) : list string :=
  omap (fun e => match e with ZmqSubscribe tp => Some tp | _ => None end) t.
Definition threads_started (t : list setup_effect) : nat :=
  List.length (List.filter (fun e => match e with ThreadStart => true | _ => false end) t).

(** The number of occurrences of a character in a text. *)
Fixpoint count_char (c : ascii) (s : string) : nat :=
  match s with
  | EmptyString => 0
  | String d s' => (if Ascii.eqb d c then 1 else 0) + count_char c s'
  end.

(** A text with no white space at either end. *)
Definition trimmed (s : string) : Prop := strip s = s.

(** A deployment for the examples: a disk with a CA bundle and a client
    certificate, a client object with two operations and one data attribute,
    and the configurations of a full service, of a relay alone, of a service
    without host and of one whose [apiNames] is blank. *)
Module Deployment.
Definition isfile (p : string) : bool :=
  String.eqb p "/etc/misp/ca.pem" || String.eqb p "/etc/misp/client.pem".
Definition search : callable :=
  {| __name__ := "search"; call := fun kwargs => ret (PDict kwargs) |}.
Definition get_version : callable :=
  {| __name__ := "get_version"; call := fun _ => ret (PStr "2.4.90") |}.
Definition PyMISP (api_url : string) (api_key ssl : pyval) (cert : cert_arg)
    : result (gmap string attr) :=
  ret {[ "search" := Callable search;
         "get_version" := Callable get_version;
         "root_url" := Data (PStr api_url) ]}.
Definition full : config_parser :=
  list_to_map
    [ (("General", "serviceUniqueId"), "site1");
      (("General", "host"), " misp.local ");
      (("General", "apiNames"), "search, get_version");
      (("General", "apiKey"), "0123abcd");
      (("General", "apiPort"), "8443");
      (("General", "verifyCertBundle"), "/etc/misp/ca.pem");
      (("General", "clientCertificate"), "/etc/misp/client.pem");
      (("General", "zeroMqNotificationTopics"), "misp_json, misp_json_event") ].
Definition relay_only : config_parser :=
  list_to_map
    [ (("General", "host"), "misp.local");
      (("General", "zeroMqNotificationTopics"), "misp_json") ].
Definition no_host : config_parser :=
  list_to_map
    [ (("General", "host"), "  ");
      (("General", "apiNames"), "search");
      (("General", "apiKey"), "0123abcd") ].
Definition blank_names : config_parser :=
  list_to_map
    [ (("General", "host"), "misp.local");
      (("General", "apiNames"), " ");
      (("General", "apiKey"), "0123abcd") ].
Definition load (config : config_parser) : setup loaded :=
  on_load_configuration Sample.getboolean Sample.getint Sample.getfloat
    Sample._get_path isfile PyMISP config.
(** The fields as [__init__] leaves them. *)
Definition unloaded : loaded :=
  {| service := {| _service_unique_id := None; _api_client := ∅; _api_names := [] |};
     api_client_built := false;
     _zeromq_notification_topics := [];
     listener := {| __destroyed := false; _zeromq_socket := false;
                    _zeromq_thread := false |} |}.
(** The fields after a load that returns. *)
Definition state (config : config_parser) : loaded :=
  match (load config).2 with
  | inr st => st
  | inl _ => unloaded
  end.
(** Two callers of [destroy] and the listener, interleaved: the listener
    is in [poll] when the callers arrive, and its poll returns while the
    first caller waits in [join]. *)
Definition race : list Shutdown.action :=
  [ Shutdown.Listener Shutdown.LoopTest;
    Shutdown.Caller 0; Shutdown.Caller 1; Shutdown.Caller 0; Shutdown.Caller 1;
    Shutdown.Caller 0; Shutdown.Caller 0; Shutdown.Caller 0; Shutdown.Caller 0;
    Shutdown.Listener Shutdown.BodyReturns; Shutdown.Listener Shutdown.LoopTest;
    Shutdown.Caller 1; Shutdown.Caller 0;
    Shutdown.Caller 0; Shutdown.Caller 1; Shutdown.Caller 1; Shutdown.Caller 1 ].
End Deployment.

(** The thread that holds the lock is a caller inside the [with] block. *)
Definition owner_inside (s : Shutdown.system) : Prop :=
  forall i, Shutdown.lock s = Some i ->
    exists p, Shutdown.pcs s !! i = Some p /\ Shutdown.holds_lock p = true.




(** Every caller has returned. *)
Definition all_returned (s : Shutdown.system) : Prop :=
  forall i p, Shutdown.pcs s !! i = Some p -> p = Shutdown.Done.



(** What caller [i] has done so far, in order. *)
Definition effects_of (i : nat) (h : list Shutdown.event) : list effect :=
  omap (fun ev => match ev with
                  | Shutdown.Calls j e => if (j =? i)%nat then Some e else None
                  | _ => None
                  end) h.

(** The two blocks of [destroy] under the flag test. *)
Definition socket_part (has_socket : bool) : list effect :=
  if has_socket then [Log DEBUG "Closing zeromq socket ..." []; SocketClose] else [].
Definition thread_part (has_thread : bool) : list effect :=
  if has_thread
  then [Log DEBUG "Waiting for zeromq message thread to terminate ..." [];
        ThreadJoin;
        Log DEBUG "Zeromq message thread terminated" []]
  else [].

(** What a caller standing at [p] has done. *)
Definition done_at (has_socket has_thread : bool) (p : Shutdown.pc)
    (effects : list effect) : Prop :=
  match p with
  | Shutdown.Start => effects = []
  | Shutdown.WaitLock | Shutdown.TestFlag | Shutdown.SetFlag | Shutdown.CloseSock =>
      effects = [SuperDestroy]
  | Shutdown.JoinThr => effects = SuperDestroy :: socket_part has_socket
  | Shutdown.Release | Shutdown.Done =>
      effects = [SuperDestroy]
      \/ effects = SuperDestroy :: socket_part has_socket ++ thread_part has_thread
  end.

Definition once (b : bool) : nat := if b then 1 else 0.

(** What holds of the counts in every reachable state. *)
Record teardown_invariant (has_socket has_thread : bool) (s : Shutdown.system) : Prop := {
  inv_socket : _zeromq_socket (Shutdown.self s) = has_socket;
  inv_thread : _zeromq_thread (Shutdown.self s) = has_thread;
  inv_effects : forall i p, Shutdown.pcs s !! i = Some p ->
                done_at has_socket has_thread p (effects_of i (Shutdown.history s));
  inv_settled : __destroyed (Shutdown.self s) = true ->
                (exists i p, Shutdown.pcs s !! i = Some p /\ Shutdown.flagged p = true)
                \/ (Shutdown.count Shutdown.is_close (Shutdown.history s) = once has_socket
                    /\ Shutdown.count Shutdown.is_join (Shutdown.history s) = once has_thread);
  inv_closed : forall i, Shutdown.pcs s !! i = Some Shutdown.JoinThr ->
               Shutdown.count Shutdown.is_close (Shutdown.history s) = once has_socket;
  inv_finished : forall i p, Shutdown.pcs s !! i = Some p ->
                 p = Shutdown.Release \/ p = Shutdown.Done ->
                 __destroyed (Shutdown.self s) = true
                 /\ Shutdown.count Shutdown.is_close (Shutdown.history s) = once has_socket
                 /\ Shutdown.count Shutdown.is_join (Shutdown.history s) = once has_thread
}.

(** * Properties *)

(** ** Text *)

Lemma lstrip_empty s : lstrip s = EmptyString <-> forall_chars isspace s = true.
Proof.
  induction s as [|c s IH]; simpl; [tauto|].
  destruct (isspace c); simpl; [exact IH|].
  split; discriminate.
Qed.

Lemma lstrip_head s c s' : lstrip s = String c s' -> isspace c = false.
Proof.
  induction s as [|d s IH]; simpl; [discriminate|].
  destruct (isspace d) eqn:Hd; [exact IH|].
  intros [= -> _]. exact Hd.
Qed.

Lemma rstrip_keeps_head c s : isspace c = false -> rstrip (String c s) <> EmptyString.
Proof.
  intros Hc. simpl. rewrite Hc. destruct (rstrip s); discriminate.
Qed.

Lemma strip_empty s : strip s = EmptyString <-> forall_chars isspace s = true.
Proof.
  unfold strip. rewrite <- lstrip_empty.
  destruct (lstrip s) as [|c s'] eqn:E; [tauto|].
  split; [|discriminate].
  intros H. exfalso. eapply rstrip_keeps_head; [|exact H].
  eapply lstrip_head. exact E.
Qed.

Lemma split_not_nil sep s : split sep s <> [].
Proof.
  destruct s as [|c s]; simpl; [discriminate|].
  destruct (Ascii.eqb c sep); [discriminate|].
  destruct (split sep s); discriminate.
Qed.

Lemma split_without_sep sep s :
  forall_chars (fun c => negb (Ascii.eqb c sep)) s = true -> split sep s = [s].
Proof.
  induction s as [|c s IH]; simpl; [reflexivity|].
  intros [Hc Hs]%andb_prop. apply negb_true_iff in Hc. rewrite Hc.
  rewrite (IH Hs). reflexivity.
Qed.

Lemma split_single sep s :
  List.length (split sep s) = 1%nat ->
  forall_chars (fun c => negb (Ascii.eqb c sep)) s = true.
Proof.
  induction s as [|c s IH]; simpl; [reflexivity|].
  destruct (Ascii.eqb c sep) eqn:Hc; simpl.
  - pose proof (split_not_nil sep s). destruct (split sep s); [congruence|discriminate].
  - intros H. apply IH. pose proof (split_not_nil sep s).
    destruct (split sep s); [congruence|exact H].
Qed.

Lemma space_is_not_comma c : isspace c = true -> Ascii.eqb c "," = false.
Proof.
  destruct c as [[] [] [] [] [] [] [] []]; vm_compute; congruence.
Qed.

Lemma blank_has_no_comma s :
  forall_chars isspace s = true ->
  forall_chars (fun c => negb (Ascii.eqb c ",")) s = true.
Proof.
  induction s as [|c s IH]; simpl; [reflexivity|].
  intros [Hc Hs]%andb_prop. rewrite (space_is_not_comma c Hc). simpl. auto.
Qed.

Lemma string_length_zero s : (String.length s =? 0)%nat = true <-> s = EmptyString.
Proof. destruct s; simpl; split; congruence. Qed.

(** The test the code makes on a list setting is the specification's
    "empty after trimming". *)
Lemma list_blank_test raw :
  let return_value := map strip (split "," raw) in
  (List.length return_value =? 1)%nat
  && (String.length (hd EmptyString return_value) =? 0)%nat = true
  <-> strip raw = EmptyString.
Proof.
  simpl. rewrite andb_true_iff, Nat.eqb_eq, length_map, string_length_zero. split.
  - intros [H1 H2]. rewrite (split_without_sep _ _ (split_single _ _ H1)) in H2.
    exact H2.
  - intros H. pose proof H as Hb. apply strip_empty, blank_has_no_comma in Hb.
    rewrite (split_without_sep _ _ Hb). simpl. auto.
Qed.

(** ** Setting resolver *)

Section SettingResolverFacts.

Variable getboolean : string -> string + bool.
Variable getint : string -> string + Z.
Variable getfloat : string -> string + spec_float.
Variable _get_path : string -> string.
Variable isfile : string -> bool.

Local Abbreviation resolve :=
  (_get_setting_from_config getboolean getint getfloat _get_path isfile).
Lemma truthy_text p : truthy (PStr p) = true <-> p <> EmptyString.
Proof. simpl. destruct p; simpl; split; congruence. Qed.

(** A missing setting that is not required, with the file-path flag off,
    comes back as the declared default. *)
Lemma missing_setting_default config section setting default_value rt :
  config !! (section, setting) = None ->
  resolve config section setting default_value rt false false = inr default_value.
Proof.
  intros H. unfold _get_setting_from_config. rewrite H. reflexivity.
Qed.

(** The service unique id read from the configuration: [None] when the
    setting is absent, its trimmed text when present. *)
Lemma load_service_unique_id_value config :
  load_service_unique_id getboolean getint getfloat _get_path isfile config
  = inr (strip <$> config !! (_GENERAL_CONFIG_SECTION, _GENERAL_SERVICE_UNIQUE_ID_PROP)).
Proof.
  unfold load_service_unique_id, _get_setting_from_config.
  destruct (config !! (_GENERAL_CONFIG_SECTION, _GENERAL_SERVICE_UNIQUE_ID_PROP));
    simpl; [|reflexivity].
  rewrite andb_false_r. reflexivity.
Qed.

End SettingResolverFacts.

(** ** The resolver over any parser *)

Lemma rewrapped_cases {A} section setting (r : result A) :
  (exists ex, r = inl (ValueError ex)
              /\ Resolver.rewrapped section setting r
                 = inl (unexpected_value setting section ex))
  \/ (exists e, r = inl e /\ (forall ex, e <> ValueError ex)
                /\ Resolver.rewrapped section setting r = inl e)
  \/ (exists a, r = inr a /\ Resolver.rewrapped section setting r = inr a).
Proof.
  destruct r as [[ex|msg| |cls msg]|a]; simpl.
  - left. eauto.
  - right. left. eexists. split; [reflexivity|]. split; [discriminate|reflexivity].
  - right. left. eexists. split; [reflexivity|]. split; [discriminate|reflexivity].
  - right. left. eexists. split; [reflexivity|]. split; [discriminate|reflexivity].
  - right. right. eauto.
Qed.

Section ResolverFacts.

Variable config : Resolver.parser.
Variable _get_path : string -> string.
Variable isfile : string -> bool.
Variable check_other_path : pyval -> result pyval.

Local Abbreviation resolve :=
  (Resolver._get_setting_from_config config _get_path isfile check_other_path).
Local Abbreviation rejected := (Resolver.setting_rejected config).
Local Abbreviation got := (Resolver.obtained config).
Local Abbreviation parsed := (Resolver.parsed_as config).
Local Abbreviation unparsable := (Resolver.cannot_parse config).
Local Abbreviation raises := (Resolver.getter_raises config).
Local Abbreviation empty := (Resolver.empty_after_trimming config).
Local Abbreviation checked :=
  (Resolver.check_file_path _get_path isfile check_other_path).

Lemma parser_parsed_unique rt section setting v v' :
  parsed rt section setting v -> parsed rt section setting v' -> v = v'.
Proof.
  destruct rt; simpl; intros (x & Hx & ->) (y & Hy & ->); congruence.
Qed.

Lemma parser_obtained_unique section setting default_value rt v v' :
  got section setting default_value rt v ->
  got section setting default_value rt v' -> v = v'.
Proof.
  unfold Resolver.obtained. destruct (Resolver.has_option config section setting).
  - apply parser_parsed_unique.
  - congruence.
Qed.

(** A present setting: it is refused for one of the two causes, the parser
    itself fails, or the setting parses to the value handed on. *)
Lemma parser_read_option_cases section setting rt required :
  let r := Resolver.read_option config section setting rt required in
  ((unparsable rt section setting \/ (required = true /\ empty rt section setting))
   /\ config_error r)
  \/ (~ (unparsable rt section setting \/ (required = true /\ empty rt section setting))
      /\ exists e, raises rt section setting e /\ (forall ex, e <> ValueError ex)
                   /\ r = inl e)
  \/ (~ (unparsable rt section setting \/ (required = true /\ empty rt section setting))
      /\ (forall e, ~ raises rt section setting e)
      /\ exists v, parsed rt section setting v /\ r = inr v).
Proof.
  unfold Resolver.empty_after_trimming, Resolver.cannot_parse, config_error.
  destruct rt; simpl.
  - destruct (rewrapped_cases section setting (Resolver.get config section setting))
      as [(ex & E & ->)|[(e & E & Hne & ->)|(text & E & ->)]]; simpl.
    + left. split; [left; eauto|]. eexists. reflexivity.
    + right. left. split; [|eauto].
      intros [[ex H]|[_ [_ (t & H & _)]]]; [|congruence].
      rewrite E in H. injection H as ->. eapply Hne. reflexivity.
    + destruct (String.length (strip text) =? 0)%nat eqn:L; simpl.
      * apply string_length_zero in L. destruct required; simpl.
        -- left. split; [right; eauto 10|]. eexists. reflexivity.
        -- right. right. split; [intros [[ex H]|[? _]]; congruence|].
           split; [intros e; congruence|]. eexists. split; [eauto|reflexivity].
      * right. right. split.
        -- intros [[ex H]|[_ [_ (t & H & Ht)]]]; [congruence|].
           rewrite E in H. injection H as <-. apply string_length_zero in Ht. congruence.
        -- split; [intros e; congruence|]. eexists. split; [eauto|reflexivity].
  - destruct (rewrapped_cases section setting (Resolver.get config section setting))
      as [(ex & E & ->)|[(e & E & Hne & ->)|(text & E & ->)]]; simpl.
    + left. split; [left; eauto|]. eexists. reflexivity.
    + right. left. split; [|eauto].
      intros [[ex H]|[_ [_ (t & H & _)]]]; [|congruence].
      rewrite E in H. injection H as ->. eapply Hne. reflexivity.
    + pose proof (list_blank_test text) as T. simpl in T.
      destruct ((List.length (map strip (split "," text)) =? 1)%nat
                && (String.length (hd EmptyString (map strip (split "," text))) =? 0)%nat)
        eqn:L; simpl.
      * destruct required; simpl.
        -- left. split; [right; split; [reflexivity|]; split; [auto|]; exists text; tauto|].
           eexists. reflexivity.
        -- right. right. split; [intros [[ex H]|[? _]]; congruence|].
           split; [intros e; congruence|]. eexists. split; [eauto|reflexivity].
      * right. right. split.
        -- intros [[ex H]|[_ [_ (t & H & Ht)]]]; [congruence|].
           rewrite E in H. injection H as <-. apply T in Ht. discriminate.
        -- split; [intros e; congruence|]. eexists. split; [eauto|reflexivity].
  - destruct (rewrapped_cases section setting (Resolver.getboolean config section setting))
      as [(ex & E & ->)|[(e & E & Hne & ->)|(b & E & ->)]]; simpl.
    + left. split; [left; eauto|]. eexists. reflexivity.
    + right. left. split; [|eauto].
      intros [[ex H]|[_ [[H|H] _]]]; try discriminate.
      rewrite E in H. injection H as ->. eapply Hne. reflexivity.
    + right. right. split; [intros [[ex H]|[_ [[H|H] _]]]; congruence|].
      split; [intros e; congruence|]. eexists. split; [eauto|reflexivity].
  - destruct (rewrapped_cases section setting (Resolver.getint config section setting))
      as [(ex & E & ->)|[(e & E & Hne & ->)|(b & E & ->)]]; simpl.
    + left. split; [left; eauto|]. eexists. reflexivity.
    + right. left. split; [|eauto].
      intros [[ex H]|[_ [[H|H] _]]]; try discriminate.
      rewrite E in H. injection H as ->. eapply Hne. reflexivity.
    + right. right. split; [intros [[ex H]|[_ [[H|H] _]]]; congruence|].
      split; [intros e; congruence|]. eexists. split; [eauto|reflexivity].
  - destruct (rewrapped_cases section setting (Resolver.getfloat config section setting))
      as [(ex & E & ->)|[(e & E & Hne & ->)|(b & E & ->)]]; simpl.
    + left. split; [left; eauto|]. eexists. reflexivity.
    + right. left. split; [|eauto].
      intros [[ex H]|[_ [[H|H] _]]]; try discriminate.
      rewrite E in H. injection H as ->. eapply Hne. reflexivity.
    + right. right. split; [intros [[ex H]|[_ [[H|H] _]]]; congruence|].
      split; [intros e; congruence|]. eexists. split; [eauto|reflexivity].
Qed.

(** The resolver refuses the setting, or the parser fails, or the value
    obtained goes to the file check. *)
Lemma parser_resolver_cases section setting default_value rt required is_file_path :
  let r := resolve section setting default_value rt required is_file_path in
  (rejected section setting rt required /\ config_error r)
  \/ (~ rejected section setting rt required
      /\ exists e, Resolver.parser_raises config rt section setting e /\ r = inl e)
  \/ (~ rejected section setting rt required
      /\ (forall e, ~ Resolver.parser_raises config rt section setting e)
      /\ exists v, got section setting default_value rt v
                   /\ r = checked section setting is_file_path v).
Proof.
  unfold Resolver._get_setting_from_config, Resolver.setting_rejected,
    Resolver.obtained, Resolver.parser_raises.
  destruct (Resolver.has_option config section setting).
  - destruct (parser_read_option_cases section setting rt required)
      as [[H [msg E]]|[[H (e & He & Hne & E)]|[H [Hno (v & Hv & E)]]]];
      simpl in E; rewrite E; simpl.
    + left. split; [exact H|]. exists msg. reflexivity.
    + right. left. split; [exact H|]. exists e. auto.
    + right. right. split; [exact H|]. split.
      * intros e (_ & He & _). exact (Hno e He).
      * exists v. auto.
  - destruct required; simpl.
    + left. split; [reflexivity|]. eexists. reflexivity.
    + right. right. split; [discriminate|]. split.
      * intros e (H & _). discriminate.
      * eauto.
Qed.

(** The file check: what it returns or raises for text and for a value
    that is false. *)
Lemma parser_check_file_path_cases section setting is_file_path v :
  let r := checked section setting is_file_path v in
  (is_file_path && truthy v = false -> r = inr v)
  /\ (forall p, is_file_path = true -> v = PStr p -> p <> EmptyString ->
      if isfile (_get_path p) then r = inr (PStr (_get_path p))
      else config_error r).
Proof.
  unfold Resolver.check_file_path, config_error. split.
  - intros ->. reflexivity.
  - intros p -> -> Hp. apply truthy_text in Hp. rewrite Hp. simpl.
    destruct (isfile (_get_path p)); simpl; eauto.
Qed.

Lemma parser_check_file_path_error section setting is_file_path v :
  (is_file_path = true -> truthy v = true -> exists p, v = PStr p) ->
  config_error (checked section setting is_file_path v) ->
  is_file_path = true /\
  exists p, v = PStr p /\ p <> EmptyString /\ isfile (_get_path p) = false.
Proof.
  unfold Resolver.check_file_path, config_error. intros Htext [msg H].
  destruct is_file_path; simpl in H; [|discriminate].
  destruct (truthy v) eqn:Hv; [|discriminate].
  destruct (Htext eq_refl eq_refl) as [p ->].
  split; [reflexivity|]. exists p. split; [reflexivity|].
  split; [apply truthy_text; exact Hv|].
  destruct (isfile (_get_path p)); [discriminate|reflexivity].
Qed.

(** C7, as amended. Where every value that reaches the file check is text
    or false, the resolver fails with a configuration error exactly when the
    setting is required and absent, the getter of the expected type raises a
    value error for it, a required text or list setting is empty after
    trimming, or the file-path flag is set, the value obtained (parsed, or
    the default of a missing setting) is a non-empty path and no file exists
    at the resolved path; each of these causes makes it fail so in any
    case. An exception of another class that the parser's getter raises for
    a present setting leaves the resolver unchanged: it is neither a
    configuration error nor a return. Otherwise the value obtained is
    returned unchanged when the flag is off or the value is empty or [None],
    and replaced by its resolved path when the flag is on and the file
    exists. *)
Theorem resolver_contract section setting default_value rt required is_file_path :
  let r := resolve section setting default_value rt required is_file_path in
  (Resolver.path_is_text config section setting default_value rt is_file_path ->
   (config_error r <->
      rejected section setting rt required
      \/ Resolver.file_missing config _get_path isfile
           section setting default_value rt is_file_path))
  /\ (rejected section setting rt required
      \/ Resolver.file_missing config _get_path isfile
           section setting default_value rt is_file_path -> config_error r)
  /\ (forall e, Resolver.parser_raises config rt section setting e ->
        r = inl e /\ ~ config_error r)
  /\ (~ rejected section setting rt required ->
      (forall e, ~ Resolver.parser_raises config rt section setting e) ->
      exists v, got section setting default_value rt v
        /\ (is_file_path && truthy v = false -> r = inr v)
        /\ (forall p, is_file_path = true -> v = PStr p -> p <> EmptyString ->
            isfile (_get_path p) = true -> r = inr (PStr (_get_path p)))).
Proof.
  intros r. subst r.
  assert (Hcause : forall v,
            got section setting default_value rt v ->
            Resolver.file_missing config _get_path isfile
              section setting default_value rt is_file_path ->
            config_error (checked section setting is_file_path v)).
  { intros v Hv [Hfp (p & Hp & Hne & Hf)].
    rewrite (parser_obtained_unique _ _ _ _ _ _ Hv Hp).
    destruct (parser_check_file_path_cases section setting is_file_path (PStr p))
      as (_ & D2).
    specialize (D2 p Hfp eq_refl Hne). rewrite Hf in D2. exact D2. }
  assert (Hsame : forall e e', raises rt section setting e ->
                                raises rt section setting e' -> e = e')
    by (destruct rt; simpl; congruence).
  assert (Hnone : forall e v, Resolver.parser_raises config rt section setting e ->
                              got section setting default_value rt v -> False).
  { intros e v (Ho & He & _). unfold Resolver.obtained. rewrite Ho.
    destruct rt; simpl in *; intros (x & Hx & _); congruence. }
  assert (Hnot : forall e, (forall ex, e <> ValueError ex) -> ~ config_error (inl e)).
  { intros e Hne [msg H]. injection H as ->. eapply Hne. reflexivity. }
  destruct (parser_resolver_cases section setting default_value rt required is_file_path)
    as [[Hrej Herr]|[[Hrej (e & He & E)]|[Hrej (Hno & v & Hv & E)]]]; simpl in *.
  - split; [tauto|]. split; [tauto|]. split; [|contradiction].
    intros e (Ho & He & Hne). exfalso.
    unfold Resolver.setting_rejected in Hrej. rewrite Ho in Hrej.
    destruct Hrej as [[ex H]|[_ [Hrt (text & Ht & _)]]].
    + apply (Hne ex). eapply Hsame; eauto.
    + destruct Hrt as [-> | ->]; simpl in He; congruence.
  - rewrite E.
    assert (Hback : rejected section setting rt required
                    \/ Resolver.file_missing config _get_path isfile
                         section setting default_value rt is_file_path ->
                    config_error (inl e)).
    { intros [H|[_ (p & Hp & _)]]; [contradiction|]. exfalso. eapply Hnone; eauto. }
    split; [|split; [exact Hback|split]].
    + intros _. split; [|exact Hback].
      intros H. exfalso. destruct He as (_ & _ & Hne). eapply Hnot; eauto.
    + intros e' (_ & He' & _). destruct He as (_ & He & Hne).
      rewrite (Hsame _ _ He' He). split; [reflexivity|]. apply Hnot, Hne.
    + intros _ Hno. exfalso. eapply Hno. exact He.
  - rewrite E.
    destruct (parser_check_file_path_cases section setting is_file_path v) as (C1 & C2).
    assert (Hback : rejected section setting rt required
                    \/ Resolver.file_missing config _get_path isfile
                         section setting default_value rt is_file_path ->
                    config_error (checked section setting is_file_path v)).
    { intros [H|H]; [contradiction|]. apply Hcause; assumption. }
    split; [|split; [exact Hback|split]].
    + intros Htext. split; [|exact Hback].
      intros Herr. right. apply parser_check_file_path_error in Herr.
      * destruct Herr as [Hfp (p & -> & Hp & Hf)].
        split; [exact Hfp|]. exists p. auto.
      * intros Hfp Htr. eapply Htext; eauto.
    + intros e He. exfalso. eapply Hno. exact He.
    + intros _ _. exists v. split; [exact Hv|]. split; [exact C1|].
      intros p Hfp -> Hne Hf. specialize (C2 p Hfp eq_refl Hne).
      rewrite Hf in C2. exact C2.
Qed.

End ResolverFacts.

(** The resolver of the sections above is this one over the parser that
    hands on every stored text. *)
Lemma resolver_over_plain_parser
    (getboolean : string -> string + bool) (getint : string -> string + Z)
    (getfloat : string -> string + spec_float)
    (_get_path : string -> string) (isfile : string -> bool)
    (config : config_parser) (section setting : string) (default_value : pyval)
    (rt : return_type) (required is_file_path : bool) :
  Resolver._get_setting_from_config
    (Resolver.plain getboolean getint getfloat config) _get_path isfile
    Resolver.refuse_other_path section setting default_value rt required is_file_path
  = _get_setting_from_config getboolean getint getfloat _get_path isfile
      config section setting default_value rt required is_file_path.
Proof.
  unfold Resolver._get_setting_from_config, _get_setting_from_config. simpl.
  assert (Hcheck : forall v,
            Resolver.check_file_path _get_path isfile Resolver.refuse_other_path
              section setting is_file_path v
            = check_file_path _get_path isfile section setting is_file_path v).
  { intros v. unfold Resolver.check_file_path, check_file_path.
    destruct (is_file_path && truthy v); [|reflexivity]. destruct v; reflexivity. }
  destruct (config !! (section, setting)) as [raw|] eqn:Hc; simpl.
  - assert (Hread : Resolver.read_option (Resolver.plain getboolean getint getfloat config)
                      section setting rt required
                    = read_option getboolean getint getfloat section setting raw rt required).
    { unfold Resolver.read_option, read_option. destruct rt; simpl; rewrite Hc; simpl.
      - destruct (_ && _); reflexivity.
      - destruct (_ && _); reflexivity.
      - destruct (getboolean raw); reflexivity.
      - destruct (getint raw); reflexivity.
      - destruct (getfloat raw); reflexivity. }
    rewrite Hread. destruct (read_option _ _ _ _ _ _ _ _); simpl; [reflexivity|apply Hcheck].
  - destruct required; simpl; [reflexivity|apply Hcheck].
Qed.

(** C7 as stated fails twice. Where a file-path setting is present and
    empty, no file exists at the path, the flag is set, and the resolver
    returns the empty text instead of failing. Where a present text has a
    stray percent sign, the parser's interpolation error leaves the resolver:
    it neither fails with a configuration error nor returns. *)
Lemma resolver_contract_as_stated_fails :
  let config := Resolver.interpolating Sample.getboolean Sample.getint Sample.getfloat
                  {[ ("General", "clientCertificate") := ""; ("General", "host") := "misp%local" ]} in
  let resolve := Resolver._get_setting_from_config config Sample._get_path Sample.isfile
                   Resolver.refuse_other_path in
  resolve "General" "clientCertificate" PNone Rstr false true = inr (PStr "")
  /\ ~ Resolver.fails_exactly_as_stated config Sample._get_path Sample.isfile
         Resolver.refuse_other_path "General" "clientCertificate" PNone Rstr false true
  /\ resolve "General" "host" PNone Rstr true false
     = inl (Raised "InterpolationSyntaxError"
              "'%' must be followed by '%' or '(', found: misp%local")
  /\ ~ Resolver.returns_otherwise_as_stated config Sample._get_path Sample.isfile
         Resolver.refuse_other_path "General" "host" PNone Rstr true false.
Proof.
  cbv zeta. split; [reflexivity|]. split; [|split; [reflexivity|]].
  - intros [_ H].
    assert (E : config_error (inr (PStr ""))).
    { apply H. right. split; [reflexivity|]. exists "".
      split; [|reflexivity]. exists "". split; reflexivity. }
    destruct E as [msg E]. discriminate.
  - intros H. destruct H as [v H].
    + intros [msg E]. discriminate.
    + discriminate.
Qed.

(** ** Topics and the service unique id *)

Lemma string_length_app (s t : string) :
  String.length (s +:+ t) = (String.length s + String.length t)%nat.
Proof. induction s as [|c s IH]; simpl; [reflexivity|]. rewrite IH. reflexivity. Qed.

Lemma unique_id_segment_unset sep uid :
  unique_id_set uid = false -> unique_id_segment sep uid = EmptyString.
Proof. destruct uid as [s|]; simpl; [|reflexivity]. intros ->. reflexivity. Qed.

Lemma unique_id_segment_set sep uid :
  unique_id_set uid = true ->
  exists s, uid = Some s /\ s <> EmptyString /\ unique_id_segment sep uid = sep +:+ s.
Proof.
  destruct uid as [s|]; simpl; [|discriminate].
  intros H. rewrite H. exists s. split; [reflexivity|]. split; [|reflexivity].
  intros ->. discriminate.
Qed.

(** A topic with the segment is never the topic without it. *)
Lemma segment_shows (base s rest : string) :
  s <> EmptyString -> base +:+ ("/" +:+ s) +:+ "/" +:+ rest <> base +:+ "/" +:+ rest.
Proof.
  intros Hs H. apply (f_equal String.length) in H.
  rewrite !string_length_app in H. simpl in H.
  destruct s; [congruence|]. simpl in H. lia.
Qed.

(** The topics the code builds are the specified ones. *)
Lemma full_event_topic_as_specified uid topic :
  full_event_topic uid topic = event_topic_as_specified uid topic.
Proof. destruct uid as [[|c id]|]; reflexivity. Qed.

Lemma service_topic_as_specified_eq uid name :
  service_topic uid name = service_topic_as_specified uid name.
Proof. destruct uid as [[|c id]|]; reflexivity. Qed.

(** C10. The unique id loaded from the configuration is [None] when the
    setting is absent and its trimmed text when present; the "/<id>" segment
    is left out of service topics and of notification topics exactly when
    that id is [None] or empty (so for an absent, an empty and a blank
    setting alike), and is present, with the trimmed id, otherwise. *)
Theorem blank_unique_id_is_absent
    (getboolean : string -> string + bool) (getint : string -> string + Z)
    (getfloat : string -> string + spec_float)
    (_get_path : string -> string) (isfile : string -> bool)
    (config : config_parser) :
  let setting := config !! (_GENERAL_CONFIG_SECTION, _GENERAL_SERVICE_UNIQUE_ID_PROP) in
  exists uid,
    load_service_unique_id getboolean getint getfloat _get_path isfile config = inr uid
    /\ uid = strip <$> setting
    /\ forall name,
        if unique_id_set uid
        then exists raw, setting = Some raw /\ strip raw <> EmptyString
             /\ service_topic uid name = _SERVICE_TYPE +:+ ("/" +:+ strip raw) +:+ "/" +:+ name
             /\ full_event_topic uid name
                = _ZEROMQ_NOTIFICATIONS_EVENT_TOPIC +:+ ("/" +:+ strip raw) +:+ "/" +:+ name
             /\ service_topic uid name <> service_topic None name
             /\ full_event_topic uid name <> full_event_topic None name
        else (setting = None \/ exists raw, setting = Some raw /\ strip raw = EmptyString)
             /\ service_topic uid name = _SERVICE_TYPE +:+ "/" +:+ name
             /\ full_event_topic uid name = _ZEROMQ_NOTIFICATIONS_EVENT_TOPIC +:+ "/" +:+ name
             /\ service_topic uid name = service_topic None name
             /\ full_event_topic uid name = full_event_topic None name.
Proof.
  intros setting. exists (strip <$> setting).
  split; [apply load_service_unique_id_value|]. split; [reflexivity|].
  intros name. unfold service_topic, full_event_topic.
  destruct (unique_id_set (strip <$> setting)) eqn:E.
  - destruct (unique_id_segment_set "/" _ E) as (s & Hs & Hne & Hseg).
    rewrite Hseg. destruct setting as [raw|]; [|discriminate].
    injection Hs as <-. exists raw. repeat split; try assumption.
    + apply segment_shows. assumption.
    + apply segment_shows. assumption.
  - rewrite (unique_id_segment_unset "/" _ E). repeat split.
    destruct setting as [raw|]; [right|left; reflexivity].
    exists raw. split; [reflexivity|]. simpl in E.
    apply negb_false_iff, string_length_zero in E. exact E.
Qed.

Example blank_unique_id_topics :
  load_service_unique_id Sample.getboolean Sample.getint Sample.getfloat
    Sample._get_path Sample.isfile {[ ("General", "serviceUniqueId") := "   " ]}
  = inr (Some "")
  /\ service_topic (Some "") "search" = "/opendxl-misp/service/misp-api/search"
  /\ service_topic None "search" = "/opendxl-misp/service/misp-api/search"
  /\ service_topic (Some "lab") "search" = "/opendxl-misp/service/misp-api/lab/search"
  /\ full_event_topic (Some "") "misp_json" = "/opendxl-misp/service/zeromq-notifications/misp_json".
Proof. vm_compute. repeat split. Qed.

(** ** API method registry and service registration *)

Lemma get_api_method_attr self name m :
  _get_api_method self name = Some m <-> _api_client self !! name = Some (Callable m).
Proof.
  unfold _get_api_method.
  destruct (_api_client self !! name) as [[f|v]|]; split; congruence.
Qed.

Lemma get_api_method_invocable self name :
  invocable self name = true <-> is_Some (_get_api_method self name).
Proof.
  unfold invocable, _get_api_method.
  destruct (_api_client self !! name) as [[f|v]|]; split;
    try discriminate; try (intros [? ?]; discriminate); eauto.
Qed.

Lemma resolve_api_names_methods self names :
  (resolve_api_names self names).1 = omap (_get_api_method self) names.
Proof.
  induction names as [|n names IH]; simpl; [reflexivity|].
  destruct (resolve_api_names self names) as [ms lg]. simpl in IH. subst ms.
  destruct (_get_api_method self n); reflexivity.
Qed.

Lemma resolve_api_names_logged self names :
  (resolve_api_names self names).2
  = map invalid_name_warning (List.filter (fun n => negb (invocable self n)) names).
Proof.
  induction names as [|n names IH]; simpl; [reflexivity|].
  destruct (resolve_api_names self names) as [ms lg]. simpl in IH. subst lg.
  pose proof (get_api_method_invocable self n) as Hn.
  destruct (_get_api_method self n) as [m|].
  - replace (invocable self n) with true; [reflexivity|].
    symmetry. apply Hn. eauto.
  - destruct (invocable self n); [|reflexivity].
    destruct Hn as [Hn _]. destruct (Hn eq_refl). discriminate.
Qed.

Lemma resolved_are_the_invocable self names :
  Forall2 (fun name m => _api_client self !! name = Some (Callable m))
    (List.filter (invocable self) names) (omap (_get_api_method self) names).
Proof.
  induction names as [|n names IH]; simpl; [constructor|].
  pose proof (get_api_method_invocable self n) as Hn.
  destruct (_get_api_method self n) as [m|] eqn:E.
  - replace (invocable self n) with true by (symmetry; apply Hn; eauto).
    constructor; [|exact IH]. apply get_api_method_attr. exact E.
  - destruct (invocable self n); [|exact IH].
    destruct Hn as [Hn _]. destruct (Hn eq_refl). discriminate.
Qed.

Lemma rejected_names_warnings names :
  rejected_names (map invalid_name_warning names) = names.
Proof. induction names as [|n names IH]; simpl; [reflexivity|]. rewrite IH. reflexivity. Qed.

Lemma callbacks_warnings names : callbacks (map invalid_name_warning names) = [].
Proof. induction names as [|n names IH]; simpl; [reflexivity|]. exact IH. Qed.

Lemma services_created_warnings names :
  services_created (map invalid_name_warning names) = [].
Proof. induction names as [|n names IH]; simpl; [reflexivity|]. exact IH. Qed.

Lemma callbacks_registered self ms :
  callbacks (flat_map (register_callback self) ms)
  = map (fun m => (service_topic (_service_unique_id self) (__name__ m), m)) ms.
Proof. induction ms as [|m ms IH]; simpl; [reflexivity|]. rewrite IH. reflexivity. Qed.

Lemma services_created_registered self ms :
  services_created (flat_map (register_callback self) ms) = [].
Proof. induction ms as [|m ms IH]; simpl; [reflexivity|]. exact IH. Qed.

Lemma filter_register_service_warnings names :
  List.filter (fun e => match e with RegisterService => true | _ => false end)
    (map invalid_name_warning names) = [].
Proof. induction names as [|n names IH]; simpl; [reflexivity|]. exact IH. Qed.

Lemma filter_register_service_registered self ms :
  List.filter (fun e => match e with RegisterService => true | _ => false end)
    (flat_map (register_callback self) ms) = [].
Proof. induction ms as [|m ms IH]; simpl; [reflexivity|]. exact IH. Qed.

(** What [on_register_services] does, by whether any method resolved. *)
Lemma on_register_services_unfold self :
  let api_methods := omap (_get_api_method self) (_api_names self) in
  let logged := map invalid_name_warning
                  (List.filter (fun n => negb (invocable self n)) (_api_names self)) in
  on_register_services self
  = logged ++
    match api_methods with
    | [] => []
    | _ :: _ =>
        [ Log INFO "Registering service: misp_service" []; NewService _SERVICE_TYPE ]
        ++ flat_map (register_callback self) api_methods ++ [ RegisterService ]
    end.
Proof.
  unfold on_register_services.
  pose proof (resolve_api_names_methods self (_api_names self)) as Hm.
  pose proof (resolve_api_names_logged self (_api_names self)) as Hl.
  destruct (resolve_api_names self (_api_names self)) as [ms lg]. simpl in Hm, Hl.
  subst ms lg. simpl.
  destruct (omap (_get_api_method self) (_api_names self)); reflexivity.
Qed.

Lemma callbacks_app t1 t2 : callbacks (t1 ++ t2) = callbacks t1 ++ callbacks t2.
Proof. apply omap_app. Qed.

Lemma rejected_names_app t1 t2 :
  rejected_names (t1 ++ t2) = rejected_names t1 ++ rejected_names t2.
Proof. apply omap_app. Qed.

Lemma services_created_app t1 t2 :
  services_created (t1 ++ t2) = services_created t1 ++ services_created t2.
Proof. apply omap_app. Qed.

Lemma rejected_names_registered self ms :
  rejected_names (flat_map (register_callback self) ms) = [].
Proof. induction ms as [|m ms IH]; simpl; [reflexivity|]. exact IH. Qed.

Lemma callbacks_on_register_services self :
  callbacks (on_register_services self)
  = map (fun m => (service_topic (_service_unique_id self) (__name__ m), m))
      (omap (_get_api_method self) (_api_names self)).
Proof.
  rewrite on_register_services_unfold. cbv zeta.
  rewrite callbacks_app, callbacks_warnings.
  destruct (omap (_get_api_method self) (_api_names self)) as [|m ms] eqn:E;
    [reflexivity|].
  rewrite !callbacks_app, callbacks_registered. simpl. rewrite app_nil_r. reflexivity.
Qed.

(** C1. The methods resolved are, in input order, the attributes of exactly
    those configured names that exist on the API client and are callable;
    every other name, and no resolved one, is reported in a warning, in input
    order; and registration goes on with the methods resolved: a request
    callback is added for each of them. *)
Theorem resolve_keeps_the_invocable (self : MispService) :
  let api_methods := (resolve_api_names self (_api_names self)).1 in
  let logged := (resolve_api_names self (_api_names self)).2 in
  Forall2 (fun name m => _api_client self !! name = Some (Callable m))
    (List.filter (invocable self) (_api_names self)) api_methods
  /\ logged = map invalid_name_warning
               (List.filter (fun n => negb (invocable self n)) (_api_names self))
  /\ rejected_names (on_register_services self)
     = List.filter (fun n => negb (invocable self n)) (_api_names self)
  /\ map snd (callbacks (on_register_services self)) = api_methods.
Proof.
  cbv zeta. rewrite resolve_api_names_methods, resolve_api_names_logged.
  split; [apply resolved_are_the_invocable|]. split; [reflexivity|]. split.
  - rewrite on_register_services_unfold. cbv zeta.
    rewrite rejected_names_app, rejected_names_warnings.
    destruct (omap (_get_api_method self) (_api_names self)) as [|m ms];
      [apply app_nil_r|].
    rewrite !rejected_names_app, rejected_names_registered. simpl. apply app_nil_r.
  - rewrite callbacks_on_register_services. rewrite map_map. simpl. apply map_id.
Qed.

Lemma none_resolved self names :
  omap (_get_api_method self) names = []
  <-> Forall (fun n => invocable self n = false) names.
Proof.
  induction names as [|n names IH]; simpl.
  - split; [constructor|reflexivity].
  - pose proof (get_api_method_invocable self n) as Hn.
    destruct (_get_api_method self n) as [m|].
    + split; [discriminate|]. intros H. inversion H as [|? ? H1 _]; subst.
      destruct Hn as [_ Hn]. rewrite Hn in H1; [discriminate|eauto].
    + rewrite IH. split.
      * intros H. constructor; [|exact H].
        destruct (invocable self n); [|reflexivity].
        destruct Hn as [Hn _]. destruct (Hn eq_refl). discriminate.
      * intros H. inversion H; assumption.
Qed.

Lemma filter_all_rejected self names :
  Forall (fun n => invocable self n = false) names ->
  List.filter (fun n => negb (invocable self n)) names = names.
Proof.
  induction 1 as [|n names Hn _ IH]; simpl; [reflexivity|].
  rewrite Hn. simpl. rewrite IH. reflexivity.
Qed.

Lemma topics_by_configured_name self names :
  (forall n m, _api_client self !! n = Some (Callable m) -> __name__ m = n) ->
  map __name__ (omap (_get_api_method self) names) = List.filter (invocable self) names.
Proof.
  intros Hnamed.
  pose proof (resolved_are_the_invocable self names) as H.
  induction H as [|n m ns ms Hnm _ IH]; simpl; [reflexivity|].
  rewrite (Hnamed _ _ Hnm), IH. reflexivity.
Qed.

(** C9, as amended. When no configured name resolves,
    [on_register_services] only logs the warnings: it creates no service,
    adds no request callback and registers nothing (and, having no failing
    path, raises nothing). When a name resolves, one service is created and
    registered, and each resolved method gets exactly one request callback,
    on the topic "/opendxl-misp/service/misp-api", then "/<id>" when the
    unique id is set and not empty, then "/" and the method's own
    [__name__]: the configured name wherever the client files the method
    under its own name. *)
Theorem registration_follows_resolution (self : MispService) :
  let api_methods := (resolve_api_names self (_api_names self)).1 in
  let t := on_register_services self in
  (api_methods = [] <-> Forall (fun n => invocable self n = false) (_api_names self))
  /\ (api_methods = [] ->
      t = map invalid_name_warning (_api_names self)
      /\ callbacks t = [] /\ services_created t = [] /\ services_registered t = 0%nat)
  /\ (api_methods <> [] ->
      callbacks t
      = map (fun m =>
               (match _service_unique_id self with
                | None | Some EmptyString =>
                    "/opendxl-misp/service/misp-api/" +:+ __name__ m
                | Some id =>
                    "/opendxl-misp/service/misp-api/" +:+ id +:+ "/" +:+ __name__ m
                end, m)) api_methods
      /\ services_created t = ["/opendxl-misp/service/misp-api"]
      /\ services_registered t = 1%nat)
  /\ ((forall n m, _api_client self !! n = Some (Callable m) -> __name__ m = n) ->
      registered_under_configured_names_as_stated self t).
Proof.
  cbv zeta. rewrite resolve_api_names_methods.
  split; [apply none_resolved|]. split; [|split].
  - intros E. rewrite on_register_services_unfold. cbv zeta. rewrite E.
    apply none_resolved in E. rewrite (filter_all_rejected _ _ E), app_nil_r.
    split; [reflexivity|]. split; [apply callbacks_warnings|].
    split; [apply services_created_warnings|].
    unfold services_registered. rewrite filter_register_service_warnings. reflexivity.
  - intros Hne. split.
    + rewrite callbacks_on_register_services. apply map_ext. intros m.
      rewrite service_topic_as_specified_eq. reflexivity.
    + rewrite on_register_services_unfold. cbv zeta.
      destruct (omap (_get_api_method self) (_api_names self)) as [|m ms]; [congruence|].
      split.
      * rewrite !services_created_app, services_created_warnings,
          services_created_registered. reflexivity.
      * unfold services_registered.
        rewrite !List.filter_app, filter_register_service_warnings,
          filter_register_service_registered. reflexivity.
  - intros Hnamed. unfold registered_under_configured_names_as_stated.
    rewrite callbacks_on_register_services, map_map. simpl.
    rewrite <- (topics_by_configured_name self _ Hnamed), map_map.
    apply map_ext. intros m. apply service_topic_as_specified_eq.
Qed.

(** C9 as stated fails for a configured name that resolves to a callable
    with another name: every object has the attribute [__class__], its
    class, which is callable and whose [__name__] is the name of the class;
    the callback is registered under the class name. *)
Lemma registration_as_stated_fails :
  let PyMISP := {| __name__ := "PyMISP"; call := fun _ => ret (PObj "PyMISP") |} in
  let self := {| _service_unique_id := None;
                 _api_client := {[ "__class__" := Callable PyMISP ]};
                 _api_names := ["__class__"] |} in
  invocable self "__class__" = true
  /\ callbacks (on_register_services self)
     = [("/opendxl-misp/service/misp-api/PyMISP", PyMISP)]
  /\ ~ registered_under_configured_names_as_stated self (on_register_services self).
Proof.
  cbv zeta. split; [reflexivity|]. split; [reflexivity|].
  unfold registered_under_configured_names_as_stated. vm_compute. discriminate.
Qed.

Example only_a_resolves :
  let a := {| __name__ := "a"; call := fun _ => inr PNone |} in
  let self := {| _service_unique_id := None;
                 _api_client := {[ "a" := Callable a ]};
                 _api_names := ["a"; "b"] |} in
  callbacks (on_register_services self) = [("/opendxl-misp/service/misp-api/a", a)]
  /\ rejected_names (on_register_services self) = ["b"].
Proof. vm_compute. split; reflexivity. Qed.

Example nothing_resolves :
  on_register_services {| _service_unique_id := Some "lab";
                          _api_client := {[ "version" := Data (PStr "2.4") ]};
                          _api_names := ["version"; "search"] |}
  = [invalid_name_warning "version"; invalid_name_warning "search"].
Proof. vm_compute. reflexivity. Qed.

(** ** Request handler *)

Lemma responses_app t1 t2 : responses (t1 ++ t2) = responses t1 ++ responses t2.
Proof. apply omap_app. Qed.

Lemma api_calls_app t1 t2 : api_calls (t1 ++ t2) = api_calls t1 ++ api_calls t2.
Proof. apply omap_app. Qed.

Lemma isdecimal_isdigit s :
  forall_chars isdecimal_char s = true -> forall_chars isdigit_char s = true.
Proof.
  induction s as [|c s IH]; simpl; [reflexivity|].
  intros [Hc Hs]%andb_prop. rewrite (IH Hs), andb_true_r.
  unfold isdigit_char. rewrite Hc. reflexivity.
Qed.

(** A text of decimal digits, within the limit of [int()], is replaced by
    the integer it writes. *)
Lemma coerce_event_decimal (d : gmap string pyval) s :
  d !! "event" = Some (PStr s) -> s <> EmptyString ->
  forall_chars isdecimal_char s = true ->
  (String.length s <=? int_max_str_digits)%nat = true ->
  coerce_event (PDict d) = inr (<["event" := PInt (decimal_value 0 s)]> d).
Proof.
  intros Hd Hs Hdec Hmax. unfold coerce_event. rewrite Hd. cbv beta iota.
  unfold isdigit, Py.int.
  assert (Hl : negb (String.length s =? 0)%nat = true) by (destruct s; [congruence|reflexivity]).
  rewrite Hl, Hdec, Hmax, (isdecimal_isdigit s Hdec). reflexivity.
Qed.

(** Any other [event], and a payload without one, is left as it is. *)
Lemma coerce_event_unchanged (d : gmap string pyval) :
  (forall s, d !! "event" = Some (PStr s) -> isdigit s = false) ->
  coerce_event (PDict d) = inr d.
Proof.
  intros H. unfold coerce_event.
  destruct (d !! "event") as [[]|] eqn:E; try reflexivity.
  rewrite (H _ eq_refl). reflexivity.
Qed.

(** Whatever the repair returns, no field other than [event] has changed. *)
Lemma coerce_event_other_fields (d d' : gmap string pyval) k :
  coerce_event (PDict d) = inr d' -> k <> "event" -> d' !! k = d !! k.
Proof.
  unfold coerce_event. intros H Hk.
  destruct (d !! "event") as [[]|]; try (injection H as <-; reflexivity).
  destruct (isdigit s); [|injection H as <-; reflexivity].
  destruct (Py.int s); simpl in H; [discriminate|].
  injection H as <-. apply lookup_insert_ne. congruence.
Qed.

Section RequestHandlerFacts.

Variable json_payload_to_dict : string -> result pyval.
Variable dict_to_json_payload : pyval -> result string.

Local Abbreviation handle := (on_request json_payload_to_dict dict_to_json_payload).
Local Abbreviation kwargs_of := (request_dict_of json_payload_to_dict).

(** The handler, path by path. *)
Lemma on_request_paths api_method request :
  handle api_method request =
  match kwargs_of request with
  | inl e => (request_logs request, inl e)
  | inr kw =>
      match call api_method kw with
      | inl e => (request_logs request ++ [CallApi kw], inl e)
      | inr v =>
          match dict_to_json_payload v with
          | inl e => (request_logs request ++ [CallApi kw], inl e)
          | inr p => (request_logs request ++ [CallApi kw; SendResponse p], inr tt)
          end
      end
  end.
Proof.
  unfold on_request, request_logs. simpl.
  destruct (kwargs_of request) as [e|kw]; simpl; [reflexivity|].
  destruct (call api_method kw) as [e|v]; simpl; [reflexivity|].
  destruct (dict_to_json_payload v) as [e|p]; reflexivity.
Qed.

(** C3, as amended. Whenever the handler raises, no response has been sent.
    When the bound operation raises, that exception leaves the handler. When
    the operation returns and the result serializes, the handler returns
    after sending exactly one response, whose payload is the serialized
    result; when the result does not serialize, the serializer's exception
    leaves the handler and no response is sent. *)
Theorem operation_failure_propagates api_method request :
  let t := (handle api_method request).1 in
  let r := (handle api_method request).2 in
  (forall e, r = inl e -> responses t = [])
  /\ (forall kw e, kwargs_of request = inr kw -> call api_method kw = inl e ->
      r = inl e /\ responses t = [] /\ api_calls t = [kw])
  /\ (forall kw v p, kwargs_of request = inr kw -> call api_method kw = inr v ->
      dict_to_json_payload v = inr p ->
      r = inr tt /\ responses t = [p] /\ api_calls t = [kw])
  /\ (forall kw v e, kwargs_of request = inr kw -> call api_method kw = inr v ->
      dict_to_json_payload v = inl e ->
      r = inl e /\ responses t = [] /\ api_calls t = [kw]).
Proof.
  cbv zeta. rewrite on_request_paths. split; [|split; [|split]].
  - intros e.
    destruct (kwargs_of request) as [e0|kw]; simpl; [reflexivity|].
    destruct (call api_method kw) as [e1|v]; simpl; [reflexivity|].
    destruct (dict_to_json_payload v) as [e2|p]; simpl; [reflexivity|discriminate].
  - intros kw e -> ->. simpl. auto.
  - intros kw v p -> -> ->. simpl. auto.
  - intros kw v e -> -> ->. simpl. auto.
Qed.

(** C4. A request whose payload is absent or empty has the empty dict as its
    keyword arguments, without the decoder being consulted, and the handler
    calls the bound operation once, with no argument. *)
Theorem empty_payload_calls_without_arguments api_method request :
  payload request = None \/ payload request = Some EmptyString ->
  kwargs_of request = inr ∅
  /\ api_calls (handle api_method request).1 = [∅]
  /\ handle api_method request
     = match call api_method ∅ with
       | inl e => (request_logs request ++ [CallApi ∅], inl e)
       | inr v =>
           match dict_to_json_payload v with
           | inl e => (request_logs request ++ [CallApi ∅], inl e)
           | inr p => (request_logs request ++ [CallApi ∅; SendResponse p], inr tt)
           end
       end.
Proof.
  intros H.
  assert (E : kwargs_of request = inr ∅).
  { unfold request_dict_of, payload_set. destruct H as [-> | ->]; reflexivity. }
  rewrite on_request_paths, E. split; [reflexivity|]. split; [|reflexivity].
  destruct (call api_method ∅) as [e|v]; simpl; [reflexivity|].
  destruct (dict_to_json_payload v); reflexivity.
Qed.

(** C2, where the code departs from it. A payload whose [event] is the text
    of the one character U+00B2 passes the [isdigit] test, [int] refuses it,
    and the handler raises [ValueError]: the operation is not called and no
    response is sent. *)
Theorem superscript_event_raises api_method request bytes :
  payload request = Some bytes ->
  payload_set request = true ->
  json_payload_to_dict bytes = inr (PDict {[ "event" := PStr Sample.superscript_two ]}) ->
  exists msg,
    handle api_method request = (request_logs request, inl (ValueError msg))
    /\ api_calls (handle api_method request).1 = []
    /\ responses (handle api_method request).1 = [].
Proof.
  intros Hp Hset Hd. rewrite on_request_paths.
  assert (E : exists msg, kwargs_of request = inl (ValueError msg)).
  { unfold request_dict_of. rewrite Hset, Hp. simpl. rewrite Hd. simpl.
    eexists. vm_compute. reflexivity. }
  destruct E as [msg E]. exists msg. rewrite E. auto.
Qed.

End RequestHandlerFacts.

(** C3 as stated fails where the operation returns a value that JSON cannot
    carry: the call returns normally and no response is sent. *)
Lemma operation_success_as_stated_fails :
  let request := {| destination_topic := "/opendxl-misp/service/misp-api/get_object";
                    payload := None |} in
  let get_object := {| __name__ := "get_object";
                       call := fun _ => ret (PObj "MISPObject") |} in
  let t := (on_request Sample.json_payload_to_dict Sample.dict_to_json_payload
              get_object request).1 in
  request_dict_of Sample.json_payload_to_dict request = inr ∅
  /\ call get_object ∅ = inr (PObj "MISPObject")
  /\ api_calls t = [∅]
  /\ responses t = []
  /\ ~ response_on_return_as_stated get_object ∅ t.
Proof.
  cbv zeta. repeat (split; [reflexivity|]).
  intros H. destruct (H (PObj "MISPObject") eq_refl) as [p Hp]. discriminate.
Qed.

Lemma empty_payload_witness :
  let request := {| destination_topic := "/opendxl-misp/service/misp-api/get_version";
                    payload := None |} in
  let get_version := {| __name__ := "get_version"; call := fun _ => inr PNone |} in
  request_dict_of Sample.json_payload_to_dict request = inr ∅
  /\ api_calls (on_request Sample.json_payload_to_dict Sample.dict_to_json_payload
                  get_version request).1 = [∅]
  /\ on_request Sample.json_payload_to_dict Sample.dict_to_json_payload get_version request
     = (request_logs request ++ [CallApi ∅; SendResponse "null"], inr tt).
Proof.
  apply (empty_payload_calls_without_arguments
           Sample.json_payload_to_dict Sample.dict_to_json_payload).
  left. reflexivity.
Defined.

Lemma superscript_event_witness :
  let decode := fun _ : string =>
                  @inr exn pyval (PDict {[ "event" := PStr Sample.superscript_two ]}) in
  let request := {| destination_topic := "/opendxl-misp/service/misp-api/get_event";
                    payload := Some Sample.superscript_event_payload |} in
  let get_event := {| __name__ := "get_event"; call := fun kw => inr (PDict kw) |} in
  exists msg,
    on_request decode Sample.dict_to_json_payload get_event request
    = (request_logs request, inl (ValueError msg))
    /\ api_calls (on_request decode Sample.dict_to_json_payload get_event request).1 = []
    /\ responses (on_request decode Sample.dict_to_json_payload get_event request).1 = [].
Proof.
  apply (superscript_event_raises
           (fun _ => inr (PDict {[ "event" := PStr Sample.superscript_two ]}))
           Sample.dict_to_json_payload _ _ Sample.superscript_event_payload).
  - reflexivity.
  - reflexivity.
  - reflexivity.
Defined.

Example decimal_event_is_coerced :
  coerce_event (PDict {[ "event" := PStr "42" ]}) = inr {[ "event" := PInt 42 ]}
  /\ coerce_event (PDict {[ "event" := PStr "abc" ]}) = inr {[ "event" := PStr "abc" ]}
  /\ coerce_event (PDict {[ "event" := PInt 7 ]}) = inr {[ "event" := PInt 7 ]}
  /\ coerce_event (PDict {[ "uuid" := PStr "42" ]}) = inr {[ "uuid" := PStr "42" ]}.
Proof. vm_compute. repeat split. Qed.

(** ** Notification relay *)

Lemma receipts_app t1 t2 : receipts (t1 ++ t2) = receipts t1 ++ receipts t2.
Proof. apply omap_app. Qed.

Lemma events_sent_app t1 t2 : events_sent (t1 ++ t2) = events_sent t1 ++ events_sent t2.
Proof. apply omap_app. Qed.

(** [partition] cuts at the first space. *)
Lemma partition_at_first_space message :
  split_at_first_space message (partition " " message).1.1 (partition " " message).2.
Proof.
  unfold split_at_first_space, no_space.
  induction message as [|c m IH]; simpl.
  - split; [reflexivity|]. right. split; reflexivity.
  - destruct (Ascii.eqb c " ") eqn:Hc.
    + apply Ascii.eqb_eq in Hc. subst c. simpl. split; [reflexivity|].
      left. reflexivity.
    + destruct (partition " " m) as [[h sep] t]. simpl in *. rewrite Hc. simpl.
      destruct IH as [Hh [-> | [-> ->]]].
      * split; [exact Hh|]. left. reflexivity.
      * split; [exact Hh|]. right. split; reflexivity.
Qed.

(** The cut is the only one: a message has one topic and one payload. *)
Lemma split_at_first_space_unique message topic rest topic' rest' :
  split_at_first_space message topic rest ->
  split_at_first_space message topic' rest' ->
  topic = topic' /\ rest = rest'.
Proof.
  unfold split_at_first_space, no_space. revert topic topic'.
  induction message as [|c m IH]; intros topic topic' [Ht H] [Ht' H'].
  - destruct H as [H | [<- ->]]; [destruct topic; discriminate|].
    destruct H' as [H' | [<- ->]]; [destruct topic'; discriminate|]. auto.
  - assert (Hcut : forall tp r, forall_chars (fun c => negb (Ascii.eqb c " ")) tp = true ->
               String c m = tp +:+ " " +:+ r \/ (String c m = tp /\ r = EmptyString) ->
               (Ascii.eqb c " " = true /\ tp = EmptyString /\ r = m)
               \/ (Ascii.eqb c " " = false /\ exists tp', tp = String c tp'
                   /\ forall_chars (fun c => negb (Ascii.eqb c " ")) tp' = true
                   /\ (m = tp' +:+ " " +:+ r \/ (m = tp' /\ r = EmptyString)))).
    { intros tp r Hn Hm. destruct tp as [|d tp'].
      - destruct Hm as [Hm | [Hm _]]; [|discriminate].
        simpl in Hm. injection Hm as -> ->. left. auto.
      - simpl in Hn. apply andb_prop in Hn as [Hd Hn]. apply negb_true_iff in Hd.
        right. destruct Hm as [Hm | [Hm ->]].
        + simpl in Hm. injection Hm as -> ->. split; [exact Hd|].
          exists tp'. split; [reflexivity|]. split; [exact Hn|]. left. reflexivity.
        + injection Hm as -> ->. split; [exact Hd|].
          exists tp'. split; [reflexivity|]. split; [exact Hn|]. right. auto. }
    destruct (Hcut _ _ Ht H) as [(Hc & -> & ->) | (Hc & tp & -> & Hn & Hm)];
      destruct (Hcut _ _ Ht' H') as [(Hc' & -> & ->) | (Hc' & tp' & -> & Hn' & Hm')];
      try congruence; auto.
    destruct (IH tp tp' (conj Hn Hm) (conj Hn' Hm')) as [-> ->]. auto.
Qed.

(** One pass of the loop body receives at most one message and sends the one
    event made from it. *)
Lemma loop_body_forwards uid it :
  Forall2 (forwarded_as uid) (receipts (loop_body uid it).1)
    (events_sent (loop_body uid it).1).
Proof.
  unfold loop_body.
  destruct (polled it) as [e|[flags|]]; simpl.
  - destruct (is_ZMQError e); simpl; constructor.
  - destruct (flags =? POLLIN)%Z; simpl; [|constructor].
    unfold forward_message. destruct (received it) as [e|message]; simpl; [constructor|].
    pose proof (partition_at_first_space message) as Hcut.
    destruct (partition " " message) as [[topic sep] rest]. simpl in *.
    destruct (sent it); simpl; (constructor; [|constructor]);
      exists topic, rest;
      (split; [exact Hcut|f_equal; apply full_event_topic_as_specified]).
  - constructor.
Qed.

Lemma process_zeromq_messages_forwards uid world :
  Forall2 (forwarded_as uid) (receipts (_process_zeromq_messages uid world).1)
    (events_sent (_process_zeromq_messages uid world).1).
Proof.
  induction world as [|it rest IH]; simpl; [constructor|].
  destruct (destroyed_read it); simpl; [constructor|].
  pose proof (loop_body_forwards uid it) as Hb.
  destruct (loop_body uid it) as [t [e|[]]]; simpl in *; [exact Hb|].
  destruct (_process_zeromq_messages uid rest) as [t' o]. simpl in *.
  rewrite receipts_app, events_sent_app. apply Forall2_app; assumption.
Qed.

Lemma delivering_receipts uid messages :
  receipts (_process_zeromq_messages uid (delivering messages)).1 = messages
  /\ (_process_zeromq_messages uid (delivering messages)).2 = AtLoopTest.
Proof.
  induction messages as [|m ms [IH1 IH2]]; simpl; [auto|].
  unfold loop_body, forward_message. simpl.
  destruct (partition " " m) as [[topic sep] rest]. simpl.
  destruct (_process_zeromq_messages uid (delivering ms)) as [t' o]. simpl in *.
  rewrite IH1. auto.
Qed.

(** C5. In every run of the relay loop the events sent match, one for one
    and in order, the messages received. Each event carries the topic and
    the payload cut from its message at the first space: its topic is
    "/opendxl-misp/service/zeromq-notifications", then "/<id>" when the
    unique id is set and not empty, then "/" and the text before the first
    space; its payload is the text after that space. The cut is unique; and
    messages arriving one per iteration are all received, in order. *)
Theorem relay_forwards_in_order (uid : option string) :
  (forall world,
     Forall2 (forwarded_as uid)
       (receipts (_process_zeromq_messages uid world).1)
       (events_sent (_process_zeromq_messages uid world).1))
  /\ (forall message event event',
        forwarded_as uid message event -> forwarded_as uid message event' ->
        event = event')
  /\ (forall messages,
        receipts (_process_zeromq_messages uid (delivering messages)).1 = messages)
  /\ (forall message topic rest,
        split_at_first_space message topic rest ->
        events_sent (_process_zeromq_messages uid (delivering [message])).1
        = [(match uid with
            | None | Some EmptyString =>
                "/opendxl-misp/service/zeromq-notifications/" +:+ topic
            | Some id =>
                "/opendxl-misp/service/zeromq-notifications/" +:+ id +:+ "/" +:+ topic
            end, rest)]).
Proof.
  split; [apply process_zeromq_messages_forwards|]. split; [|split].
  - intros message event event' (tp & r & Hcut & ->) (tp' & r' & Hcut' & ->).
    destruct (split_at_first_space_unique _ _ _ _ _ Hcut Hcut') as [-> ->]. reflexivity.
  - intros messages. apply delivering_receipts.
  - intros message topic rest Hcut.
    pose proof (process_zeromq_messages_forwards uid (delivering [message])) as H.
    destruct (delivering_receipts uid [message]) as [Hr _]. rewrite Hr in H.
    inversion H as [|m ev ms evs (tp & r & Hcut' & ->) Hrest Hm Hev]; subst.
    inversion Hrest; subst.
    destruct (split_at_first_space_unique _ _ _ _ _ Hcut Hcut') as [<- <-].
    etransitivity; [symmetry; exact Hev|reflexivity].
Qed.

Example relay_foo_bar :
  events_sent (_process_zeromq_messages (Some "lab")
                 (delivering ["foo/bar hello world"; "misp_json_self"])).1
  = [ ("/opendxl-misp/service/zeromq-notifications/lab/foo/bar", "hello world");
      ("/opendxl-misp/service/zeromq-notifications/lab/misp_json_self", "") ].
Proof. vm_compute. reflexivity. Qed.

(** An iteration whose [poll] raises [ZMQError] does the poll and nothing
    more, and the loop goes on. *)
Lemma poll_failure_skipped uid it rest :
  poll_fails it ->
  _process_zeromq_messages uid (it :: rest)
  = (Poll :: (_process_zeromq_messages uid rest).1,
     (_process_zeromq_messages uid rest).2).
Proof.
  intros [Hd Hp]. simpl. rewrite Hd. unfold loop_body. rewrite Hp. simpl.
  destruct (_process_zeromq_messages uid rest). reflexivity.
Qed.

Lemma exits_by_flag uid world :
  (_process_zeromq_messages uid world).2 = Exits ->
  exists it, In it world /\ destroyed_read it = true.
Proof.
  induction world as [|it rest IH]; simpl; [discriminate|].
  destruct (destroyed_read it) eqn:Hd; simpl.
  - intros _. exists it. auto.
  - destruct (loop_body uid it) as [t [e|[]]]; simpl; [discriminate|].
    destruct (_process_zeromq_messages uid rest) as [t' o]. simpl in *.
    intros H. destruct (IH H) as (it' & Hin & Hit'). exists it'. auto.
Qed.

Lemma poll_failures_only uid world :
  Forall poll_fails world ->
  _process_zeromq_messages uid world = (replicate (List.length world) Poll, AtLoopTest).
Proof.
  induction 1 as [|it rest Hit _ IH]; [reflexivity|].
  rewrite (poll_failure_skipped uid it rest Hit), IH. reflexivity.
Qed.

(** How a run ends that is not at its loop test. *)
Lemma relay_ends uid world :
  match (_process_zeromq_messages uid world).2 with
  | AtLoopTest => True
  | Exits => exists it, In it world /\ destroyed_read it = true
  | Escapes e =>
      exists it, In it world /\ destroyed_read it = false
        /\ ((polled it = PollRaises e /\ is_ZMQError e = false)
            \/ (polled it = PollReturns (Some POLLIN)
                /\ (received it = inl e \/ sent it = Some e)))
  end.
Proof.
  induction world as [|it rest IH]; simpl; [exact I|].
  destruct (destroyed_read it) eqn:Hd; simpl; [exists it; auto|].
  assert (Hbody : match loop_body uid it with
                  | (_, inl e) =>
                      (polled it = PollRaises e /\ is_ZMQError e = false)
                      \/ (polled it = PollReturns (Some POLLIN)
                          /\ (received it = inl e \/ sent it = Some e))
                  | (_, inr _) => True
                  end).
  { unfold loop_body. destruct (polled it) as [e|[flags|]]; simpl; [| |exact I].
    - destruct (is_ZMQError e) eqn:He; simpl; [exact I|]. left. auto.
    - destruct (flags =? POLLIN)%Z eqn:Hf; simpl; [|exact I].
      apply Z.eqb_eq in Hf. subst flags. unfold forward_message.
      destruct (received it) as [e|message]; simpl; [right; auto|].
      destruct (partition " " message) as [[topic sep] rest']. simpl.
      destruct (sent it); simpl; [right; auto|exact I]. }
  destruct (loop_body uid it) as [t [e|[]]]; simpl.
  - exists it. auto.
  - destruct (_process_zeromq_messages uid rest) as [t' o]. simpl in *.
    destruct o; [|destruct IH as (it' & Hin & H); exists it'; auto|exact I].
    destruct IH as (it' & Hin & H). exists it'. auto.
Qed.

(** C8, as amended. An iteration whose poll raises [ZMQError] does nothing
    but the poll and leaves the loop running on the following iterations,
    exactly as an iteration with nothing to read; a run made of poll
    failures only is still at its loop test after any number of them. The
    loop leaves its [while] normally only in an iteration that read the
    destroyed flag as set; it ends otherwise only by an exception that is
    not caught, in an iteration that read the flag as clear: an exception of
    the poll that is not a [ZMQError], or one of [recv_string] or
    [send_event]. *)
Theorem poll_failure_is_no_message (uid : option string) :
  (forall it rest, poll_fails it ->
     _process_zeromq_messages uid (it :: rest)
     = (Poll :: (_process_zeromq_messages uid rest).1,
        (_process_zeromq_messages uid rest).2)
     /\ _process_zeromq_messages uid (it :: rest)
        = _process_zeromq_messages uid (nothing_to_read it :: rest))
  /\ (forall world, Forall poll_fails world ->
        _process_zeromq_messages uid world
        = (replicate (List.length world) Poll, AtLoopTest))
  /\ (forall world, (_process_zeromq_messages uid world).2 = Exits ->
        exists it, In it world /\ destroyed_read it = true)
  /\ (forall world e, (_process_zeromq_messages uid world).2 = Escapes e ->
        exists it, In it world /\ destroyed_read it = false
          /\ ((polled it = PollRaises e /\ is_ZMQError e = false)
              \/ (polled it = PollReturns (Some POLLIN)
                  /\ (received it = inl e \/ sent it = Some e)))).
Proof.
  split; [|split; [|split]].
  - intros it rest H. split; [apply poll_failure_skipped; exact H|].
    rewrite (poll_failure_skipped uid it rest H). simpl. unfold loop_body. simpl.
    destruct (_process_zeromq_messages uid rest). reflexivity.
  - apply poll_failures_only.
  - apply exits_by_flag.
  - intros world e H. pose proof (relay_ends uid world) as R. rewrite H in R. exact R.
Qed.

(** C8 as stated fails where [recv_string] raises: the poll reports a
    message, the flag is clear, and the exception, here the [ZMQError] of a
    socket closed in the meantime, ends the loop. *)
Lemma poll_failure_as_stated_fails :
  let it := {| destroyed_read := false; polled := PollReturns (Some POLLIN);
               received := inl ZMQError; sent := None |} in
  _process_zeromq_messages None [it] = ([Poll], Escapes ZMQError)
  /\ ~ exits_only_by_destruction_as_stated
         (fun world => (_process_zeromq_messages None world).2).
Proof.
  cbv zeta. split; [reflexivity|].
  intros H.
  destruct (H [{| destroyed_read := false; polled := PollReturns (Some POLLIN);
                  received := inl ZMQError; sent := None |}])
    as (it & Hin & Hd); [discriminate|].
  destruct Hin as [<-|[]]. discriminate.
Qed.

Example poll_failure_then_message :
  _process_zeromq_messages None
    [ {| destroyed_read := false; polled := PollRaises ZMQError;
         received := inr "lost"; sent := None |};
      {| destroyed_read := false; polled := PollReturns (Some POLLIN);
         received := inr "misp_json {}"; sent := None |};
      {| destroyed_read := true; polled := PollRaises ZMQError;
         received := inr "late"; sent := None |} ]
  = ([ Poll; Poll; RecvString "misp_json {}";
       Log DEBUG "Received notification for %s" ["misp_json"];
       Log DEBUG "Forwarding notification to %s ..."
         ["/opendxl-misp/service/zeromq-notifications/misp_json"];
       SendEvent "/opendxl-misp/service/zeromq-notifications/misp_json" "{}" ],
     Exits).
Proof. vm_compute. reflexivity. Qed.

(** ** Text and the setting resolver, further *)

(** A text that is empty or begins with a character that is not white space. *)
Lemma lstrip_starts s :
  match lstrip s with
  | EmptyString => True
  | String c _ => isspace c = false
  end.
Proof.
  destruct (lstrip s) as [|c r] eqn:E; [exact I|]. eapply lstrip_head. exact E.
Qed.

Lemma lstrip_fixed s :
  match s with EmptyString => True | String c _ => isspace c = false end ->
  lstrip s = s.
Proof. destruct s as [|c r]; simpl; [reflexivity|]. intros ->. reflexivity. Qed.

Lemma rstrip_starts s :
  match s with EmptyString => True | String c _ => isspace c = false end ->
  match rstrip s with EmptyString => True | String c _ => isspace c = false end.
Proof.
  destruct s as [|c r]; simpl; [auto|]. intros Hc. rewrite Hc.
  destruct (rstrip r); exact Hc.
Qed.

Lemma rstrip_rstrip s : rstrip (rstrip s) = rstrip s.
Proof.
  induction s as [|c s IH]; simpl; [reflexivity|].
  destruct (rstrip s) as [|d r] eqn:E.
  - destruct (isspace c) eqn:Hc; simpl; [reflexivity|]. rewrite Hc. reflexivity.
  - change (rstrip (String c (String d r)) = String c (String d r)).
    simpl in IH. simpl. destruct (rstrip r) as [|d' r'] eqn:E'.
    + destruct (isspace d) eqn:Hd; [discriminate|]. injection IH as ->. reflexivity.
    + rewrite IH. reflexivity.
Qed.

Lemma strip_strip s : strip (strip s) = strip s.
Proof.
  unfold strip.
  rewrite (lstrip_fixed (rstrip (lstrip s))).
  - apply rstrip_rstrip.
  - apply rstrip_starts. apply lstrip_starts.
Qed.

Lemma lstrip_keeps p s : forall_chars p s = true -> forall_chars p (lstrip s) = true.
Proof.
  induction s as [|c s IH]; simpl; [auto|].
  intros [Hc Hs]%andb_prop. destruct (isspace c); [auto|].
  simpl. rewrite Hc, Hs. reflexivity.
Qed.

Lemma rstrip_keeps p s : forall_chars p s = true -> forall_chars p (rstrip s) = true.
Proof.
  induction s as [|c s IH]; simpl; [auto|].
  intros [Hc Hs]%andb_prop. specialize (IH Hs).
  destruct (rstrip s) as [|d r].
  - destruct (isspace c); simpl; [reflexivity|]. rewrite Hc. reflexivity.
  - simpl in *. rewrite Hc, IH. reflexivity.
Qed.

Lemma strip_keeps p s : forall_chars p s = true -> forall_chars p (strip s) = true.
Proof. intros H. apply rstrip_keeps, lstrip_keeps, H. Qed.

Lemma split_length sep s : List.length (split sep s) = S (count_char sep s).
Proof.
  induction s as [|c s IH]; simpl; [reflexivity|].
  destruct (Ascii.eqb c sep); simpl; [rewrite IH; reflexivity|].
  pose proof (split_not_nil sep s) as Hn.
  destruct (split sep s) as [|x xs]; [congruence|]. simpl in *. exact IH.
Qed.

Lemma split_pieces sep s :
  Forall (fun x => forall_chars (fun c => negb (Ascii.eqb c sep)) x = true) (split sep s).
Proof.
  induction s as [|c s IH]; simpl; [repeat constructor|].
  destruct (Ascii.eqb c sep) eqn:Hc; [constructor; [reflexivity|exact IH]|].
  destruct (split sep s) as [|x xs]; [repeat constructor; simpl; rewrite Hc; reflexivity|].
  inversion IH as [|? ? Hx Hxs]; subst. constructor; [|exact Hxs].
  simpl. rewrite Hc, Hx. reflexivity.
Qed.

Section SettingResolverMore.

Variable getboolean : string -> string + bool.
Variable getint : string -> string + Z.
Variable getfloat : string -> string + spec_float.
Variable _get_path : string -> string.
Variable isfile : string -> bool.

Local Abbreviation resolve :=
  (_get_setting_from_config getboolean getint getfloat _get_path isfile).

(** X1. A text setting that is present and read without the file-path flag
    comes back as its stored text trimmed: white space at neither end, so
    trimming it again changes nothing; and when the setting is required the
    text returned is not empty. *)
Theorem text_setting_is_trimmed config section setting default_value required raw v :
  config !! (section, setting) = Some raw ->
  resolve config section setting default_value Rstr required false = inr v ->
  v = PStr (strip raw) /\ trimmed (strip raw)
  /\ (required = true -> strip raw <> EmptyString).
Proof.
  intros Hc. unfold _get_setting_from_config. rewrite Hc. simpl.
  destruct (String.length (strip raw) =? 0)%nat eqn:E; destruct required; simpl;
    try discriminate; intros [= <-];
    (split; [reflexivity|]; split; [apply strip_strip|]); try discriminate.
  intros _ H. rewrite H in E. discriminate.
Qed.

(** X2. A list setting that is present and read without the file-path flag
    comes back as one text per comma-separated item, empty items included:
    one more item than the stored text has commas, each trimmed and free of
    commas. The list is therefore never empty, and is truthy even for a
    blank setting. *)
Theorem list_setting_items config section setting default_value required raw v :
  config !! (section, setting) = Some raw ->
  resolve config section setting default_value Rlist required false = inr v ->
  exists items,
    v = PList (map PStr items)
    /\ List.length items = S (count_char "," raw)
    /\ Forall (fun x => trimmed x
                        /\ forall_chars (fun c => negb (Ascii.eqb c ",")) x = true) items
    /\ truthy v = true.
Proof.
  intros Hc. unfold _get_setting_from_config. rewrite Hc. simpl.
  set (items := map strip (split "," raw)).
  assert (Hlen : List.length items = S (count_char "," raw)).
  { unfold items. rewrite length_map. apply split_length. }
  destruct ((List.length items =? 1)%nat
            && (String.length (hd EmptyString items) =? 0)%nat && required);
    simpl; [discriminate|].
  intros [= <-]. exists items. split; [reflexivity|]. split; [exact Hlen|]. split.
  - unfold items. apply Forall_map.
    eapply Forall_impl; [apply (split_pieces "," raw)|].
    intros x Hx. simpl. split; [apply strip_strip|apply strip_keeps, Hx].
  - simpl. rewrite length_map, Hlen. reflexivity.
Qed.

(** X3. Requiring a setting only adds failures: whatever the resolver
    returns for a required setting it returns for the same setting when not
    required, and a call that fails when the setting is not required fails
    when it is. *)
Theorem required_only_adds_failures config section setting default_value rt is_file_path :
  let get := _get_setting_from_config getboolean getint getfloat _get_path isfile
               config section setting default_value rt in
  (forall v, get true is_file_path = inr v -> get false is_file_path = inr v)
  /\ (forall e, get false is_file_path = inl e ->
        exists e', get true is_file_path = inl e').
Proof.
  cbv zeta.
  unfold _get_setting_from_config.
  destruct (config !! (section, setting)) as [raw|]; simpl.
  - destruct rt; simpl;
      try (split; [intros v H; exact H | intros e H; eauto]).
    + destruct (String.length (strip raw) =? 0)%nat; simpl;
        (split; [intros v H; try discriminate; exact H | intros e H; eauto]).
    + destruct ((List.length (map strip (split "," raw)) =? 1)%nat
                && (String.length (hd EmptyString (map strip (split "," raw))) =? 0)%nat);
        simpl; (split; [intros v H; try discriminate; exact H | intros e H; eauto]).
  - split; [discriminate|]. eauto.
Qed.

(** X4. Whatever the resolver returns under the file-path flag is either
    falsy ([None], the empty text, a default that is false) and was not
    checked, or the resolved path of a file that exists. *)
Theorem returned_path_exists config section setting default_value rt required v :
  resolve config section setting default_value rt required true = inr v ->
  truthy v = false \/ exists p, v = PStr p /\ isfile p = true.
Proof.
  unfold _get_setting_from_config.
  destruct (match config !! (section, setting) with
            | Some raw => read_option getboolean getint getfloat section setting raw rt required
            | None => if required then raise (required_missing setting section)
                      else ret default_value
            end) as [e|v0]; simpl; [discriminate|].
  unfold check_file_path. simpl.
  destruct (truthy v0) eqn:Hv.
  - destruct v0; try discriminate.
    destruct (isfile (_get_path s)) eqn:Hf; simpl; [|discriminate].
    intros [= <-]. right. eauto.
  - intros [= <-]. left. exact Hv.
Qed.

End SettingResolverMore.

Lemma text_setting_witness :
  PStr "misp.local" = PStr (strip "  misp.local ")
  /\ trimmed (strip "  misp.local ")
  /\ (true = true -> strip "  misp.local " <> EmptyString).
Proof.
  apply (text_setting_is_trimmed Sample.getboolean Sample.getint Sample.getfloat
           Sample._get_path Sample.isfile
           {[ ("General", "host") := "  misp.local " ]} "General" "host" PNone true).
  - reflexivity.
  - reflexivity.
Defined.

Lemma list_setting_witness :
  exists items,
    PList [PStr "search"; PStr ""; PStr "get_event"] = PList (map PStr items)
    /\ List.length items = S (count_char "," "search, , get_event")
    /\ Forall (fun x => trimmed x
                        /\ forall_chars (fun c => negb (Ascii.eqb c ",")) x = true) items
    /\ truthy (PList [PStr "search"; PStr ""; PStr "get_event"]) = true.
Proof.
  apply (list_setting_items Sample.getboolean Sample.getint Sample.getfloat
           Sample._get_path Sample.isfile
           {[ ("General", "apiNames") := "search, , get_event" ]}
           "General" "apiNames" (PList []) false).
  - reflexivity.
  - reflexivity.
Defined.

Lemma returned_path_witness :
  truthy (PStr "/etc/misp/ca.pem") = false
  \/ exists p, PStr "/etc/misp/ca.pem" = PStr p /\ Deployment.isfile p = true.
Proof.
  apply (returned_path_exists Sample.getboolean Sample.getint Sample.getfloat
           Sample._get_path Deployment.isfile
           Deployment.full "General" "verifyCertBundle" PNone Rstr false).
  reflexivity.
Defined.

(** ** Configuration load *)

Lemma texts_of_texts l : texts_of (PList (map PStr l)) = l.
Proof.
  unfold texts_of. induction l as [|x l IH]; [reflexivity|].
  cbn. f_equal. exact IH.
Qed.

Lemma clients_built_app t1 t2 : clients_built (t1 ++ t2) = clients_built t1 ++ clients_built t2.
Proof. apply omap_app. Qed.
Lemma connections_app t1 t2 : connections (t1 ++ t2) = connections t1 ++ connections t2.
Proof. apply omap_app. Qed.
Lemma subscriptions_app t1 t2 : subscriptions (t1 ++ t2) = subscriptions t1 ++ subscriptions t2.
Proof. apply omap_app. Qed.

Lemma threads_started_app t1 t2 :
  threads_started (t1 ++ t2) = (threads_started t1 + threads_started t2)%nat.
Proof. unfold threads_started. rewrite List.filter_app, length_app. reflexivity. Qed.

(** What starting the listener does: one connection, one subscription per
    topic in order, one thread. *)
Lemma start_zeromq_listener_effects topics host port :
  let t := _start_zeromq_listener topics host port in
  connections t = ["tcp://" +:+ format_arg host +:+ ":" +:+ format_arg port]
  /\ subscriptions t = topics
  /\ threads_started t = 1%nat
  /\ clients_built t = [].
Proof.
  unfold _start_zeromq_listener. cbv zeta.
  rewrite !connections_app, !subscriptions_app, !threads_started_app, !clients_built_app.
  set (f := fun topic => [SetupLog DEBUG "Subscribing to zeromq topic: %s" [topic];
                          ZmqSubscribe topic]).
  assert (H : connections (flat_map f topics) = []
              /\ subscriptions (flat_map f topics) = topics
              /\ threads_started (flat_map f topics) = 0%nat
              /\ clients_built (flat_map f topics) = []).
  { induction topics as [|x l (H1 & H2 & H3 & H4)]; [auto|].
    repeat split; [exact H1| |exact H3|exact H4].
    change (subscriptions (flat_map f (x :: l))) with (x :: subscriptions (flat_map f l)).
    rewrite H2. reflexivity. }
  destruct H as (-> & -> & -> & ->). cbn. rewrite ?app_nil_r. auto.
Qed.

Section LoadConfigurationFacts.

Variable getboolean : string -> string + bool.
Variable getint : string -> string + Z.
Variable getfloat : string -> string + spec_float.
Variable _get_path : string -> string.
Variable isfile : string -> bool.
Variable PyMISP : string -> pyval -> pyval -> cert_arg -> result (gmap string attr).

Local Abbreviation get := (general getboolean getint getfloat _get_path isfile).
Local Abbreviation load :=
  (on_load_configuration getboolean getint getfloat _get_path isfile PyMISP).
Local Abbreviation verify := (verify_argument getboolean getint getfloat _get_path isfile).
Local Abbreviation certs := (cert_argument getboolean getint getfloat _get_path isfile).
Local Abbreviation G := _GENERAL_CONFIG_SECTION.
Local Abbreviation client_block' :=
  (client_block getboolean getint getfloat _get_path isfile PyMISP).
Local Abbreviation start_block' :=
  (start_block getboolean getint getfloat _get_path isfile).

(** A required text setting. *)
Lemma get_required_text config setting :
  get config setting PNone Rstr true false
  = match config !! (G, setting) with
    | None => inl (required_missing setting G)
    | Some raw =>
        if (String.length (strip raw) =? 0)%nat then inl (required_empty setting G)
        else inr (PStr (strip raw))
    end.
Proof.
  unfold general, _get_setting_from_config.
  destruct (config !! (G, setting)) as [raw|]; simpl; [|reflexivity].
  rewrite andb_true_r. destruct (String.length (strip raw) =? 0)%nat; reflexivity.
Qed.

(** An integer setting with a default. *)
Lemma get_int config setting d :
  get config setting (PInt d) Rint false false
  = match config !! (G, setting) with
    | None => inr (PInt d)
    | Some raw =>
        match getint raw with
        | inl ex => inl (unexpected_value setting G ex)
        | inr z => inr (PInt z)
        end
    end.
Proof.
  unfold general, _get_setting_from_config.
  destruct (config !! (G, setting)) as [raw|]; simpl; [|reflexivity].
  destruct (getint raw); reflexivity.
Qed.

(** A list setting with the empty default. *)
Lemma get_list config setting :
  get config setting (PList []) Rlist false false
  = inr (PList (map PStr (items_of config setting))).
Proof.
  unfold general, _get_setting_from_config, items_of.
  destruct (config !! (G, setting)) as [raw|]; simpl; [|reflexivity].
  rewrite !andb_false_r. reflexivity.
Qed.

(** An optional path setting. *)
Lemma get_path config setting :
  get config setting PNone Rstr false true
  = match config !! (G, setting) with
    | None => inr PNone
    | Some raw =>
        if (String.length (strip raw) =? 0)%nat then inr (PStr (strip raw))
        else if isfile (_get_path (strip raw)) then inr (PStr (_get_path (strip raw)))
        else inl (cannot_find_file setting G (_get_path (strip raw)))
    end.
Proof.
  unfold general, _get_setting_from_config, check_file_path.
  destruct (config !! (G, setting)) as [raw|]; simpl; [|reflexivity].
  rewrite andb_false_r. simpl.
  destruct (String.length (strip raw) =? 0)%nat; simpl; [reflexivity|].
  destruct (isfile (_get_path (strip raw))); reflexivity.
Qed.

Lemma truthy_items l : truthy (PList (map PStr l)) = negb (List.length l =? 0)%nat.
Proof. simpl. rewrite length_map. reflexivity. Qed.

Lemma items_of_empty config setting :
  items_of config setting = [] <-> config !! (G, setting) = None.
Proof.
  unfold items_of. destruct (config !! (G, setting)) as [raw|]; split; try congruence.
  intros H. apply (f_equal (@List.length string)) in H.
  rewrite length_map in H. pose proof (split_not_nil "," raw).
  destruct (split "," raw); [congruence|discriminate].
Qed.

Local Abbreviation build :=
  (build_api_client getboolean getint getfloat _get_path isfile PyMISP).

(** Building the client, path by path. *)
Lemma build_api_client_paths config host api_port :
  let api_url := "https://" +:+ format_arg host +:+ ":" +:+ format_arg api_port in
  build config host api_port =
  match get config _GENERAL_API_KEY_CONFIG_PROP PNone Rstr true false with
  | inl e => ([], inl e)
  | inr api_key =>
      match verify config with
      | inl e => ([], inl e)
      | inr ssl =>
          match certs config with
          | inl e => ([], inl e)
          | inr cert =>
              ([ SetupLog INFO "Connecting to API URL: %s" [api_url];
                 NewPyMISP api_url api_key ssl cert ],
               PyMISP api_url api_key ssl cert)
          end
      end
  end.
Proof.
  unfold build_api_client. simpl.
  destruct (get config _GENERAL_API_KEY_CONFIG_PROP PNone Rstr true false) as [e|k];
    simpl; [reflexivity|].
  destruct (verify config) as [e|ssl]; simpl; [reflexivity|].
  destruct (certs config) as [e|cert]; simpl; [reflexivity|].
  destruct (PyMISP _ k ssl cert); reflexivity.
Qed.

(** Loading, path by path. *)
Lemma on_load_configuration_paths config :
  load config =
  let log := SetupLog INFO "On 'load configuration' callback." [] in
  match get config _GENERAL_HOST_CONFIG_PROP PNone Rstr true false with
  | inl e => ([log], inl e)
  | inr host =>
      match get config _GENERAL_API_PORT_CONFIG_PROP (PInt _DEFAULT_API_PORT)
              Rint false false with
      | inl e => ([log], inl e)
      | inr api_port =>
          match client_block' config host api_port with
          | (tc, inl e) => (log :: tc, inl e)
          | (tc, inr api_client) =>
              match start_block' config host with
              | (tz, inl e) => (log :: tc ++ tz, inl e)
              | (tz, inr started) =>
                  (log :: tc ++ tz,
                   inr {| service :=
                            {| _service_unique_id :=
                                 strip <$> config !! (G, _GENERAL_SERVICE_UNIQUE_ID_PROP);
                               _api_client := default ∅ api_client;
                               _api_names := items_of config _GENERAL_API_NAMES_CONFIG_PROP |};
                          api_client_built := bool_decide (is_Some api_client);
                          _zeromq_notification_topics :=
                            items_of config _GENERAL_ZEROMQ_NOTIFICATION_TOPICS_CONFIG_PROP;
                          listener := {| __destroyed := false;
                                         _zeromq_socket := started;
                                         _zeromq_thread := started |} |})
              end
          end
      end
  end.
Proof.
  unfold on_load_configuration, client_block, start_block.
  rewrite load_service_unique_id_value. fold G.
  change (general getboolean getint getfloat _get_path isfile) with get.
  rewrite !get_list.
  destruct (get config _GENERAL_HOST_CONFIG_PROP PNone Rstr true false) as [e|host];
    [reflexivity|].
  destruct (get config _GENERAL_API_PORT_CONFIG_PROP (PInt _DEFAULT_API_PORT) Rint false false)
    as [e|api_port]; [reflexivity|].
  cbn -[texts_of truthy items_of general format_arg _start_zeromq_listener build_api_client].
  rewrite !truthy_items, !texts_of_texts.
  destruct (items_of config _GENERAL_API_NAMES_CONFIG_PROP) as [|n ns];
    destruct (items_of config _GENERAL_ZEROMQ_NOTIFICATION_TOPICS_CONFIG_PROP) as [|tp tps];
    cbn -[general format_arg _start_zeromq_listener build_api_client];
    try destruct (build config host api_port) as [tc [e|c]];
    cbn -[general format_arg _start_zeromq_listener];
    try destruct (get config _GENERAL_ZEROMQ_PORT_CONFIG_PROP (PInt _DEFAULT_ZEROMQ_PORT)
                    Rint false false) as [e'|zp];
    cbn -[_start_zeromq_listener]; rewrite ?app_nil_r; reflexivity.
Qed.

Lemma get_bool config setting d :
  get config setting (PBool d) Rbool false false
  = match config !! (G, setting) with
    | None => inr (PBool d)
    | Some raw =>
        match getboolean raw with
        | inl ex => inl (unexpected_value setting G ex)
        | inr b => inr (PBool b)
        end
    end.
Proof.
  unfold general, _get_setting_from_config.
  destruct (config !! (G, setting)) as [raw|]; simpl; [|reflexivity].
  destruct (getboolean raw); reflexivity.
Qed.

Lemma get_insert_ne config k v setting d rt required is_file_path :
  k <> setting ->
  get (<[(G, k) := v]> config) setting d rt required is_file_path
  = get config setting d rt required is_file_path.
Proof.
  intros Hne. unfold general, _get_setting_from_config.
  rewrite lookup_insert_ne; [reflexivity|congruence].
Qed.

Lemma items_of_insert_ne config k v setting :
  k <> setting -> items_of (<[(G, k) := v]> config) setting = items_of config setting.
Proof.
  intros Hne. unfold items_of. rewrite lookup_insert_ne; [reflexivity|congruence].
Qed.

Lemma string_length_nonzero s : (String.length s =? 0)%nat = false <-> s <> EmptyString.
Proof. destruct s; simpl; split; congruence. Qed.

(** X5. A service without host does not start: when the host setting is
    absent or blank, loading raises, whatever else the configuration holds;
    it does not return, no client is constructed, no socket is connected and
    no thread is started. *)
Theorem host_is_required config :
  blank config _GENERAL_HOST_CONFIG_PROP ->
  (exists e, (load config).2 = inl e)
  /\ clients_built (load config).1 = []
  /\ connections (load config).1 = []
  /\ threads_started (load config).1 = 0%nat.
Proof.
  unfold blank. intros Hb.
  assert (E : exists msg,
            load config
            = ([SetupLog INFO "On 'load configuration' callback." []],
               inl (ValueError msg))).
  { rewrite on_load_configuration_paths, get_required_text.
    fold G in Hb. destruct (config !! (G, _GENERAL_HOST_CONFIG_PROP)) as [raw|].
    - rewrite Hb. simpl. eexists. reflexivity.
    - eexists. reflexivity. }
  destruct E as [msg ->]. simpl. eauto.
Qed.

(** X6. Without an [apiNames] setting no client is constructed and none of
    the settings that only the client needs is read: whatever is stored
    under the API key, the certificate verification, the bundle, the client
    certificate or the client key, loading does the same. *)
Theorem notifications_only_reads_no_api_setting config k v :
  config !! (G, _GENERAL_API_NAMES_CONFIG_PROP) = None ->
  In k [ _GENERAL_API_KEY_CONFIG_PROP; _GENERAL_VERIFY_CERTIFICATE_CONFIG_PROP;
         _GENERAL_VERIFY_CERT_BUNDLE_CONFIG_PROP;
         _GENERAL_CLIENT_CERTIFICATE_CONFIG_PROP; _GENERAL_CLIENT_KEY_CONFIG_PROP ] ->
  load (<[(G, k) := v]> config) = load config
  /\ clients_built (load config).1 = [].
Proof.
  intros Hn Hk.
  assert (Hitems : items_of config _GENERAL_API_NAMES_CONFIG_PROP = [])
    by (apply items_of_empty; exact Hn).
  assert (Hne : forall setting,
            In setting [ _GENERAL_SERVICE_UNIQUE_ID_PROP; _GENERAL_HOST_CONFIG_PROP;
                         _GENERAL_API_PORT_CONFIG_PROP; _GENERAL_API_NAMES_CONFIG_PROP;
                         _GENERAL_ZEROMQ_NOTIFICATION_TOPICS_CONFIG_PROP;
                         _GENERAL_ZEROMQ_PORT_CONFIG_PROP ] -> k <> setting).
  { intros setting Hs ->. simpl in Hk, Hs.
    repeat (destruct Hk as [Hk|Hk]; [subst; repeat (destruct Hs as [Hs|Hs]; [discriminate|]); exact Hs|]).
    exact Hk. }
  rewrite !on_load_configuration_paths. cbv zeta.
  unfold client_block, start_block.
  rewrite !get_insert_ne, !items_of_insert_ne by (apply Hne; simpl; tauto).
  rewrite lookup_insert_ne by (intros [= E]; revert E; apply Hne; simpl; tauto).
  rewrite Hitems. split; [reflexivity|].
  destruct (get config _GENERAL_HOST_CONFIG_PROP PNone Rstr true false) as [e|host];
    [reflexivity|].
  destruct (get config _GENERAL_API_PORT_CONFIG_PROP (PInt _DEFAULT_API_PORT) Rint false false)
    as [e|api_port]; [reflexivity|].
  destruct (items_of config _GENERAL_ZEROMQ_NOTIFICATION_TOPICS_CONFIG_PROP) as [|tp tps];
    [reflexivity|].
  destruct (get config _GENERAL_ZEROMQ_PORT_CONFIG_PROP (PInt _DEFAULT_ZEROMQ_PORT)
              Rint false false) as [e|zp]; [reflexivity|].
  cbn -[_start_zeromq_listener]. unfold _start_zeromq_listener.
  rewrite !clients_built_app. simpl.
  assert (H : forall l, clients_built
            (flat_map (fun topic => [SetupLog DEBUG "Subscribing to zeromq topic: %s" [topic];
                                     ZmqSubscribe topic]) l) = []).
  { induction l as [|x l IH]; [reflexivity|]. exact IH. }
  rewrite H. reflexivity.
Qed.

Lemma get_int_value config setting d v :
  get config setting (PInt d) Rint false false = inr v ->
  exists z, v = PInt z /\ int_setting getint config setting d z.
Proof.
  rewrite get_int. unfold int_setting. fold G.
  destruct (config !! (G, setting)) as [raw|].
  - destruct (getint raw) as [ex|z]; [discriminate|]. intros [= <-]. eauto.
  - intros [= <-]. eauto.
Qed.

Lemma get_required_text_value config setting v :
  get config setting PNone Rstr true false = inr v ->
  exists text, v = PStr text /\ holds_text config setting text.
Proof.
  rewrite get_required_text. unfold holds_text. fold G.
  destruct (config !! (G, setting)) as [raw|]; [|discriminate].
  destruct (String.length (strip raw) =? 0)%nat eqn:E; [discriminate|].
  intros [= <-]. exists (strip raw). split; [reflexivity|]. exists raw.
  split; [reflexivity|]. split; [reflexivity|]. apply string_length_nonzero. exact E.
Qed.

Lemma client_block_success config host api_port tc client :
  client_block' config host api_port = (tc, inr client) ->
  match config !! (G, _GENERAL_API_NAMES_CONFIG_PROP) with
  | None => tc = [] /\ client = None
  | Some _ =>
      exists key ssl cert attrs,
        let api_url := "https://" +:+ format_arg host +:+ ":" +:+ format_arg api_port in
        holds_text config _GENERAL_API_KEY_CONFIG_PROP key
        /\ verify config = inr ssl /\ certs config = inr cert
        /\ PyMISP api_url (PStr key) ssl cert = inr attrs
        /\ tc = [ SetupLog INFO "Connecting to API URL: %s" [api_url];
                  NewPyMISP api_url (PStr key) ssl cert ]
        /\ client = Some attrs
  end.
Proof.
  unfold client_block. pose proof (items_of_empty config _GENERAL_API_NAMES_CONFIG_PROP) as He.
  destruct (items_of config _GENERAL_API_NAMES_CONFIG_PROP) as [|n ns].
  - destruct He as [He _]. rewrite (He eq_refl). intros [= <- <-]. auto.
  - destruct (config !! (G, _GENERAL_API_NAMES_CONFIG_PROP)) as [raw|];
      [|destruct He as [_ He]; discriminate (He eq_refl)].
    rewrite build_api_client_paths. cbv zeta.
    destruct (get config _GENERAL_API_KEY_CONFIG_PROP PNone Rstr true false) as [e|k] eqn:Ek;
      [discriminate|].
    destruct (get_required_text_value _ _ _ Ek) as (key & -> & Hkey).
    destruct (verify config) as [e|ssl]; [discriminate|].
    destruct (certs config) as [e|cert]; [discriminate|].
    destruct (PyMISP _ (PStr key) ssl cert) as [e|attrs] eqn:Ep; [discriminate|].
    intros [= <- <-]. exists key, ssl, cert, attrs. cbv zeta. auto 10.
Qed.

Lemma start_block_success config host tz started :
  start_block' config host = (tz, inr started) ->
  match config !! (G, _GENERAL_ZEROMQ_NOTIFICATION_TOPICS_CONFIG_PROP) with
  | None => tz = [] /\ started = false
  | Some raw =>
      exists port,
        int_setting getint config _GENERAL_ZEROMQ_PORT_CONFIG_PROP _DEFAULT_ZEROMQ_PORT port
        /\ tz = _start_zeromq_listener (map strip (split "," raw)) host (PInt port)
        /\ started = true
  end.
Proof.
  unfold start_block.
  pose proof (items_of_empty config _GENERAL_ZEROMQ_NOTIFICATION_TOPICS_CONFIG_PROP) as He.
  unfold items_of in *. fold G in *.
  destruct (config !! (G, _GENERAL_ZEROMQ_NOTIFICATION_TOPICS_CONFIG_PROP)) as [raw|].
  - destruct (map strip (split "," raw)) as [|tp tps] eqn:Em;
      [destruct He as [He _]; discriminate (He eq_refl)|].
    destruct (get config _GENERAL_ZEROMQ_PORT_CONFIG_PROP (PInt _DEFAULT_ZEROMQ_PORT)
                Rint false false) as [e|zp] eqn:Ez; [discriminate|].
    destruct (get_int_value _ _ _ _ Ez) as (port & -> & Hport).
    intros [= <- <-]. exists port. auto.
  - intros [= <- <-]. auto.
Qed.

(** What a successful load has gone through. *)
Lemma load_success config t st :
  load config = (t, inr st) ->
  exists host api_port tc client tz started,
    holds_text config _GENERAL_HOST_CONFIG_PROP host
    /\ int_setting getint config _GENERAL_API_PORT_CONFIG_PROP _DEFAULT_API_PORT api_port
    /\ client_block' config (PStr host) (PInt api_port) = (tc, inr client)
    /\ start_block' config (PStr host) = (tz, inr started)
    /\ t = SetupLog INFO "On 'load configuration' callback." [] :: tc ++ tz
    /\ st = {| service :=
                 {| _service_unique_id :=
                      strip <$> config !! (G, _GENERAL_SERVICE_UNIQUE_ID_PROP);
                    _api_client := default ∅ client;
                    _api_names := items_of config _GENERAL_API_NAMES_CONFIG_PROP |};
               api_client_built := bool_decide (is_Some client);
               _zeromq_notification_topics :=
                 items_of config _GENERAL_ZEROMQ_NOTIFICATION_TOPICS_CONFIG_PROP;
               listener := {| __destroyed := false;
                              _zeromq_socket := started;
                              _zeromq_thread := started |} |}.
Proof.
  rewrite on_load_configuration_paths. cbv zeta.
  destruct (get config _GENERAL_HOST_CONFIG_PROP PNone Rstr true false) as [e|h] eqn:Eh;
    [discriminate|].
  destruct (get_required_text_value _ _ _ Eh) as (host & -> & Hhost).
  destruct (get config _GENERAL_API_PORT_CONFIG_PROP (PInt _DEFAULT_API_PORT) Rint false false)
    as [e|p] eqn:Epo; [discriminate|].
  destruct (get_int_value _ _ _ _ Epo) as (api_port & -> & Hport).
  destruct (client_block' config (PStr host) (PInt api_port)) as [tc [e|client]] eqn:Ec;
    [discriminate|].
  destruct (start_block' config (PStr host)) as [tz [e|started]] eqn:Ez; [discriminate|].
  intros [= <- <-]. exists host, api_port, tc, client, tz, started. auto 10.
Qed.

(** X7. After a successful load the client has been built exactly when the
    [apiNames] setting is present, blank or not: then the constructor was
    called once and the API key holds a text that is not blank; otherwise it
    was never called, and the list of names is empty. *)
Theorem client_built_iff_api_names config t st :
  load config = (t, inr st) ->
  (api_client_built st = true <-> is_Some (config !! (G, _GENERAL_API_NAMES_CONFIG_PROP)))
  /\ (_api_names (service st) = [] <-> api_client_built st = false)
  /\ List.length (clients_built t) = (if api_client_built st then 1%nat else 0%nat)
  /\ (api_client_built st = true ->
      exists key, holds_text config _GENERAL_API_KEY_CONFIG_PROP key).
Proof.
  intros H. destruct (load_success _ _ _ H)
    as (host & api_port & tc & client & tz & started & _ & _ & Hc & Hz & -> & ->).
  apply client_block_success in Hc. apply start_block_success in Hz.
  assert (Hz' : clients_built tz = []).
  { destruct (config !! (G, _GENERAL_ZEROMQ_NOTIFICATION_TOPICS_CONFIG_PROP)).
    - destruct Hz as (port & _ & -> & _). apply start_zeromq_listener_effects.
    - destruct Hz as [-> _]. reflexivity. }
  cbn [api_client_built service _api_names].
  change (clients_built (?x :: tc ++ tz)) with (clients_built (tc ++ tz)).
  rewrite clients_built_app, Hz', app_nil_r.
  pose proof (items_of_empty config _GENERAL_API_NAMES_CONFIG_PROP) as He. fold G in He.
  destruct (config !! (G, _GENERAL_API_NAMES_CONFIG_PROP)) as [raw|].
  - destruct Hc as (key & ssl & cert & attrs & Hk & _ & _ & _ & -> & ->). simpl.
    split; [split; eauto|]. split; [split; [intros E; apply He in E|]; discriminate|].
    split; [reflexivity|]. eauto.
  - destruct Hc as [-> ->]. simpl.
    split; [split; [discriminate|intros [? ?]; discriminate]|].
    split; [split; [reflexivity|intros _; apply He; reflexivity]|].
    split; [reflexivity|discriminate].
Qed.

(** X8. When [apiNames] is present, a successful load has called the
    constructor once, with the URL "https://<host>:<port>" made of the trimmed
    host and the API port (443 unless set), the trimmed API key, and the
    verification and certificate arguments; the attributes the registry
    resolves names against are those of the object it returned. *)
Theorem client_constructor_arguments config t st :
  load config = (t, inr st) ->
  is_Some (config !! (G, _GENERAL_API_NAMES_CONFIG_PROP)) ->
  exists host key port ssl cert,
    holds_text config _GENERAL_HOST_CONFIG_PROP host
    /\ holds_text config _GENERAL_API_KEY_CONFIG_PROP key
    /\ int_setting getint config _GENERAL_API_PORT_CONFIG_PROP 443 port
    /\ verify config = inr ssl /\ certs config = inr cert
    /\ clients_built t = [("https://" +:+ host +:+ ":" +:+ pretty port, PStr key, ssl, cert)]
    /\ PyMISP ("https://" +:+ host +:+ ":" +:+ pretty port) (PStr key) ssl cert
       = inr (_api_client (service st)).
Proof.
  intros H [raw Hn]. destruct (load_success _ _ _ H)
    as (host & api_port & tc & client & tz & started & Hh & Hp & Hc & Hz & -> & ->).
  apply client_block_success in Hc. apply start_block_success in Hz.
  assert (Hz' : clients_built tz = []).
  { destruct (config !! (G, _GENERAL_ZEROMQ_NOTIFICATION_TOPICS_CONFIG_PROP)).
    - destruct Hz as (port & _ & -> & _). apply start_zeromq_listener_effects.
    - destruct Hz as [-> _]. reflexivity. }
  rewrite Hn in Hc. destruct Hc as (key & ssl & cert & attrs & Hk & Hv & Hce & Hpy & -> & ->).
  exists host, key, api_port, ssl, cert.
  change (clients_built (?x :: ?a ++ tz)) with (clients_built (a ++ tz)).
  rewrite clients_built_app, Hz'. simpl in *. auto 10.
Qed.

(** X9. After a successful load the listener has been started exactly when
    the [zeroMqNotificationTopics] setting is present, blank or not: then one
    socket was connected to "tcp://<host>:<port>" (port 50000 unless set), it
    was subscribed once to each trimmed item of the setting, in order, and
    one thread was started; otherwise nothing was connected, subscribed or
    started. The destroyed flag is clear either way. *)
Theorem listener_started_iff_topics config t st :
  load config = (t, inr st) ->
  _zeromq_notification_topics st
  = items_of config _GENERAL_ZEROMQ_NOTIFICATION_TOPICS_CONFIG_PROP
  /\ match config !! (G, _GENERAL_ZEROMQ_NOTIFICATION_TOPICS_CONFIG_PROP) with
     | None =>
         connections t = [] /\ subscriptions t = [] /\ threads_started t = 0%nat
         /\ listener st = {| __destroyed := false; _zeromq_socket := false;
                             _zeromq_thread := false |}
     | Some raw =>
         exists host port,
           holds_text config _GENERAL_HOST_CONFIG_PROP host
           /\ int_setting getint config _GENERAL_ZEROMQ_PORT_CONFIG_PROP 50000 port
           /\ connections t = ["tcp://" +:+ host +:+ ":" +:+ pretty port]
           /\ subscriptions t = map strip (split "," raw)
           /\ threads_started t = 1%nat
           /\ listener st = {| __destroyed := false; _zeromq_socket := true;
                               _zeromq_thread := true |}
     end.
Proof.
  intros H. destruct (load_success _ _ _ H)
    as (host & api_port & tc & client & tz & started & Hh & Hp & Hc & Hz & -> & ->).
  apply client_block_success in Hc. apply start_block_success in Hz.
  split; [reflexivity|].
  assert (Hc' : connections tc = [] /\ subscriptions tc = [] /\ threads_started tc = 0%nat).
  { destruct (config !! (G, _GENERAL_API_NAMES_CONFIG_PROP)).
    - destruct Hc as (key & ssl & cert & attrs & _ & _ & _ & _ & -> & _). auto.
    - destruct Hc as [-> _]. auto. }
  destruct Hc' as (C1 & C2 & C3).
  change (connections (?x :: tc ++ tz)) with (connections (tc ++ tz)).
  change (subscriptions (?x :: tc ++ tz)) with (subscriptions (tc ++ tz)).
  change (threads_started (?x :: tc ++ tz)) with (threads_started (tc ++ tz)).
  rewrite connections_app, subscriptions_app, threads_started_app, C1, C2, C3.
  cbn [listener app Nat.add].
  destruct (config !! (G, _GENERAL_ZEROMQ_NOTIFICATION_TOPICS_CONFIG_PROP)) as [raw|].
  - destruct Hz as (port & Hport & -> & ->). exists host, port.
    destruct (start_zeromq_listener_effects (map strip (split "," raw)) (PStr host) (PInt port))
      as (E1 & E2 & E3 & _).
    rewrite E1, E2, E3. simpl. auto 10.
  - destruct Hz as [-> ->]. auto.
Qed.

(** X10. After a successful load the registry works on the trimmed items of
    [apiNames], on the attributes of the object the constructor returned and
    on the trimmed unique id. A blank [apiNames] therefore builds a client
    for the one empty name, which no object has: registration then logs one
    warning and registers nothing. *)
Theorem loaded_names_reach_the_registry config t st :
  load config = (t, inr st) ->
  _api_names (service st) = items_of config _GENERAL_API_NAMES_CONFIG_PROP
  /\ _service_unique_id (service st)
     = strip <$> config !! (G, _GENERAL_SERVICE_UNIQUE_ID_PROP)
  /\ (forall raw,
        config !! (G, _GENERAL_API_NAMES_CONFIG_PROP) = Some raw ->
        strip raw = EmptyString ->
        _api_client (service st) !! EmptyString = None ->
        api_client_built st = true
        /\ on_register_services (service st) = [invalid_name_warning EmptyString]).
Proof.
  intros H. destruct (load_success _ _ _ H)
    as (host & api_port & tc & client & tz & started & _ & _ & Hc & _ & -> & ->).
  apply client_block_success in Hc.
  cbn [service _api_names _service_unique_id _api_client api_client_built] in *.
  split; [reflexivity|]. split; [reflexivity|].
  intros raw Hraw Hblank Hattr. rewrite Hraw in Hc.
  destruct Hc as (key & ssl & cert & attrs & _ & _ & _ & _ & _ & ->).
  split; [reflexivity|]. cbn [default] in *.
  unfold on_register_services. cbn [_api_names].
  unfold items_of. fold G. rewrite Hraw.
  pose proof Hblank as Hs. apply strip_empty, blank_has_no_comma in Hs.
  rewrite (split_without_sep _ _ Hs). cbn [map]. rewrite Hblank.
  cbn [resolve_api_names]. unfold _get_api_method. cbn [_api_client].
  rewrite Hattr. reflexivity.
Qed.

Lemma get_path_value config setting v :
  get config setting PNone Rstr false true = inr v ->
  (truthy v = false /\ blank config setting)
  \/ (truthy v = false /\ exists text, holds_text config setting text
                                       /\ _get_path text = EmptyString)
  \/ exists text p, holds_text config setting text /\ p = _get_path text
                    /\ v = PStr p /\ p <> EmptyString /\ isfile p = true.
Proof.
  rewrite get_path. unfold blank, holds_text. fold G.
  destruct (config !! (G, setting)) as [raw|]; [|intros [= <-]; auto].
  destruct (String.length (strip raw) =? 0)%nat eqn:E.
  - intros [= <-]. left. simpl. rewrite E. split; [reflexivity|].
    apply string_length_zero. exact E.
  - apply string_length_nonzero in E.
    destruct (isfile (_get_path (strip raw))) eqn:Hf; [|discriminate].
    intros [= <-]. destruct (_get_path (strip raw)) as [|a p] eqn:Hp.
    + right. left. split; [reflexivity|]. exists (strip raw). split; [eauto|exact Hp].
    + right. right. exists (strip raw), (String a p). rewrite Hp. split; [eauto|].
      split; [reflexivity|]. split; [reflexivity|]. split; [discriminate|exact Hf].
Qed.


(** X11. Certificate verification is switched off exactly by a
    [verifyCertificate] setting that reads as false, and then the bundle
    setting is not read at all, whatever it holds. Otherwise the argument
    passed is [True] or a non-empty bundle path that names an existing
    file. *)
Theorem verification_argument config :
  (forall raw v,
     config !! (G, _GENERAL_VERIFY_CERTIFICATE_CONFIG_PROP) = Some raw ->
     getboolean raw = inr false ->
     verify (<[(G, _GENERAL_VERIFY_CERT_BUNDLE_CONFIG_PROP) := v]> config) = inr (PBool false))
  /\ (verify config = inr (PBool false) <->
      exists raw, config !! (G, _GENERAL_VERIFY_CERTIFICATE_CONFIG_PROP) = Some raw
                  /\ getboolean raw = inr false)
  /\ (forall ssl, verify config = inr ssl ->
        ssl = PBool false \/ ssl = PBool true
        \/ exists bundle, holds_text config _GENERAL_VERIFY_CERT_BUNDLE_CONFIG_PROP bundle
                          /\ ssl = PStr (_get_path bundle)
                          /\ _get_path bundle <> EmptyString
                          /\ isfile (_get_path bundle) = true).
Proof.
  unfold verify_argument.
  change (general getboolean getint getfloat _get_path isfile) with get.
  split; [|split].
  - intros raw v Hraw Hb. rewrite get_insert_ne by discriminate.
    rewrite get_bool. fold G in Hraw. rewrite Hraw, Hb. reflexivity.
  - rewrite get_bool.
    destruct (config !! (G, _GENERAL_VERIFY_CERTIFICATE_CONFIG_PROP)) as [raw|].
    + destruct (getboolean raw) as [ex|[]] eqn:Eb; simpl.
      * split; [discriminate|intros (r & [= <-] & ?); congruence].
      * split; [|intros (r & [= <-] & ?); congruence].
        destruct (get config _GENERAL_VERIFY_CERT_BUNDLE_CONFIG_PROP PNone Rstr false true)
          as [e|b] eqn:Eg; simpl; [discriminate|].
        destruct (truthy b) eqn:Hb; [|discriminate]. intros [= ->]. discriminate.
      * split; eauto.
    + simpl. split; [|intros (r & ? & _); discriminate].
      destruct (get config _GENERAL_VERIFY_CERT_BUNDLE_CONFIG_PROP PNone Rstr false true)
        as [e|b] eqn:Eg; simpl; [discriminate|].
      destruct (truthy b) eqn:Hb; [|discriminate]. intros [= ->]. discriminate.
  - intros ssl.
    destruct (get config _GENERAL_VERIFY_CERTIFICATE_CONFIG_PROP (PBool true) Rbool false false)
      as [e|vc] eqn:Ev; simpl; [discriminate|].
    rewrite get_bool in Ev.
    assert (Hvc : exists b, vc = PBool b).
    { destruct (config !! (G, _GENERAL_VERIFY_CERTIFICATE_CONFIG_PROP)) as [raw|].
      - destruct (getboolean raw); [discriminate|]. injection Ev as <-. eauto.
      - injection Ev as <-. eauto. }
    destruct Hvc as [b ->]. destruct b; simpl; [|intros [= <-]; auto].
    destruct (get config _GENERAL_VERIFY_CERT_BUNDLE_CONFIG_PROP PNone Rstr false true)
      as [e|bd] eqn:Eg; simpl; [discriminate|].
    destruct (get_path_value _ _ _ Eg) as [[Hf _]|[[Hf _]|(text & p & Ht & -> & -> & Hne & Hfile)]].
    + rewrite Hf. intros [= <-]. auto.
    + rewrite Hf. intros [= <-]. auto.
    + assert (Htr : truthy (PStr (_get_path text)) = true).
      { simpl. destruct (_get_path text); [congruence|reflexivity]. }
      rewrite Htr. intros [= <-]. right. right. exists text. auto.
Qed.


End LoadConfigurationFacts.

Lemma host_is_required_witness :
  (exists e, (Deployment.load Deployment.no_host).2 = inl e)
  /\ clients_built (Deployment.load Deployment.no_host).1 = []
  /\ connections (Deployment.load Deployment.no_host).1 = []
  /\ threads_started (Deployment.load Deployment.no_host).1 = 0%nat.
Proof.
  apply (host_is_required Sample.getboolean Sample.getint Sample.getfloat
           Sample._get_path Deployment.isfile Deployment.PyMISP Deployment.no_host).
  vm_compute. reflexivity.
Defined.

Lemma notifications_only_witness :
  Deployment.load (<[("General", "apiKey") := "0123abcd"]> Deployment.relay_only)
  = Deployment.load Deployment.relay_only
  /\ clients_built (Deployment.load Deployment.relay_only).1 = [].
Proof.
  apply (notifications_only_reads_no_api_setting Sample.getboolean Sample.getint Sample.getfloat
           Sample._get_path Deployment.isfile Deployment.PyMISP
           Deployment.relay_only "apiKey" "0123abcd").
  - reflexivity.
  - left. reflexivity.
Defined.

Lemma client_built_witness :
  let st := Deployment.state Deployment.full in
  let t := (Deployment.load Deployment.full).1 in
  (api_client_built st = true <-> is_Some (Deployment.full !! ("General", "apiNames")))
  /\ (_api_names (service st) = [] <-> api_client_built st = false)
  /\ List.length (clients_built t) = (if api_client_built st then 1%nat else 0%nat)
  /\ (api_client_built st = true -> exists key, holds_text Deployment.full "apiKey" key).
Proof.
  apply (client_built_iff_api_names Sample.getboolean Sample.getint Sample.getfloat
           Sample._get_path Deployment.isfile Deployment.PyMISP Deployment.full).
  vm_compute. reflexivity.
Defined.

Lemma client_constructor_witness :
  exists host key port ssl cert,
    holds_text Deployment.full "host" host
    /\ holds_text Deployment.full "apiKey" key
    /\ int_setting Sample.getint Deployment.full "apiPort" 443 port
    /\ verify_argument Sample.getboolean Sample.getint Sample.getfloat Sample._get_path Deployment.isfile
         Deployment.full = inr ssl
    /\ cert_argument Sample.getboolean Sample.getint Sample.getfloat Sample._get_path Deployment.isfile
         Deployment.full = inr cert
    /\ clients_built (Deployment.load Deployment.full).1
       = [("https://" +:+ host +:+ ":" +:+ pretty port, PStr key, ssl, cert)]
    /\ Deployment.PyMISP ("https://" +:+ host +:+ ":" +:+ pretty port) (PStr key) ssl cert
       = inr (_api_client (service (Deployment.state Deployment.full))).
Proof.
  apply (client_constructor_arguments Sample.getboolean Sample.getint Sample.getfloat
           Sample._get_path Deployment.isfile Deployment.PyMISP Deployment.full).
  - vm_compute. reflexivity.
  - vm_compute. eexists. reflexivity.
Defined.

Lemma listener_started_witness :
  _zeromq_notification_topics (Deployment.state Deployment.full)
  = items_of Deployment.full "zeroMqNotificationTopics"
  /\ match Deployment.full !! ("General", "zeroMqNotificationTopics") with
     | None =>
         connections (Deployment.load Deployment.full).1 = []
         /\ subscriptions (Deployment.load Deployment.full).1 = []
         /\ threads_started (Deployment.load Deployment.full).1 = 0%nat
         /\ listener (Deployment.state Deployment.full)
            = {| __destroyed := false; _zeromq_socket := false; _zeromq_thread := false |}
     | Some raw =>
         exists host port,
           holds_text Deployment.full "host" host
           /\ int_setting Sample.getint Deployment.full "zeroMqPort" 50000 port
           /\ connections (Deployment.load Deployment.full).1
              = ["tcp://" +:+ host +:+ ":" +:+ pretty port]
           /\ subscriptions (Deployment.load Deployment.full).1 = map strip (split "," raw)
           /\ threads_started (Deployment.load Deployment.full).1 = 1%nat
           /\ listener (Deployment.state Deployment.full)
              = {| __destroyed := false; _zeromq_socket := true; _zeromq_thread := true |}
     end.
Proof.
  apply (listener_started_iff_topics Sample.getboolean Sample.getint Sample.getfloat
           Sample._get_path Deployment.isfile Deployment.PyMISP Deployment.full).
  vm_compute. reflexivity.
Defined.

Lemma blank_names_witness :
  let st := Deployment.state Deployment.blank_names in
  _api_names (service st) = items_of Deployment.blank_names "apiNames"
  /\ _service_unique_id (service st)
     = strip <$> Deployment.blank_names !! ("General", "serviceUniqueId")
  /\ (forall raw,
        Deployment.blank_names !! ("General", "apiNames") = Some raw ->
        strip raw = EmptyString ->
        _api_client (service st) !! EmptyString = None ->
        api_client_built st = true
        /\ on_register_services (service st) = [invalid_name_warning EmptyString]).
Proof.
  apply (loaded_names_reach_the_registry Sample.getboolean Sample.getint Sample.getfloat
           Sample._get_path Deployment.isfile Deployment.PyMISP Deployment.blank_names
           (Deployment.load Deployment.blank_names).1).
  vm_compute. reflexivity.
Defined.

(** ** Topics and registration, further *)

(** X13. Request topics and notification topics are disjoint: whatever the
    unique ids, the method name and the notification topic, a request
    callback is never registered on a topic the relay publishes to. *)
Theorem request_and_event_topics_differ (uid uid' : option string) (name topic : string) :
  service_topic uid name <> full_event_topic uid' topic.
Proof.
  unfold service_topic, full_event_topic, _SERVICE_TYPE,
    _ZEROMQ_NOTIFICATIONS_EVENT_TOPIC, _SERVICE_BASE_NAME.
  simpl. intros H. discriminate H.
Qed.

(** X14. Within one service the topic tells the method name: two request
    callbacks share a topic only when their methods share a [__name__]; and
    [on_register_services] adds as many callbacks as [api_names] has
    invocable entries, repeated names counted each time. *)
Theorem callbacks_by_name (self : MispService) :
  (forall name name',
     service_topic (_service_unique_id self) name
     = service_topic (_service_unique_id self) name' -> name = name')
  /\ List.length (callbacks (on_register_services self))
     = List.length (List.filter (invocable self) (_api_names self))
  /\ Forall (fun cb => cb.1 = service_topic (_service_unique_id self) (__name__ cb.2))
       (callbacks (on_register_services self)).
Proof.
  split; [|split].
  - unfold service_topic. intros name name' H.
    repeat apply String.app_inj in H. exact H.
  - rewrite callbacks_on_register_services, length_map.
    symmetry. eapply Forall2_length. apply resolved_are_the_invocable.
  - rewrite callbacks_on_register_services. apply Forall_map, Forall_forall.
    intros m _. reflexivity.
Qed.

(** ** Request handler, further *)

Lemma decimal_value_acc acc s :
  decimal_value acc s = (acc * 10 ^ Z.of_nat (String.length s) + decimal_value 0 s)%Z.
Proof.
  revert acc. induction s as [|c s IH]; intros acc; simpl decimal_value.
  - simpl. lia.
  - rewrite IH, (IH (10 * 0 + _)%Z).
    change (String.length (String c s)) with (S (String.length s)).
    rewrite Nat2Z.inj_succ, Z.pow_succ_r by lia. lia.
Qed.

Lemma pretty_N_char_digit d :
  (d < 10)%N ->
  isdecimal_char (pretty_N_char d) = true
  /\ (Z.of_nat (code (pretty_N_char d)) - 48 = Z.of_N d)%Z.
Proof.
  intros Hd.
  assert (H : (d = 0 \/ d = 1 \/ d = 2 \/ d = 3 \/ d = 4 \/ d = 5 \/ d = 6
               \/ d = 7 \/ d = 8 \/ d = 9)%N) by lia.
  repeat (destruct H as [-> | H]; [split; reflexivity|]). subst. split; reflexivity.
Qed.

(** The digits [pretty] writes in front of a text of digits. *)
Lemma pretty_N_go_decimal x s :
  forall_chars isdecimal_char s = true ->
  forall_chars isdecimal_char (pretty_N_go x s) = true
  /\ (decimal_value 0 (pretty_N_go x s)
      = Z.of_N x * 10 ^ Z.of_nat (String.length s) + decimal_value 0 s)%Z
  /\ (s <> EmptyString \/ (0 < x)%N -> pretty_N_go x s <> EmptyString).
Proof.
  revert s. induction (N.lt_wf_0 x) as [x _ IH]. intros s Hs.
  destruct (decide (x = 0%N)) as [->|Hx].
  - rewrite pretty_N_go_0. split; [exact Hs|]. split; [simpl; lia|].
    intros [H|H]; [exact H|lia].
  - rewrite pretty_N_go_step by lia.
    assert (Hd : (x `mod` 10 < 10)%N) by (apply N.mod_lt; lia).
    destruct (pretty_N_char_digit _ Hd) as [Hc Hv].
    destruct (IH (x `div` 10)%N) with (s := String (pretty_N_char (x `mod` 10)) s)
      as (H1 & H2 & H3).
    + apply N.div_lt; lia.
    + simpl. rewrite Hc, Hs. reflexivity.
    + split; [exact H1|]. split.
      * rewrite H2. simpl decimal_value. rewrite (decimal_value_acc (10 * 0 + _)%Z).
        change (String.length (String ?c s)) with (S (String.length s)).
        rewrite Nat2Z.inj_succ, Z.pow_succ_r by lia. rewrite Hv.
        pose proof (N.div_mod x 10 ltac:(lia)) as Hdm.
        assert (Z.of_N x = 10 * Z.of_N (x `div` 10) + Z.of_N (x `mod` 10))%Z by lia.
        nia.
      * intros _. apply H3. left. discriminate.
Qed.

(** The text [str(n)] of a natural number: decimal digits, at least one,
    writing [n]. *)
Lemma pretty_decimal (n : N) :
  forall_chars isdecimal_char (pretty n) = true
  /\ negb (String.length (pretty n) =? 0)%nat = true
  /\ decimal_value 0 (pretty n) = Z.of_N n.
Proof.
  unfold pretty, pretty_N. destruct (decide (n = 0%N)) as [->|Hn]; [auto|].
  destruct (pretty_N_go_decimal n EmptyString eq_refl) as (H1 & H2 & H3).
  split; [exact H1|]. split.
  - destruct (pretty_N_go n "") eqn:E; [|reflexivity].
    exfalso. apply H3; [right; lia|reflexivity].
  - rewrite H2. simpl. lia.
Qed.

(** [int(str(n))] is [n] for every natural number within the limit. *)
Lemma int_of_pretty (n : N) :
  (String.length (pretty n) <=? int_max_str_digits)%nat = true ->
  Py.int (pretty n) = inr (Z.of_N n).
Proof.
  intros Hmax. destruct (pretty_decimal n) as (H1 & H2 & H3).
  unfold Py.int. rewrite H2, H1, Hmax. simpl. rewrite H3. reflexivity.
Qed.

(** X15. The decimal text of a natural number, as Python writes it, is
    replaced by that number, whatever else the payload holds, for every
    number within the limit [int()] puts on the number of digits (4300). *)
Theorem event_number_round_trip (n : N) (d : gmap string pyval) :
  (String.length (pretty n) <=? int_max_str_digits)%nat = true ->
  coerce_event (PDict (<["event" := PStr (pretty n)]> d))
  = inr (<["event" := PInt (Z.of_N n)]> d).
Proof.
  intros Hmax. pose proof (int_of_pretty n Hmax) as Hint.
  destruct (pretty_decimal n) as (H1 & H2 & _).
  unfold coerce_event. rewrite lookup_insert_eq.
  assert (Hd : isdigit (pretty n) = true).
  { unfold isdigit. rewrite H2, (isdecimal_isdigit _ H1). reflexivity. }
  rewrite Hd, Hint. simpl. rewrite insert_insert_eq. reflexivity.
Qed.

(** X16. The [event] repair never adds or removes a field, changes no field
    but [event], leaves no digit text under [event], and applied again
    changes nothing. *)
Theorem coerce_event_shape (d d' : gmap string pyval) :
  coerce_event (PDict d) = inr d' ->
  dom d' = dom d
  /\ (forall k, k <> "event" -> d' !! k = d !! k)
  /\ (forall s, d' !! "event" = Some (PStr s) -> isdigit s = false)
  /\ coerce_event (PDict d') = inr d'.
Proof.
  unfold coerce_event at 1.
  destruct (d !! "event") as [v|] eqn:Ev.
  - assert (Hsame : d' = d -> (forall s, v = PStr s -> isdigit s = false) ->
              dom d' = dom d /\ (forall k, k <> "event" -> d' !! k = d !! k)
              /\ (forall s, d' !! "event" = Some (PStr s) -> isdigit s = false)
              /\ coerce_event (PDict d') = inr d').
    { intros -> Hv. split; [reflexivity|]. split; [reflexivity|]. split.
      - intros s Hs. rewrite Ev in Hs. injection Hs as ->. eauto.
      - apply coerce_event_unchanged. intros s Hs. rewrite Ev in Hs.
        injection Hs as ->. eauto. }
    destruct v;
      try (intros [= E]; symmetry in E; apply Hsame; [exact E|discriminate]).
    destruct (isdigit s) eqn:Hd.
    + destruct (Py.int s) as [e|i]; simpl; [discriminate|]. intros [= <-].
      split; [|split; [|split]].
      * apply dom_insert_lookup_L. eauto.
      * intros k Hk. apply lookup_insert_ne. congruence.
      * intros s' Hs'. rewrite lookup_insert_eq in Hs'. discriminate.
      * apply coerce_event_unchanged. intros s' Hs'.
        rewrite lookup_insert_eq in Hs'. discriminate.
    + intros [= E]. symmetry in E. apply Hsame; [exact E|].
      intros s' [= <-]. exact Hd.
  - intros [= <-]. split; [reflexivity|]. split; [reflexivity|]. split.
    + intros s Hs. congruence.
    + apply coerce_event_unchanged. intros s Hs. congruence.
Qed.

Section RequestHandlerMore.

Variable json_payload_to_dict : string -> result pyval.
Variable dict_to_json_payload : pyval -> result string.

Local Abbreviation handle := (on_request json_payload_to_dict dict_to_json_payload).
Local Abbreviation kwargs_of := (request_dict_of json_payload_to_dict).

(** X17. A payload that does not decode, or that decodes to anything but a
    dict, makes the handler raise before the operation is called: the
    decoder's exception in the first case, a [TypeError] in the second; the
    trace holds the two log lines and nothing else. *)
Theorem undecodable_payload_is_not_dispatched api_method request bytes :
  payload request = Some bytes ->
  payload_set request = true ->
  (forall e, json_payload_to_dict bytes = inl e ->
     handle api_method request = (request_logs request, inl e))
  /\ (forall v, json_payload_to_dict bytes = inr v ->
        match v with PDict _ => False | _ => True end ->
        exists msg, handle api_method request
                    = (request_logs request, inl (TypeError msg))).
Proof.
  intros Hp Hset. split.
  - intros e He. rewrite on_request_paths. unfold request_dict_of.
    rewrite Hset, Hp. simpl. rewrite He. reflexivity.
  - intros v Hv Hnd. rewrite on_request_paths. unfold request_dict_of.
    rewrite Hset, Hp. simpl. rewrite Hv. simpl.
    destruct v; try contradiction; simpl; eexists; reflexivity.
Qed.

(** X18. When the operation returns a value that cannot be serialized, the
    handler raises the serializer's exception after the operation has been
    called: the call has happened, and no response is sent. *)
Theorem unserializable_result_gets_no_response api_method request kw v e :
  kwargs_of request = inr kw ->
  call api_method kw = inr v ->
  dict_to_json_payload v = inl e ->
  handle api_method request = (request_logs request ++ [CallApi kw], inl e)
  /\ api_calls (handle api_method request).1 = [kw]
  /\ responses (handle api_method request).1 = [].
Proof.
  intros Hk Hc Hs. rewrite on_request_paths, Hk, Hc, Hs. auto.
Qed.

(** X19. Whatever the request, the handler calls the operation at most once
    and sends at most one response; it sends one exactly when it returns
    normally, and never without having called the operation. *)
Theorem at_most_one_call_and_response api_method request :
  let t := (handle api_method request).1 in
  let r := (handle api_method request).2 in
  (List.length (api_calls t) <= 1)%nat
  /\ (List.length (responses t) <= List.length (api_calls t))%nat
  /\ (List.length (responses t) = 1%nat <-> r = inr tt).
Proof.
  cbv zeta. rewrite on_request_paths.
  destruct (kwargs_of request) as [e|kw]; simpl.
  - split; [lia|]. split; [lia|]. split; discriminate.
  - destruct (call api_method kw) as [e|v]; simpl.
    + split; [lia|]. split; [lia|]. split; discriminate.
    + destruct (dict_to_json_payload v) as [e|p]; simpl.
      * split; [lia|]. split; [lia|]. split; discriminate.
      * split; [lia|]. split; [lia|]. split; reflexivity.
Qed.

End RequestHandlerMore.

(** ** Notification relay, further *)

(** X20. Runs of the loop compose: a run that is back at its loop test goes
    on with the iterations that follow, and a run that has left the loop,
    by the flag or by an exception, consults nothing further: no later
    iteration polls, receives or sends. *)
Theorem relay_runs_compose (uid : option string) (world later : list iteration) :
  _process_zeromq_messages uid (world ++ later)
  = match (_process_zeromq_messages uid world).2 with
    | AtLoopTest =>
        ((_process_zeromq_messages uid world).1 ++ (_process_zeromq_messages uid later).1,
         (_process_zeromq_messages uid later).2)
    | _ => _process_zeromq_messages uid world
    end.
Proof.
  induction world as [|it rest IH]; simpl.
  - destruct (_process_zeromq_messages uid later). reflexivity.
  - destruct (destroyed_read it); [reflexivity|].
    destruct (loop_body uid it) as [t [e|[]]]; [reflexivity|].
    rewrite IH.
    destruct (_process_zeromq_messages uid rest) as [t' o]. simpl.
    destruct o; try reflexivity.
    rewrite app_assoc. reflexivity.
Qed.

(** X21. A message is received only in an iteration whose poll returned, for
    the socket, exactly the flag [POLLIN]; any other outcome of the poll
    (nothing for the socket, other flags, an exception) receives nothing and
    sends nothing. *)
Theorem receives_only_on_pollin (uid : option string) (it : iteration) :
  (polled it <> PollReturns (Some POLLIN) ->
   receipts (loop_body uid it).1 = [] /\ events_sent (loop_body uid it).1 = [])
  /\ (forall m, polled it = PollReturns (Some POLLIN) -> received it = inr m ->
        receipts (loop_body uid it).1 = [m]
        /\ List.length (events_sent (loop_body uid it).1) = 1%nat).
Proof.
  unfold loop_body. split.
  - intros Hp. destruct (polled it) as [e|[flags|]]; simpl.
    + destruct (is_ZMQError e); simpl; auto.
    + destruct (flags =? POLLIN)%Z eqn:E; simpl; [|auto].
      apply Z.eqb_eq in E. subst. congruence.
    + auto.
  - intros m -> Hm. simpl. unfold forward_message. rewrite Hm. simpl.
    destruct (partition " " m) as [[topic sep] rest]. simpl.
    destruct (sent it); simpl; auto.
Qed.

Lemma relay_next_iteration uid world it later :
  (_process_zeromq_messages uid world).2 = AtLoopTest ->
  destroyed_read it = false ->
  _process_zeromq_messages uid (world ++ it :: later)
  = match loop_body uid it with
    | (t, inl e) => ((_process_zeromq_messages uid world).1 ++ t, Escapes e)
    | (t, inr _) =>
        ((_process_zeromq_messages uid world).1 ++ t
           ++ (_process_zeromq_messages uid later).1,
         (_process_zeromq_messages uid later).2)
    end.
Proof.
  intros Hw Hd. induction world as [|it0 rest IH]; simpl in *.
  - rewrite Hd. destruct (loop_body uid it) as [t [e|[]]]; [reflexivity|].
    destruct (_process_zeromq_messages uid later). reflexivity.
  - destruct (destroyed_read it0); [discriminate|].
    destruct (loop_body uid it0) as [t0 [e|[]]]; [discriminate|].
    destruct (_process_zeromq_messages uid rest) as [t' o]. simpl in *.
    rewrite (IH Hw). destruct (loop_body uid it) as [t [e|[]]].
    + rewrite app_assoc. reflexivity.
    + rewrite <- !app_assoc. reflexivity.
Qed.

(** X22. Only the poll's [ZMQError] is caught. In an iteration the loop
    reaches with the flag clear, any other exception of the poll, an
    exception of [recv_string], or an exception of [send_event] ends the
    loop with that exception: after a failed poll or receive nothing is
    sent, after a failed send the event was handed over once, and no later
    iteration is run. *)
Theorem uncaught_exception_ends_the_relay (uid : option string)
    (world later : list iteration) (it : iteration) (e : exn) :
  (_process_zeromq_messages uid world).2 = AtLoopTest ->
  destroyed_read it = false ->
  let before := (_process_zeromq_messages uid world).1 in
  (polled it = PollRaises e -> is_ZMQError e = false ->
   _process_zeromq_messages uid (world ++ it :: later) = (before ++ [Poll], Escapes e))
  /\ (polled it = PollReturns (Some POLLIN) -> received it = inl e ->
      _process_zeromq_messages uid (world ++ it :: later) = (before ++ [Poll], Escapes e))
  /\ (forall m, polled it = PollReturns (Some POLLIN) -> received it = inr m ->
        sent it = Some e ->
        exists t,
          _process_zeromq_messages uid (world ++ it :: later) = (before ++ t, Escapes e)
          /\ receipts t = [m] /\ List.length (events_sent t) = 1%nat).
Proof.
  intros Hw Hd before. subst before.
  rewrite (relay_next_iteration uid world it later Hw Hd).
  unfold loop_body. split; [|split].
  - intros -> He. simpl. rewrite He. reflexivity.
  - intros -> Hr. simpl. unfold forward_message. rewrite Hr. reflexivity.
  - intros m -> Hr Hs. simpl. unfold forward_message. rewrite Hr, Hs. simpl.
    destruct (partition " " m) as [[topic sep] rest]. simpl.
    eexists. split; [reflexivity|]. auto.
Qed.

Lemma event_number_witness :
  coerce_event (PDict (<["event" := PStr (pretty 2024%N)]> {[ "force" := PBool true ]}))
  = inr (<["event" := PInt (Z.of_N 2024)]> {[ "force" := PBool true ]}).
Proof.
  apply (event_number_round_trip 2024 {[ "force" := PBool true ]}).
  vm_compute. reflexivity.
Defined.

Lemma coerce_event_witness :
  let d : gmap string pyval := <["event" := PStr "42"]> {[ "force" := PBool true ]} in
  let d' : gmap string pyval := <["event" := PInt 42]> {[ "force" := PBool true ]} in
  dom d' = dom d
  /\ (forall k, k <> "event" -> d' !! k = d !! k)
  /\ (forall s, d' !! "event" = Some (PStr s) -> isdigit s = false)
  /\ coerce_event (PDict d') = inr d'.
Proof.
  apply (coerce_event_shape (<["event" := PStr "42"]> {[ "force" := PBool true ]})).
  vm_compute. reflexivity.
Defined.

Lemma undecodable_payload_witness :
  let request := {| destination_topic := "/opendxl-misp/service/misp-api/search";
                    payload := Some "{" |} in
  (forall e, Sample.json_payload_to_dict "{" = inl e ->
     on_request Sample.json_payload_to_dict Sample.dict_to_json_payload
       Deployment.search request = (request_logs request, inl e))
  /\ (forall v, Sample.json_payload_to_dict "{" = inr v ->
        match v with PDict _ => False | _ => True end ->
        exists msg, on_request Sample.json_payload_to_dict Sample.dict_to_json_payload
                      Deployment.search request
                    = (request_logs request, inl (TypeError msg))).
Proof.
  apply (undecodable_payload_is_not_dispatched
           Sample.json_payload_to_dict Sample.dict_to_json_payload).
  - reflexivity.
  - reflexivity.
Defined.

Lemma unserializable_result_witness :
  let request := {| destination_topic := "/opendxl-misp/service/misp-api/get_object";
                    payload := None |} in
  let get_object := {| __name__ := "get_object";
                       call := fun _ => ret (PObj "MISPObject") |} in
  let r := on_request Sample.json_payload_to_dict Sample.dict_to_json_payload
             get_object request in
  r = (request_logs request ++ [CallApi ∅],
       inl (TypeError "MISPObject is not JSON serializable"))
  /\ api_calls r.1 = [∅]
  /\ responses r.1 = [].
Proof.
  apply (unserializable_result_gets_no_response
           Sample.json_payload_to_dict Sample.dict_to_json_payload
           _ _ ∅ (PObj "MISPObject")).
  - reflexivity.
  - reflexivity.
  - reflexivity.
Defined.

Lemma uncaught_exception_witness :
  let it := {| destroyed_read := false;
               polled := PollReturns (Some POLLIN);
               received := inr "misp_json {}";
               sent := Some (Raised "DxlException" "Client is not connected") |} in
  let e := Raised "DxlException" "Client is not connected" in
  let later := [nothing_to_read it] in
  (polled it = PollRaises e -> is_ZMQError e = false ->
   _process_zeromq_messages None ([] ++ it :: later) = ([] ++ [Poll], Escapes e))
  /\ (polled it = PollReturns (Some POLLIN) -> received it = inl e ->
      _process_zeromq_messages None ([] ++ it :: later) = ([] ++ [Poll], Escapes e))
  /\ (forall m, polled it = PollReturns (Some POLLIN) -> received it = inr m ->
        sent it = Some e ->
        exists t,
          _process_zeromq_messages None ([] ++ it :: later) = ([] ++ t, Escapes e)
          /\ receipts t = [m] /\ List.length (events_sent t) = 1%nat).
Proof.
  apply (uncaught_exception_ends_the_relay None []).
  - reflexivity.
  - reflexivity.
Defined.

(** ** Shutdown *)

Import Shutdown.

Lemma count_app p h1 h2 : count p (h1 ++ h2) = (count p h1 + count p h2)%nat.
Proof. unfold count. rewrite List.filter_app, length_app. reflexivity. Qed.

Lemma lock_excludes s i j p q :
  invariant s -> pcs s !! i = Some p -> pcs s !! j = Some q ->
  holds_lock p = true -> holds_lock q = true -> i = j.
Proof.
  intros I Hi Hj Hp Hq.
  apply (inv_lock s I i p Hi) in Hp. apply (inv_lock s I j q Hj) in Hq. congruence.
Qed.

(** A move of the listener ends the thread, or takes it into or out of
    the body of its loop. *)
Lemma listener_step_cases m s s' :
  listener_step m s = Some s' ->
  _zeromq_thread (self s) = true /\ listener_exited s = false
  /\ ((s' = exit s
       /\ ((m = LoopTest /\ listener_polling s = false /\ __destroyed (self s) = true)
           \/ (m = BodyRaises /\ listener_polling s = true)))
      \/ (s' = set_polling true s /\ m = LoopTest /\ listener_polling s = false
          /\ __destroyed (self s) = false)
      \/ (s' = set_polling false s /\ m = BodyReturns /\ listener_polling s = true)).
Proof.
  unfold listener_step.
  destruct (_zeromq_thread (self s)); [|discriminate].
  destruct (listener_exited s); [discriminate|]. simpl.
  destruct m, (listener_polling s); try discriminate.
  - destruct (__destroyed (self s)); intros [= <-]; auto 10.
  - intros [= <-]. auto 10.
  - intros [= <-]. auto 10.
Qed.

Lemma set_polling_invariant b s : invariant s -> invariant (set_polling b s).
Proof. intros I. destruct I. constructor; simpl; assumption. Qed.

Lemma exit_invariant s : listener_exited s = false -> invariant s -> invariant (exit s).
Proof.
  intros E I. pose proof (inv_exit s I) as Hx. rewrite E in Hx.
  destruct I. constructor; simpl; rewrite ?count_app; simpl; rewrite ?Nat.add_0_r;
    try assumption.
  - intros _. right. intros _. reflexivity.
  - intros. intros _. reflexivity.
  - rewrite Hx. reflexivity.
Qed.

Lemma listener_step_invariant m s s' :
  invariant s -> listener_step m s = Some s' -> invariant s'.
Proof.
  intros I H. destruct (listener_step_cases m s s' H) as (_ & E & [[-> _]|[[-> _]|[-> _]]]).
  - apply exit_invariant; assumption.
  - apply set_polling_invariant, I.
  - apply set_polling_invariant, I.
Qed.

Lemma flagged_holds p : flagged p = true -> holds_lock p = true.
Proof. destruct p; simpl; congruence. Qed.

(** No other caller is inside the [with] block of a caller that is. *)
Lemma others_outside s i p k q :
  invariant s -> pcs s !! i = Some p -> holds_lock p = true ->
  pcs s !! k = Some q -> k <> i -> holds_lock q = false.
Proof.
  intros I Hi Hp Hk Hne. destruct (holds_lock q) eqn:Hq; [|reflexivity].
  exfalso. apply Hne. eapply lock_excludes; eauto.
Qed.

Lemma witness_moves s i p p' :
  pcs s !! i = Some p -> flagged p' = true ->
  exists k q, <[i:=p']> (pcs s) !! k = Some q /\ flagged q = true.
Proof.
  intros Hi Hp'. exists i, p'. split; [|exact Hp'].
  apply list_lookup_insert_eq. eapply lookup_lt_Some. exact Hi.
Qed.

Lemma witness_stays s i p :
  invariant s -> pcs s !! i = Some p -> holds_lock p = true -> flagged p = false ->
  (exists k q, pcs s !! k = Some q /\ flagged q = true) -> False.
Proof.
  intros I Hi Hp Hf (k & q & Hk & Hq).
  assert (k = i) by (eapply lock_excludes; eauto using flagged_holds).
  subst k. congruence.
Qed.

Lemma witness_kept s i p p' :
  pcs s !! i = Some p -> holds_lock p = false ->
  (exists k q, pcs s !! k = Some q /\ flagged q = true) ->
  exists k q, <[i:=p']> (pcs s) !! k = Some q /\ flagged q = true.
Proof.
  intros Hi Hp (k & q & Hk & Hq). exists k, q. split; [|exact Hq].
  rewrite list_lookup_insert_ne; [exact Hk|].
  intros <-. rewrite Hi in Hk. injection Hk as <-.
  apply flagged_holds in Hq. congruence.
Qed.

(** A caller other than the one inside the [with] block cannot be inside. *)
Ltac outside Inv Hi Hk :=
  exfalso;
  match type of Hk with
  | pcs _ !! ?k = Some ?q =>
      let Hout := fresh "Hout" in
      assert (Hout : holds_lock q = false) by
        (eapply (others_outside _ _ _ k q Inv Hi); [reflexivity|exact Hk|congruence]);
      simpl in Hout; congruence
  end.

(** Split a goal about every caller into the caller that moved and the
    others, whose case the invariant before the step settles. *)
Ltac by_caller Inv Hi :=
  let k := fresh "k" in let q := fresh "q" in let Hk := fresh "Hk" in
  match goal with
  | |- forall (k' : nat) (q' : pc), _ !! k' = Some q' -> _ =>
      intros k q Hk;
      apply list_lookup_insert_Some in Hk as [(<- & ? & _) | (? & Hk)];
      [try discriminate; subst; simpl
      |try solve [eauto | outside Inv Hi Hk]]
  | |- forall k' : nat, _ !! k' = Some _ -> _ =>
      intros k Hk;
      apply list_lookup_insert_Some in Hk as [(<- & ? & _) | (? & Hk)];
      [try discriminate
      |try solve [eauto | outside Inv Hi Hk]]
  end.

Ltac open_invariant I Hi :=
  pose proof I as Inv; destruct I; constructor;
  unfold thread_done, count in *; simpl;
  rewrite ?List.filter_app, ?length_app, ?app_nil_r; simpl;
  rewrite ?Nat.add_0_r; try assumption; try by_caller Inv Hi;
  try solve [tauto | congruence | intros [?|?]; discriminate | discriminate].

Lemma caller_step_invariant i s s' :
  invariant s -> caller_step i s = Some s' -> invariant s'.
Proof.
  intros I. unfold caller_step.
  destruct (pcs s !! i) as [p|] eqn:Hi; [|discriminate].
  pose proof (inv_lock s I i p Hi) as Hlock.
  destruct p; simpl in Hlock.
  - (* Start: super().destroy() *)
    intros [= <-]. open_invariant I Hi.
    intros Hd. destruct (inv_joined0 Hd) as [W|T]; [left|right; exact T].
    eapply witness_kept; eauto.
  - (* WaitLock: the lock is taken when free *)
    destruct (lock s) eqn:Hl; [discriminate|].
    intros [= <-]. open_invariant I Hi.
    + specialize (inv_lock0 k q Hk). rewrite Hl in inv_lock0. split.
      * intros Hq. apply inv_lock0 in Hq. discriminate.
      * intros [= ?]. congruence.
    + intros Hd. destruct (inv_joined0 Hd) as [W|T]; [left|right; exact T].
      eapply witness_kept; eauto.
  - (* TestFlag: if not self.__destroyed *)
    destruct (__destroyed (self s)) eqn:Hd; simpl; intros [= <-]; open_invariant I Hi.
    + intros _. right. destruct (inv_joined0 Hd) as [W|T]; [|exact T].
      exfalso. eapply (witness_stays s i TestFlag); eauto.
    + intros _. destruct (inv_joined0 Hd) as [W|T]; [|exact T].
      exfalso. eapply (witness_stays s i TestFlag); eauto.
  - (* SetFlag: self.__destroyed = True *)
    intros [= <-]. open_invariant I Hi.
    + apply inv_fresh0. eauto.
    + intros _. left. eapply witness_moves; eauto.
  - (* CloseSock: if self._zeromq_socket: close *)
    pose proof (inv_flag s I i CloseSock Hi eq_refl) as Hd.
    pose proof (inv_close s I i Hi) as [Hc Hj]. unfold count in Hc, Hj.
    destruct (_zeromq_socket (self s)); intros [= <-]; open_invariant I Hi.
    + lia.
    + intros _. left. eapply witness_moves; eauto.
    + intros _. left. eapply witness_moves; eauto.
  - (* JoinThr: if self._zeromq_thread: join *)
    pose proof (inv_flag s I i JoinThr Hi eq_refl) as Hd.
    pose proof (inv_join s I i Hi) as Hj. unfold count in Hj.
    destruct (_zeromq_thread (self s)) eqn:Ht;
      [destruct (listener_exited s) eqn:Hx; [|discriminate]|];
      intros [= <-]; open_invariant I Hi.
    + lia.
    + intros _. right. congruence.
  - (* Release: leaving the with block *)
    intros [= <-]. open_invariant I Hi.
    + split; discriminate.
    + split; [|discriminate]. intros Hq. outside Inv Hi Hk.
    + intros Hd. right. eapply inv_ret0; eauto.
    + intros _. eapply inv_ret0; eauto.
  - discriminate.
Qed.

Lemma step_invariant a s s' : invariant s -> step a s = Some s' -> invariant s'.
Proof.
  destruct a; simpl; [apply caller_step_invariant|apply listener_step_invariant].
Qed.

Lemma run_invariant schedule s : invariant s -> invariant (run schedule s).
Proof.
  revert s. induction schedule as [|a rest IH]; intros s I; simpl; [exact I|].
  apply IH. destruct (step a s) as [s'|] eqn:E; simpl; [|exact I].
  eapply step_invariant; eauto.
Qed.

Lemma initial_invariant n has_socket has_thread :
  invariant (initial n has_socket has_thread).
Proof.
  constructor; simpl; unfold count; simpl; auto; try discriminate;
    try (intros i p [-> _]%lookup_replicate; simpl;
         first [split; discriminate | discriminate | intros [?|?]; discriminate]);
    try (intros i [? _]%lookup_replicate; discriminate).
Qed.

Lemma step_keeps_fields a s s' :
  step a s = Some s' ->
  _zeromq_socket (self s') = _zeromq_socket (self s)
  /\ _zeromq_thread (self s') = _zeromq_thread (self s).
Proof.
  destruct a as [i|m]; simpl.
  - unfold caller_step.
    destruct (pcs s !! i) as [[]|]; try discriminate;
      try (intros [= <-]; split; reflexivity).
    + destruct (lock s); [discriminate|]. intros [= <-]. split; reflexivity.
    + destruct (negb (__destroyed (self s))); intros [= <-]; split; reflexivity.
    + destruct (_zeromq_socket (self s)) eqn:E; intros [= <-]; simpl; auto.
    + destruct (_zeromq_thread (self s)) eqn:E; [destruct (listener_exited s)|];
        try discriminate; intros [= <-]; simpl; auto.
  - intros H.
    destruct (listener_step_cases m s s' H) as (_ & _ & [[-> _]|[[-> _]|[-> _]]]); auto.
Qed.

Lemma run_keeps_fields schedule s :
  _zeromq_socket (self (run schedule s)) = _zeromq_socket (self s)
  /\ _zeromq_thread (self (run schedule s)) = _zeromq_thread (self s).
Proof.
  revert s. induction schedule as [|a rest IH]; intros s; simpl; [auto|].
  destruct (step a s) as [s'|] eqn:E; simpl; [|apply IH].
  destruct (step_keeps_fields a s s' E) as [<- <-]. apply IH.
Qed.

(** ** Shutdown, further *)

Lemma caller_step_owner i s s' :
  invariant s -> owner_inside s -> caller_step i s = Some s' -> owner_inside s'.
Proof.
  intros I O. unfold caller_step.
  destruct (pcs s !! i) as [p|] eqn:Hi; [|discriminate].
  assert (Hlen : i < List.length (pcs s)) by (eapply lookup_lt_Some; eauto).
  assert (Hkeep : forall p' evs s0,
            lock s0 = lock s -> pcs s0 = pcs s ->
            (holds_lock p = true -> holds_lock p' = true) ->
            owner_inside (move i p' evs s0)).
  { intros p' evs s0 Hl Hp Hh k Hk. simpl in *. rewrite Hl in Hk. rewrite Hp.
    destruct (O k Hk) as (q & Hq & Hhq).
    destruct (decide (k = i)) as [->|Hne].
    - exists p'. rewrite list_lookup_insert_eq by exact Hlen.
      split; [reflexivity|]. apply Hh. congruence.
    - exists q. rewrite list_lookup_insert_ne by congruence. auto. }
  destruct p.
  - intros [= <-]. apply Hkeep; auto; discriminate.
  - destruct (lock s) eqn:Hl; [discriminate|]. intros [= <-].
    intros k Hk. simpl in *. injection Hk as <-. exists TestFlag.
    rewrite list_lookup_insert_eq by exact Hlen. auto.
  - destruct (negb (__destroyed (self s))); intros [= <-]; apply Hkeep; auto.
  - intros [= <-]. apply Hkeep; auto.
  - destruct (_zeromq_socket (self s)); intros [= <-]; apply Hkeep; auto.
  - destruct (_zeromq_thread (self s)); [destruct (listener_exited s); [|discriminate]|];
      intros [= <-]; apply Hkeep; auto.
  - intros [= <-]. intros k Hk. simpl in Hk. discriminate.
  - discriminate.
Qed.

Lemma step_owner a s s' :
  invariant s -> owner_inside s -> step a s = Some s' -> owner_inside s'.
Proof.
  intros I O E. destruct a as [i|m]; simpl in E.
  - eapply caller_step_owner; eauto.
  - destruct (listener_step_cases m s s' E) as (_ & _ & [[-> _]|[[-> _]|[-> _]]]); exact O.
Qed.

Lemma run_owner schedule s :
  invariant s -> owner_inside s -> owner_inside (run schedule s).
Proof.
  revert s. induction schedule as [|a rest IH]; intros s I O; simpl; [exact O|].
  destruct (step a s) as [s'|] eqn:E; simpl; [|apply IH; assumption].
  apply IH; [eapply step_invariant; eauto|]. eapply step_owner; eauto.
Qed.

Lemma initial_owner n has_socket has_thread : owner_inside (initial n has_socket has_thread).
Proof. intros i Hi. discriminate. Qed.

Lemma some_not_done (l : list pc) :
  (forall i p, l !! i = Some p -> p = Done)
  \/ exists i p, l !! i = Some p /\ p <> Done.
Proof.
  induction l as [|q l [IH|(i & p & Hi & Hp)]].
  - left. intros i p Hi. discriminate.
  - destruct q; try (right; exists 0%nat; eexists; split; [reflexivity|discriminate]).
    left. intros [|i] p Hi; [injection Hi as <-; reflexivity|]. eapply IH. exact Hi.
  - right. exists (S i), p. auto.
Qed.

(** X23. In every state the callers can reach, at most one of them is inside
    the [with] block, and the lock is held exactly by that caller. *)
Theorem lock_is_exclusive n has_socket has_thread schedule :
  let s := run schedule (initial n has_socket has_thread) in
  (forall i j p q, pcs s !! i = Some p -> pcs s !! j = Some q ->
     holds_lock p = true -> holds_lock q = true -> i = j)
  /\ (forall i p, pcs s !! i = Some p -> holds_lock p = true -> lock s = Some i)
  /\ (forall i, lock s = Some i ->
        exists p, pcs s !! i = Some p /\ holds_lock p = true).
Proof.
  intros s.
  pose proof (run_invariant schedule _ (initial_invariant n has_socket has_thread)) as I.
  pose proof (run_owner schedule _ (initial_invariant n has_socket has_thread)
                (initial_owner n has_socket has_thread)) as O.
  fold s in I, O. split; [|split].
  - intros i j p q Hi Hj Hp Hq. eapply lock_excludes; eauto.
  - intros i p Hi Hp. apply (inv_lock s I i p Hi). exact Hp.
  - exact O.
Qed.

Lemma caller_can_step k s s' :
  caller_step k s = Some s' -> exists i, is_Some (caller_step i s).
Proof. intros E. exists k. rewrite E. eauto. Qed.

(** Where a shutdown stands: every caller has returned, a caller can make
    its next step, the listener is at a loop test that reads the flag as
    set, or the caller that holds the lock waits in [join] for a listener
    that is inside the body of its loop. *)
Lemma blocked_on_poll s :
  invariant s -> owner_inside s ->
  all_returned s
  \/ (exists i, is_Some (caller_step i s))
  \/ (__destroyed (self s) = true /\ listener_step LoopTest s = Some (exit s))
  \/ (__destroyed (self s) = true /\ _zeromq_thread (self s) = true
      /\ listener_polling s = true /\ listener_exited s = false
      /\ exists i, pcs s !! i = Some JoinThr /\ lock s = Some i).
Proof.
  intros I O.
  destruct (some_not_done (pcs s)) as [Hall|(i & p & Hi & Hp)]; [left; exact Hall|].
  right. destruct (lock s) as [k|] eqn:Hl.
  - destruct (O k Hl) as (q & Hk & Hq).
    pose proof (inv_flag s I k q Hk) as Hflag.
    destruct q; try discriminate.
    + left. destruct (__destroyed (self s)) eqn:Hd;
        eapply (caller_can_step k); unfold caller_step; rewrite Hk, Hd; reflexivity.
    + left. eapply (caller_can_step k); unfold caller_step; rewrite Hk; reflexivity.
    + left. destruct (_zeromq_socket (self s)) eqn:Hs;
        eapply (caller_can_step k); unfold caller_step; rewrite Hk, Hs; reflexivity.
    + specialize (Hflag eq_refl).
      destruct (_zeromq_thread (self s)) eqn:Ht;
        [destruct (listener_exited s) eqn:Hx|].
      * left. eapply (caller_can_step k); unfold caller_step; rewrite Hk, Ht, Hx; reflexivity.
      * right. destruct (listener_polling s) eqn:Hpoll.
        -- right. repeat split; try assumption. exists k. auto.
        -- left. split; [exact Hflag|]. unfold listener_step.
           rewrite Ht, Hx, Hpoll, Hflag. reflexivity.
      * left. eapply (caller_can_step k); unfold caller_step; rewrite Hk, Ht; reflexivity.
    + left. eapply (caller_can_step k); unfold caller_step; rewrite Hk; reflexivity.
  - left. exists i. unfold caller_step. rewrite Hi, Hl.
    pose proof (inv_lock s I i p Hi) as Hlock. rewrite Hl in Hlock.
    destruct p; try (exfalso; destruct Hlock as [Hlock _]; discriminate (Hlock eq_refl));
      try congruence; eauto.
Qed.

(** X24. A shutdown can block only on the listener's poll: in every state
    the callers and the listener can reach, either every caller has
    returned, or some caller can make its next step, or the flag is set and
    the listener, at its loop test, leaves the loop, or the flag is set, the
    caller that holds the lock waits in [join], and the listener is inside
    the body of its loop, which nothing in [destroy] ends. *)
Theorem shutdown_blocks_only_on_poll n has_socket has_thread schedule :
  let s := run schedule (initial n has_socket has_thread) in
  all_returned s
  \/ (exists i, is_Some (step (Caller i) s))
  \/ (__destroyed (self s) = true /\ step (Listener LoopTest) s = Some (exit s))
  \/ (__destroyed (self s) = true /\ has_thread = true
      /\ listener_polling s = true /\ listener_exited s = false
      /\ exists i, pcs s !! i = Some JoinThr /\ lock s = Some i).
Proof.
  intros s.
  pose proof (run_invariant schedule _ (initial_invariant n has_socket has_thread)) as I.
  pose proof (run_owner schedule _ (initial_invariant n has_socket has_thread)
                (initial_owner n has_socket has_thread)) as O.
  fold s in I, O.
  destruct (blocked_on_poll s I O) as [H|[H|[H|(Hd & Ht & H)]]]; auto.
  right. right. right. split; [exact Hd|]. split; [|exact H].
  unfold s in Ht.
  destruct (run_keeps_fields schedule (initial n has_socket has_thread)) as [_ E].
  rewrite E in Ht. exact Ht.
Qed.






Lemma effects_of_app i h1 h2 : effects_of i (h1 ++ h2) = effects_of i h1 ++ effects_of i h2.
Proof. apply omap_app. Qed.

Lemma initial_teardown_invariant n has_socket has_thread :
  teardown_invariant has_socket has_thread (initial n has_socket has_thread).
Proof.
  constructor; simpl; try reflexivity; try discriminate.
  - intros i p [-> _]%lookup_replicate. reflexivity.
  - intros i [? _]%lookup_replicate. discriminate.
  - intros i p [-> _]%lookup_replicate [?|?]; discriminate.
Qed.

Lemma set_polling_teardown hs ht b s :
  teardown_invariant hs ht s -> teardown_invariant hs ht (set_polling b s).
Proof. intros T. destruct T. constructor; simpl; assumption. Qed.

Lemma exit_teardown hs ht s :
  teardown_invariant hs ht s -> teardown_invariant hs ht (exit s).
Proof.
  intros T. destruct T. constructor; simpl; try assumption.
  - intros i p Hi. rewrite effects_of_app. simpl. rewrite app_nil_r. eauto.
  - unfold count in *. rewrite !List.filter_app, !length_app. simpl.
    rewrite !Nat.add_0_r. assumption.
  - unfold count in *. rewrite !List.filter_app, !length_app. simpl.
    rewrite !Nat.add_0_r. assumption.
  - unfold count in *. rewrite !List.filter_app, !length_app. simpl.
    rewrite !Nat.add_0_r. assumption.
Qed.

Lemma listener_step_teardown hs ht m s s' :
  teardown_invariant hs ht s -> listener_step m s = Some s' ->
  teardown_invariant hs ht s'.
Proof.
  intros T H. destruct (listener_step_cases m s s' H) as (_ & _ & [[-> _]|[[-> _]|[-> _]]]).
  - apply exit_teardown, T.
  - apply set_polling_teardown, T.
  - apply set_polling_teardown, T.
Qed.

(** The effects of a caller are untouched by the step of another. *)
Ltac other_effects :=
  match goal with
  | Hne : ?i <> ?k |- context [effects_of ?k _] =>
      rewrite ?effects_of_app; simpl;
      rewrite ?(proj2 (Nat.eqb_neq i k) Hne), ?app_nil_r; eauto
  end.

Ltac own_effects E :=
  rewrite ?effects_of_app, ?E; simpl; rewrite ?Nat.eqb_refl, ?app_nil_r; simpl.

Ltac open_teardown T Inv Hi :=
  destruct T as [inv_socket0 inv_thread0 inv_effects0 inv_settled0 inv_closed0
                 inv_finished0];
  constructor; unfold count in *; simpl;
  rewrite ?List.filter_app, ?length_app, ?app_nil_r; simpl;
  rewrite ?Nat.add_0_r; try assumption; try by_caller Inv Hi;
  try solve [tauto | congruence | intros [?|?]; discriminate | discriminate
            | other_effects].

Lemma caller_step_teardown hs ht i s s' :
  invariant s -> teardown_invariant hs ht s -> caller_step i s = Some s' ->
  teardown_invariant hs ht s'.
Proof.
  intros Inv T. unfold caller_step.
  destruct (pcs s !! i) as [p|] eqn:Hi; [|discriminate].
  pose proof (inv_effects hs ht s T i p Hi) as E.
  pose proof (inv_socket hs ht s T) as Hsk. pose proof (inv_thread hs ht s T) as Hth.
  subst hs ht.
  assert (Hsettled : __destroyed (self s) = true -> holds_lock p = true -> flagged p = false ->
            count is_close (history s) = once (_zeromq_socket (self s))
            /\ count is_join (history s) = once (_zeromq_thread (self s))).
  { intros Hd Hp Hf. destruct (inv_settled _ _ s T Hd) as [W|C]; [|exact C].
    exfalso. eapply (witness_stays s i p); eauto. }
  unfold count in Hsettled.
  destruct p; simpl in E.
  - intros [= <-]. open_teardown T Inv Hi.
    + own_effects E. reflexivity.
    + intros Hd. destruct (inv_settled0 Hd) as [W|C]; [left|right; exact C].
      eapply witness_kept; eauto.
  - destruct (lock s) eqn:Hl; [discriminate|].
    intros [= <-]. open_teardown T Inv Hi.
    intros Hd. destruct (inv_settled0 Hd) as [W|C]; [left|right; exact C].
    eapply witness_kept; eauto.
  - destruct (__destroyed (self s)) eqn:Hd; simpl; intros [= <-]; open_teardown T Inv Hi.
  - intros [= <-]. open_teardown T Inv Hi.
    + intros _. left. eapply witness_moves; eauto.
    + intros Hq. destruct (inv_finished0 k q Hk Hq) as (_ & ? & ?). auto.
  - pose proof (inv_close s Inv i Hi) as [Hc Hj]. unfold count in Hc, Hj.
    destruct (_zeromq_socket (self s)) eqn:Hs; intros [= <-]; open_teardown T Inv Hi.
    + own_effects E. reflexivity.
    + intros _. left. eapply witness_moves; eauto.
    + rewrite Hc. reflexivity.
    + intros Hq. destruct (inv_finished0 k q Hk Hq) as (_ & Hc' & _).
      rewrite Hc in Hc'. discriminate.
    + intros _. left. eapply witness_moves; eauto.
  - pose proof (inv_join s Inv i Hi) as Hj. unfold count in Hj.
    pose proof (inv_flag s Inv i JoinThr Hi eq_refl) as Hd.
    pose proof (inv_closed _ _ s T i Hi) as Hc. unfold count in Hc.
    destruct (_zeromq_thread (self s)) eqn:Ht;
      [destruct (listener_exited s) eqn:Hx; [|discriminate]|];
      intros [= <-]; open_teardown T Inv Hi.
    + right. own_effects E. reflexivity.
    + intros _. right. rewrite Hj. auto.
    + intros _. rewrite Hj. auto.
    + intros Hq. destruct (inv_finished0 k q Hk Hq) as (_ & _ & Hj').
      rewrite Hj in Hj'. discriminate.
    + right. rewrite E, app_nil_r. reflexivity.
  - pose proof (inv_finished _ _ s T i Release Hi (or_introl eq_refl)) as F.
    unfold count in F.
    intros [= <-]. open_teardown T Inv Hi.
    rewrite effects_of_app. simpl. rewrite app_nil_r. exact E.
  - discriminate.
Qed.

Lemma run_teardown hs ht schedule s :
  invariant s -> teardown_invariant hs ht s -> teardown_invariant hs ht (run schedule s).
Proof.
  revert s. induction schedule as [|a rest IH]; intros s I T; simpl; [exact T|].
  destruct (step a s) as [s'|] eqn:E; simpl; [|apply IH; assumption].
  apply IH; [eapply step_invariant; eauto|].
  destruct a as [i|m]; simpl in E.
  - eapply caller_step_teardown; eauto.
  - eapply listener_step_teardown; eauto.
Qed.

(** X26. Once any call of [destroy] has returned, the flag is set, the
    socket, if there is one, has been closed exactly once and the thread, if
    there is one, has been joined exactly once; without a socket or a thread
    nothing is closed or joined. *)
Theorem teardown_is_complete_on_return n has_socket has_thread schedule i :
  pcs (run schedule (initial n has_socket has_thread)) !! i = Some Done ->
  let s := run schedule (initial n has_socket has_thread) in
  __destroyed (self s) = true
  /\ count is_close (history s) = once has_socket
  /\ count is_join (history s) = once has_thread.
Proof.
  intros Hi s.
  pose proof (run_teardown has_socket has_thread schedule _
                (initial_invariant n has_socket has_thread)
                (initial_teardown_invariant n has_socket has_thread)) as T.
  exact (inv_finished _ _ _ T i Done Hi (or_intror eq_refl)).
Qed.

(** X27. Every call of [destroy] that has returned did, in order, exactly
    what [destroy] run alone does, either on a relay not yet destroyed (the
    superclass call, the close, the join) or on one already destroyed (the
    superclass call only): concurrent callers never see a partial
    teardown of their own. *)
Theorem returned_call_is_sequential n has_socket has_thread schedule i :
  pcs (run schedule (initial n has_socket has_thread)) !! i = Some Done ->
  let s := run schedule (initial n has_socket has_thread) in
  effects_of i (history s)
  = (destroy {| __destroyed := false; _zeromq_socket := has_socket;
                _zeromq_thread := has_thread |}).2
  \/ effects_of i (history s)
     = (destroy {| __destroyed := true; _zeromq_socket := has_socket;
                   _zeromq_thread := has_thread |}).2.
Proof.
  intros Hi s.
  pose proof (run_teardown has_socket has_thread schedule _
                (initial_invariant n has_socket has_thread)
                (initial_teardown_invariant n has_socket has_thread)) as T.
  subst s. destruct (inv_effects _ _ _ T i Done Hi) as [E|E]; [right|left]; rewrite E.
  - reflexivity.
  - unfold destroy, socket_part, thread_part. simpl.
    destruct has_socket, has_thread; reflexivity.
Qed.

Lemma teardown_is_complete_witness :
  let s := run Deployment.race (initial 2 true true) in
  __destroyed (self s) = true
  /\ count is_close (history s) = once true
  /\ count is_join (history s) = once true.
Proof.
  apply (teardown_is_complete_on_return 2 true true Deployment.race 1).
  reflexivity.
Defined.

Lemma returned_call_witness :
  let s := run Deployment.race (initial 2 true true) in
  effects_of 1 (history s)
  = (destroy {| __destroyed := false; _zeromq_socket := true;
                _zeromq_thread := true |}).2
  \/ effects_of 1 (history s)
     = (destroy {| __destroyed := true; _zeromq_socket := true;
                   _zeromq_thread := true |}).2.
Proof.
  apply (returned_call_is_sequential 2 true true Deployment.race 1).
  reflexivity.
Defined.

(** ** Shutdown: the claim *)



(** Two callers racing, the listener in [poll] when they arrive: the first
    waits in [join] until the poll has returned and the listener has read
    the flag; the second takes the lock once the first has released it,
    finds the flag set and returns at once. *)
Example two_callers_race :
  let s := run [ Listener LoopTest; Caller 0; Caller 1; Caller 0; Caller 1;
                 Caller 0; Caller 0; Caller 0; Caller 0;
                 Listener BodyReturns; Listener LoopTest; Caller 1; Caller 0;
                 Caller 0; Caller 1; Caller 1; Caller 1 ]
             (initial 2 true true) in
  pcs s = [Done; Done]
  /\ List.filter (fun ev => is_close ev || is_join ev || is_exit ev) (history s)
     = [Calls 0 SocketClose; ListenerExits; Calls 0 ThreadJoin]
  /\ List.filter (fun ev => match ev with Returns _ => true | _ => false end) (history s)
     = [Returns 0; Returns 1].
Proof. vm_compute. repeat split. Qed.
